(** * coolify-tools: the session client and the log extractor of [CoolifyLogs]

    A shallow embedding of the [CoolifyLogs] class (the log viewer of the
    repository) and the properties its specification states about it.

    JavaScript strings are sequences of UTF-16 code units; a code unit is a
    value of [N].  Regular expression literals of the source are kept as
    syntax trees and run by a backtracking matcher that follows the
    ECMAScript matching order, so that every pattern below can be read
    against the literal it embeds. *)

From Stdlib Require Import NArith ZArith String Ascii Lia.
From stdpp Require Import base option list gmap sorting.

Set Default Proof Using "Type".
Set Warnings "-register-all,-clear-no-such-hyp".

(* ================================================================== *)
(** * JavaScript strings *)
(* ================================================================== *)

Module JS.

Abbreviation JSString := (list N).

(** An ASCII literal of the source, as code units. *)
Definition lit (s : string) : JSString := N_of_ascii <$> list_ascii_of_string s.

(** The double quote, which a literal of this file cannot hold. *)
Definition DQUOTE : N := 34.
Definition BACKSLASH : N := 92.
Definition LF : N := 10.
Definition CR : N := 13.
Definition TAB : N := 9.

Definition code_unit_eqb (a b : N) : bool := N.eqb a b.

Fixpoint str_eqb (a b : JSString) : bool :=
  match a, b with
  | [], [] => true
  | x :: a', y :: b' => N.eqb x y && str_eqb a' b'
  | _, _ => false
  end.

(** [s.startsWith(p)] *)
Fixpoint startsWith (s p : JSString) : bool :=
  match p with
  | [] => true
  | x :: p' => match s with
               | y :: s' => N.eqb x y && startsWith s' p'
               | [] => false
               end
  end.

(** [s.includes(sub)] *)
Fixpoint includes (s sub : JSString) : bool :=
  startsWith s sub ||
  match s with
  | [] => false
  | _ :: s' => includes s' sub
  end.

(** [s.split(sep)[0]] for a one-character separator: the text before the
    first separator, the whole string when there is none. *)
Fixpoint split_head (sep : N) (s : JSString) : JSString :=
  match s with
  | [] => []
  | x :: s' => if N.eqb x sep then [] else x :: split_head sep s'
  end.

(** [parts.join(sep)] *)
Fixpoint join (sep : JSString) (parts : list JSString) : JSString :=
  match parts with
  | [] => []
  | [p] => p
  | p :: rest => p ++ sep ++ join sep rest
  end.

(** [s.substring(0, n)] *)
Definition substring0 (n : nat) (s : JSString) : JSString := take n s.

(** The truth value of a string: the empty string is falsy. *)
Definition str_truthy (s : JSString) : bool :=
  match s with [] => false | _ => true end.

(** [Buffer.byteLength(s)]: the length of the UTF-8 encoding.  A surrogate
    pair is one four-byte code point; a lone surrogate is written as
    U+FFFD, three bytes. *)
Definition is_high_surrogate (c : N) : bool := (55296 <=? c)%N && (c <? 56320)%N.
Definition is_low_surrogate (c : N) : bool := (56320 <=? c)%N && (c <? 57344)%N.

Fixpoint byteLength (s : JSString) : nat :=
  match s with
  | [] => 0
  | c :: s' =>
    if (c <? 128)%N then 1 + byteLength s'
    else if (c <? 2048)%N then 2 + byteLength s'
    else if is_high_surrogate c then
      match s' with
      | d :: s'' => if is_low_surrogate d then 4 + byteLength s'' else 3 + byteLength s'
      | [] => 3
      end
    else 3 + byteLength s'
  end.

End JS.
Export JS.

(* ================================================================== *)
(** * Regular expressions *)
(* ================================================================== *)

Module RegExp.

(** The fragment of the pattern language the source uses.  [Rep] is a
    quantifier [{lo,hi}] ([hi = None] for an open bound), greedy or lazy;
    [Grp i] is the capture group number [i]; a non-capturing group needs
    no node. *)
Inductive regex : Type :=
| Eps
| Sym (c : N)
| Class (p : N -> bool)
| Cat (r1 r2 : regex)
| Alt (r1 r2 : regex)
| Rep (greedy : bool) (lo : nat) (hi : option nat) (r : regex)
| Grp (i : nat) (r : regex).

(** A literal run of characters. *)
Definition Str (s : JSString) : regex := foldr (fun c r => Cat (Sym c) r) Eps s.

(** [(a|b|c)] *)
Fixpoint Alts (rs : list regex) : regex :=
  match rs with
  | [] => Class (fun _ => false)
  | [r] => r
  | r :: rs' => Alt r (Alts rs')
  end.

Definition Star (r : regex) : regex := Rep true 0 None r.
Definition Plus (r : regex) : regex := Rep true 1 None r.
Definition Opt (r : regex) : regex := Rep true 0 (Some 1) r.

(** Character classes. *)
Definition any_char : N -> bool := fun _ => true.          (* [\s\S] *)
Definition not_char (c : N) : N -> bool := fun x => negb (N.eqb x c).  (* [^c] *)
Definition lower_or_digit : N -> bool :=                    (* [a-z0-9] *)
  fun x => ((97 <=? x)%N && (x <=? 122)%N) || ((48 <=? x)%N && (x <=? 57)%N).

(** [\s]: the WhiteSpace and LineTerminator code points. *)
Definition white_space : N -> bool :=
  fun x => bool_decide (x ∈ [9; 10; 11; 12; 13; 32; 160; 5760; 8232; 8233; 8239; 8287; 12288; 65279]%N)
           || ((8192 <=? x)%N && (x <=? 8202)%N).

(** Canonicalize of the [i] flag, on the code units an ASCII pattern
    character can equal: a code unit of 128 or more never canonicalizes
    to an ASCII one. *)
Definition canonicalize (c : N) : N :=
  if ((97 <=? c)%N && (c <=? 122)%N) then (c - 32)%N else c.

Definition sym_eqb (ignoreCase : bool) (c x : N) : bool :=
  if ignoreCase then N.eqb (canonicalize c) (canonicalize x) else N.eqb c x.

Abbreviation Caps := (gmap nat JSString).

Section Matcher.
Context {A : Type}.

(** A continuation receives the rest of the input and the captures. *)
Definition Kont := JSString -> Caps -> option A.

(** The quantifier loop.  [lo] iterations are still required and [hi]
    still allowed.  An iteration that consumes nothing is rejected, and
    so [fuel], one more than the length of the input, is never
    exhausted. *)
Fixpoint rep_loop (step : JSString -> Caps -> Kont -> option A) (greedy : bool)
    (fuel lo : nat) (hi : option nat) (s : JSString) (c : Caps) (k : Kont) : option A :=
  match fuel with
  | 0 => None
  | S fuel' =>
    let again (_ : unit) :=
      match hi with
      | Some 0 => None
      | _ => step s c (fun s1 c1 =>
               if length s1 <? length s
               then rep_loop step greedy fuel' (pred lo) (pred <$> hi) s1 c1 k
               else None)
      end in
    let stop (_ : unit) := match lo with 0 => k s c | S _ => None end in
    if greedy
    then match again tt with Some a => Some a | None => stop tt end
    else match stop tt with Some a => Some a | None => again tt end
  end.

(** [rmatch ic r s c k]: match [r] at the head of [s], then continue
    with [k]; the first success in backtracking order wins. *)
Fixpoint rmatch (ignoreCase : bool) (r : regex) (s : JSString) (c : Caps) (k : Kont)
    : option A :=
  match r with
  | Eps => k s c
  | Sym x =>
    match s with
    | y :: s' => if sym_eqb ignoreCase x y then k s' c else None
    | [] => None
    end
  | Class p =>
    match s with
    | y :: s' => if p y then k s' c else None
    | [] => None
    end
  | Cat r1 r2 => rmatch ignoreCase r1 s c (fun s1 c1 => rmatch ignoreCase r2 s1 c1 k)
  | Alt r1 r2 =>
    match rmatch ignoreCase r1 s c k with
    | Some a => Some a
    | None => rmatch ignoreCase r2 s c k
    end
  | Rep g lo hi r1 => rep_loop (rmatch ignoreCase r1) g (S (length s)) lo hi s c k
  | Grp i r1 =>
    rmatch ignoreCase r1 s c
      (fun s1 c1 => k s1 (<[i := take (length s - length s1) s]> c1))
  end.
End Matcher.

(** The matches of a pattern, without the order in which the matcher
    tries them: [Matches ic r s c s' c'] holds when [r] can consume a
    prefix of [s] and leave [s'], taking the captures from [c] to [c']. *)
Inductive Matches (ic : bool) : regex -> JSString -> Caps -> JSString -> Caps -> Prop :=
| M_Eps s c : Matches ic Eps s c s c
| M_Sym x y s c : sym_eqb ic x y = true -> Matches ic (Sym x) (y :: s) c s c
| M_Class p y s c : p y = true -> Matches ic (Class p) (y :: s) c s c
| M_Cat r1 r2 s c s1 c1 s2 c2 :
    Matches ic r1 s c s1 c1 -> Matches ic r2 s1 c1 s2 c2 ->
    Matches ic (Cat r1 r2) s c s2 c2
| M_AltL r1 r2 s c s' c' : Matches ic r1 s c s' c' -> Matches ic (Alt r1 r2) s c s' c'
| M_AltR r1 r2 s c s' c' : Matches ic r2 s c s' c' -> Matches ic (Alt r1 r2) s c s' c'
| M_RepStop g hi r s c : Matches ic (Rep g 0 hi r) s c s c
| M_RepMore g lo hi r s c s1 c1 s2 c2 :
    hi <> Some 0 ->
    Matches ic r s c s1 c1 ->
    length s1 < length s ->
    Matches ic (Rep g (pred lo) (pred <$> hi) r) s1 c1 s2 c2 ->
    Matches ic (Rep g lo hi r) s c s2 c2
| M_Grp i r s c s1 c1 :
    Matches ic r s c s1 c1 ->
    Matches ic (Grp i r) s c s1 (<[i := take (length s - length s1) s]> c1).

(** A match: where it starts, the matched text ([m[0]]) and the groups
    ([m[1]], ...). *)
Record MatchResult := mkMatch {
  m_index : nat;
  m_text : JSString;
  m_groups : Caps
}.

Definition group (i : nat) (m : MatchResult) : option JSString := m_groups m !! i.

(** A pattern with its flags. *)
Record RegExp := mkRegExp { source : regex; ignoreCase : bool }.

Definition match_here (re : RegExp) (s : JSString) : option (JSString * Caps) :=
  rmatch (ignoreCase re) (source re) s ∅ (fun s' c => Some (s', c)).

(** The leftmost match in [s], which starts at offset [i] of the subject. *)
Fixpoint search (re : RegExp) (s : JSString) (i : nat) : option MatchResult :=
  match match_here re s with
  | Some (s', c) => Some (mkMatch i (take (length s - length s') s) c)
  | None =>
    match s with
    | [] => None
    | _ :: t => search re t (S i)
    end
  end.

(** [s.match(re)] and [re.exec(s)] for a pattern without the [g] flag. *)
Definition str_match (re : RegExp) (s : JSString) : option MatchResult := search re s 0.

(** The successive matches of a [g] pattern: [s.match(re)], and the
    results of [re.exec(s)] called until it answers [null].  [skip]
    counts the characters of the last match still to pass over.  After an
    empty match the scan moves one character on. *)
Fixpoint scan (re : RegExp) (s : JSString) (i skip : nat) : list MatchResult :=
  match skip with
  | S n =>
    match s with
    | [] => []
    | _ :: t => scan re t (S i) n
    end
  | 0 =>
    match match_here re s with
    | Some (s', c) =>
      let n := length s - length s' in
      mkMatch i (take n s) c ::
        match s with
        | [] => []
        | _ :: t => scan re t (S i) (pred n)
        end
    | None =>
      match s with
      | [] => []
      | _ :: t => scan re t (S i) 0
      end
    end
  end.

Definition match_all (re : RegExp) (s : JSString) : list MatchResult := scan re s 0 0.

(** [s.replace(re, by)] for a [g] pattern and a replacement text without
    [$] patterns. *)
Fixpoint replace_from (re : RegExp) (by_ : JSString) (s : JSString) (skip : nat) : JSString :=
  match skip with
  | S n =>
    match s with
    | [] => []
    | _ :: t => replace_from re by_ t n
    end
  | 0 =>
    match match_here re s with
    | Some (s', _) =>
      let n := length s - length s' in
      by_ ++
        match s with
        | [] => []
        | x :: t => (match n with 0 => [x] | S _ => [] end) ++ replace_from re by_ t (pred n)
        end
    | None =>
      match s with
      | [] => []
      | x :: t => x :: replace_from re by_ t 0
      end
    end
  end.

Definition replace (re : RegExp) (by_ : JSString) (s : JSString) : JSString :=
  replace_from re by_ s 0.

(** The groups of a pattern. *)
Fixpoint groups_of (r : regex) : list nat :=
  match r with
  | Eps | Sym _ | Class _ => []
  | Cat r1 r2 | Alt r1 r2 => groups_of r1 ++ groups_of r2
  | Rep _ _ _ r1 => groups_of r1
  | Grp i r1 => i :: groups_of r1
  end.

(** The least number of characters a pattern consumes. *)
Fixpoint min_len (r : regex) : nat :=
  match r with
  | Eps => 0
  | Sym _ | Class _ => 1
  | Cat r1 r2 => min_len r1 + min_len r2
  | Alt r1 r2 => min_len r1 `min` min_len r2
  | Rep _ lo _ r1 => lo * min_len r1
  | Grp _ r1 => min_len r1
  end.

(** [m] is the match the matcher finds at the head of [t]. *)
Definition found_at (re : RegExp) (t : JSString) (m : MatchResult) : Prop :=
  exists t', match_here re t = Some (t', m_groups m) /\
             m_text m = take (length t - length t') t.

End RegExp.
Export RegExp.

(* ================================================================== *)
(** * JavaScript values, as far as the program observes them *)
(* ================================================================== *)

Module Value.

(** A number, kept as the two observations the program can make of one:
    its truth value and its decimal rendering. *)
Record Number := mkNumber { num_truthy : bool; num_text : JSString }.

(** The values [JSON.parse] builds.  The properties of an object are
    listed in the order [Object.entries] enumerates them. *)
Inductive JSValue : Type :=
| JNull
| JBool (b : bool)
| JNum (n : Number)
| JStr (s : JSString)
| JArr (items : list JSValue)
| JObj (props : list (JSString * JSValue)).

Inductive Exn : Type :=
| TypeError
| SyntaxError
| Error (message : JSString)
| SystemError (code : JSString).

Inductive Result (A : Type) : Type :=
| Ok (a : A)
| Raise (e : Exn).
Arguments Ok {A} a.
Arguments Raise {A} e.

Definition rbind {A B} (x : Result A) (f : A -> Result B) : Result B :=
  match x with
  | Ok a => f a
  | Raise e => Raise e
  end.

(** [try { x } catch (e) { h }] *)
Definition rcatch {A} (x : Result A) (h : Exn -> Result A) : Result A :=
  match x with
  | Ok a => Ok a
  | Raise e => h e
  end.

(** The value of [v.key]; [None] is [undefined].  The property names the
    program reads ([data], [output], [logs], [deployment_logs]) are defined
    on no built-in prototype, so only an object can hold them, and only
    [null] refuses the access. *)
Fixpoint own_property (key : JSString) (props : list (JSString * JSValue)) : option JSValue :=
  match props with
  | [] => None
  | (k, v) :: rest => if str_eqb k key then Some v else own_property key rest
  end.

Definition Get (v : JSValue) (key : JSString) : Result (option JSValue) :=
  match v with
  | JNull => Raise TypeError
  | JObj props => Ok (own_property key props)
  | _ => Ok None
  end.

(** ToBoolean; [None] is [undefined]. *)
Definition ToBoolean (v : option JSValue) : bool :=
  match v with
  | None => false
  | Some JNull => false
  | Some (JBool b) => b
  | Some (JNum n) => num_truthy n
  | Some (JStr s) => str_truthy s
  | Some (JArr _) => true
  | Some (JObj _) => true
  end.

(** ToString, as [String(v)] and [re.exec(v)] apply it.  An array is the
    join of its elements with [null] as the empty string; an object is
    [[object Object]] unless it has a [toString] property of its own,
    which, coming from JSON, is not callable: the conversion then finds
    no primitive and throws. *)
Fixpoint ToString (v : JSValue) : Result JSString :=
  match v with
  | JNull => Ok (lit "null")
  | JBool true => Ok (lit "true")
  | JBool false => Ok (lit "false")
  | JNum n => Ok (num_text n)
  | JStr s => Ok s
  | JArr items =>
    (fix join_items (l : list JSValue) : Result JSString :=
       match l with
       | [] => Ok []
       | x :: rest =>
         rbind (match x with JNull => Ok [] | _ => ToString x end) (fun a =>
         match rest with
         | [] => Ok a
         | _ :: _ => rbind (join_items rest) (fun b => Ok (a ++ lit "," ++ b))
         end)
       end) items
  | JObj props =>
    match own_property (lit "toString") props with
    | Some _ => Raise TypeError
    | None => Ok (lit "[object Object]")
    end
  end.

(** The values of [Object.entries(v)], in order. *)
Definition entry_values (v : JSValue) : list JSValue :=
  match v with
  | JObj props => snd <$> props
  | JArr items => items
  | JStr s => (fun c => JStr [c]) <$> s
  | _ => []
  end.

(** [v.match(re)]: only a string has the method. *)
Definition method_match (v : JSValue) (re : RegExp) : Result (option MatchResult) :=
  match v with
  | JStr s => Ok (str_match re s)
  | _ => Raise TypeError
  end.

(** [v.includes(x)] for a string [x]: a substring test on a string, a
    membership test on an array, a TypeError on anything else. *)
Definition method_includes (v : JSValue) (x : JSString) : Result bool :=
  match v with
  | JStr s => Ok (includes s x)
  | JArr items =>
    Ok (existsb (fun e => match e with JStr s => str_eqb s x | _ => false end) items)
  | _ => Raise TypeError
  end.

(** What the platform provides and the program calls. [JSON_parse]
    answers [None] where [JSON.parse] throws a SyntaxError. *)
Class Runtime := {
  JSON_parse : JSString -> option JSValue;
  URLSearchParams_toString : list (JSString * JSString) -> JSString
}.

End Value.
Export Value.

(* ================================================================== *)
(** * The network and the session *)
(* ================================================================== *)

Module Http.

Inductive HeaderValue : Type :=
| HStr (s : JSString)
| HNum (n : nat)
| HNull.

(** The [options] argument of [request]. *)
Record Options := mkOptions {
  opt_method : option JSString;
  opt_headers : gmap JSString HeaderValue;
  opt_body : option JSString
}.

Definition no_options : Options := mkOptions None ∅ None.

(** What goes on the wire. *)
Record Request := mkRequest {
  req_url : JSString;
  req_method : JSString;
  req_headers : gmap JSString HeaderValue;
  req_body : option JSString
}.

(** What comes back: [res.statusCode], [res.headers['set-cookie']],
    [res.headers.location] and the payload, the concatenation of the
    chunks. *)
Record Incoming := mkIncoming {
  statusCode : Z;
  set_cookie : option (list JSString);
  location : option JSString;
  payload : JSString
}.

Inductive Answer : Type :=
| Reply (res : Incoming)
| Refuse (code : JSString).

(** A server sees the requests sent so far, the latest first, and answers
    the latest. *)
Definition Server := list Request -> Answer.

(** The object [request] resolves to. *)
Record Response := mkResponse {
  status : Z;
  body : JSValue;
  headers : Incoming
}.

Record Session := mkSession {
  baseURL : JSString;
  cookies : JSString;
  csrfToken : option JSString;
  projectId : option JSString;
  environmentId : option JSString;
  applicationId : option JSString
}.

Record World := mkWorld {
  session : Session;
  sent : list Request
}.

(** How a call ends: with a value, with an exception, or not within the
    given number of requests. *)
Inductive Outcome (A : Type) : Type :=
| Returned (a : A) (w : World)
| Thrown (e : Exn) (w : World)
| Pending (w : World).
Arguments Returned {A} a w.
Arguments Thrown {A} e w.
Arguments Pending {A} w.

Definition M (A : Type) := World -> Outcome A.

Definition ret {A} (a : A) : M A := fun w => Returned a w.
Definition throw {A} (e : Exn) : M A := fun w => Thrown e w.
Definition bind {A B} (m : M A) (f : A -> M B) : M B :=
  fun w =>
    match m w with
    | Returned a w' => f a w'
    | Thrown e w' => Thrown e w'
    | Pending w' => Pending w'
    end.
Definition try_catch {A} (m : M A) (h : Exn -> M A) : M A :=
  fun w =>
    match m w with
    | Returned a w' => Returned a w'
    | Thrown e w' => h e w'
    | Pending w' => Pending w'
    end.
Definition lift {A} (r : Result A) : M A :=
  fun w =>
    match r with
    | Ok a => Returned a w
    | Raise e => Thrown e w
    end.
#[global] Instance Result_bind : MBind Result := fun A B f x => rbind x f.
#[global] Instance Result_ret : MRet Result := fun A a => Ok a.
#[global] Instance M_bind : MBind M := fun A B f m => bind m f.
#[global] Instance M_ret : MRet M := fun A a => ret a.

Definition get_session : M Session := fun w => Returned (session w) w.
Definition set_session (f : Session -> Session) : M unit :=
  fun w => Returned tt (mkWorld (f (session w)) (sent w)).

End Http.
Export Http.


(* ================================================================== *)
(** * The class [CoolifyLogs] *)
(* ================================================================== *)

Module CoolifyLogs.

Definition chr (a : ascii) : N := N_of_ascii a.

(** A sequence of pattern terms. *)
Definition Seq (rs : list regex) : regex := foldr Cat Eps rs.

(** ** The patterns of the source *)

(** [/<meta name=Qcsrf-tokenQ content=Q([^Q]+)Q/], where [Q] stands for
    the double quote. *)
Definition re_csrf : RegExp :=
  mkRegExp (Seq [Str (lit "<meta name="); Sym DQUOTE; Str (lit "csrf-token"); Sym DQUOTE;
                 Str (lit " content="); Sym DQUOTE;
                 Grp 1 (Plus (Class (not_char DQUOTE))); Sym DQUOTE]) false.

(** [/\/project\/([a-z0-9]+)/g], [/\/environment\/([a-z0-9]+)/g],
    [/\/application\/([a-z0-9]+)/g] *)
Definition re_path (segment : string) : RegExp :=
  mkRegExp (Seq [Sym (chr "/"); Str (lit segment); Sym (chr "/");
                 Grp 1 (Plus (Class lower_or_digit))]) false.
Definition projectRegex : RegExp := re_path "project".
Definition envRegex : RegExp := re_path "environment".
Definition appRegex : RegExp := re_path "application".

(** [/\/deployment\/([a-z0-9]{24})/g] *)
Definition deploymentRegex : RegExp :=
  mkRegExp (Seq [Str (lit "/deployment/");
                 Grp 1 (Rep true 24 (Some 24) (Class lower_or_digit))]) false.

(** The pattern of the annotated scan, its terms set apart by spaces:
    [/ \/deployment\/ ([a-z0-9]{24}) [^<]* (?:<[^>]*>)* ( [^<]* (?:Success|Failed|Running|Pending) [^<]* ) /g] *)
Definition deploymentPattern : RegExp :=
  mkRegExp (Seq [Str (lit "/deployment/");
                 Grp 1 (Rep true 24 (Some 24) (Class lower_or_digit));
                 Star (Class (not_char (chr "<")));
                 Star (Seq [Sym (chr "<"); Star (Class (not_char (chr ">"))); Sym (chr ">")]);
                 Grp 2 (Seq [Star (Class (not_char (chr "<")));
                             Alts [Str (lit "Success"); Str (lit "Failed");
                                   Str (lit "Running"); Str (lit "Pending")];
                             Star (Class (not_char (chr "<")))])]) false.

(** [/wire:snapshot=Q([^Q]+)Q/], where [Q] stands for the double quote. *)
Definition re_wire_snapshot : RegExp :=
  mkRegExp (Seq [Str (lit "wire:snapshot="); Sym DQUOTE;
                 Grp 1 (Plus (Class (not_char DQUOTE))); Sym DQUOTE]) false.

(** [/<[^>]*>(Error|Server is not functional)[^<]*<\/[^>]*>/] *)
Definition re_status_markup : RegExp :=
  mkRegExp (Seq [Sym (chr "<"); Star (Class (not_char (chr ">"))); Sym (chr ">");
                 Grp 1 (Alts [Str (lit "Error"); Str (lit "Server is not functional")]);
                 Star (Class (not_char (chr "<")));
                 Str (lit "</"); Star (Class (not_char (chr ">"))); Sym (chr ">")]) false.

(** [/<pre[^>]*>([\s\S]{1,5000}?)<\/pre>/] and
    [/<code[^>]*>([\s\S]{1,5000}?)<\/code>/] *)
Definition re_block (tag : string) : RegExp :=
  mkRegExp (Seq [Sym (chr "<"); Str (lit tag); Star (Class (not_char (chr ">"))); Sym (chr ">");
                 Grp 1 (Rep false 1 (Some 5000) (Class any_char));
                 Str (lit "</"); Str (lit tag); Sym (chr ">")]) false.
Definition re_pre : RegExp := re_block "pre".
Definition re_code : RegExp := re_block "code".

(** [/(step|clone|install|build|error|failed|success|docker)[^\n]{0,200}/gi] *)
Definition re_keyword_line : RegExp :=
  mkRegExp (Seq [Grp 1 (Alts [Str (lit "step"); Str (lit "clone"); Str (lit "install");
                              Str (lit "build"); Str (lit "error"); Str (lit "failed");
                              Str (lit "success"); Str (lit "docker")]);
                 Rep true 0 (Some 200) (Class (not_char LF))]) true.

(** The patterns of the entity decoding, [/&lt;/g] and the like. *)
Definition re_literal (s : JSString) : RegExp := mkRegExp (Str s) false.

(** [/<br\s*\/?>/gi] *)
Definition re_br : RegExp :=
  mkRegExp (Seq [Str (lit "<br"); Star (Class white_space); Opt (Sym (chr "/"));
                 Sym (chr ">")]) true.

(** [/<[^>]+>/g] *)
Definition re_tag : RegExp :=
  mkRegExp (Seq [Sym (chr "<"); Plus (Class (not_char (chr ">"))); Sym (chr ">")]) false.

(** [m[i]], for a group that takes part in every match of its pattern. *)
Definition capture (i : nat) (m : MatchResult) : JSString := default [] (group i m).

(** ** [request] *)

Section Client.
Context `{Runtime} (server : Server).

Definition baseline_headers : gmap JSString HeaderValue :=
  list_to_map
    [(lit "User-Agent",
      HStr (lit "Mozilla/5.0 (X11; Linux x86_64) AppleWebKit/537.36 (KHTML, like Gecko) Chrome/131.0.0.0 Safari/537.36"));
     (lit "Accept", HStr (lit "*/*"));
     (lit "Accept-Language", HStr (lit "en-US,en;q=0.9"));
     (lit "Connection", HStr (lit "keep-alive"));
     (lit "Accept-Encoding", HStr (lit "gzip, deflate, br"));
     (lit "Cache-Control", HStr (lit "no-cache"))].

(** [opts.headers], once the cookie, the token and the length are set. *)
Definition request_headers (s : Session) (options : Options) : gmap JSString HeaderValue :=
  let h0 := opt_headers options ∪ baseline_headers in
  let h1 := if str_truthy (cookies s) then <[lit "Cookie" := HStr (cookies s)]> h0 else h0 in
  let h2 := match csrfToken s with
            | Some t => if str_truthy t then <[lit "X-CSRF-Token" := HStr t]> h1 else h1
            | None => h1
            end in
  match opt_body options with
  | Some b => if str_truthy b then <[lit "Content-Length" := HNum (byteLength b)]> h2 else h2
  | None => h2
  end.

(** [options.method || 'GET'] *)
Definition request_method (options : Options) : JSString :=
  match opt_method options with
  | Some m => if str_truthy m then m else lit "GET"
  | None => lit "GET"
  end.

Definition request_body (options : Options) : option JSString :=
  match opt_body options with
  | Some b => if str_truthy b then Some b else None
  | None => None
  end.

Definition outgoing (s : Session) (url : JSString) (options : Options) : Request :=
  mkRequest url (request_method options) (request_headers s options) (request_body options).

(** [this.cookies = res.headers['set-cookie'].map(c => c.split(';')[0]).join('; ')] *)
Definition capture_cookies (res : Incoming) (s : Session) : Session :=
  match set_cookie res with
  | Some cs =>
    mkSession (baseURL s) (join (lit "; ") (split_head (chr ";") <$> cs))
              (csrfToken s) (projectId s) (environmentId s) (applicationId s)
  | None => s
  end.

(** [res.statusCode >= 300 && res.statusCode < 400 && res.headers.location] *)
Definition is_redirect (res : Incoming) : bool :=
  (300 <=? statusCode res)%Z && (statusCode res <? 400)%Z &&
  match location res with
  | Some l => str_truthy l
  | None => false
  end.

Definition redirectUrl (s : Session) (res : Incoming) : JSString :=
  let l := default [] (location res) in
  if startsWith l (lit "http") then l else baseURL s ++ l.

(** [try { JSON.parse(data) } catch (e) { data }] *)
Definition parse_body (data : JSString) : JSValue :=
  match JSON_parse data with
  | Some json => json
  | None => JStr data
  end.

(** [request(url, options)].  [fuel] bounds the number of requests the
    call may send; the source has no such bound.  A URL that [new URL]
    rejects and a transport failure both reject the promise, and are
    both an answer [Refuse] of the network. *)
Fixpoint request (fuel : nat) (url : JSString) (options : Options) : M Response :=
  fun w =>
  match fuel with
  | 0 => Pending w
  | S fuel' =>
    let w1 := mkWorld (session w) (outgoing (session w) url options :: sent w) in
    match server (sent w1) with
    | Refuse code => Thrown (SystemError code) w1
    | Reply res =>
      let w2 := mkWorld (capture_cookies res (session w1)) (sent w1) in
      if is_redirect res
      then request fuel' (redirectUrl (session w2) res) options w2
      else Returned (mkResponse (statusCode res) (parse_body (payload res)) res) w2
    end
  end.

(** ** [login] *)

Definition set_csrfToken (t : option JSString) (s : Session) : Session :=
  mkSession (baseURL s) (cookies s) t (projectId s) (environmentId s) (applicationId s).

Definition login_options (s : Session) (email password : JSString) : Options :=
  mkOptions (Some (lit "POST"))
    (list_to_map
       [(lit "Content-Type", HStr (lit "application/x-www-form-urlencoded"));
        (lit "X-CSRF-Token", match csrfToken s with Some t => HStr t | None => HNull end);
        (lit "Referer", HStr (baseURL s ++ lit "/login"))])
    (Some (URLSearchParams_toString [(lit "email", email); (lit "password", password)])).

Definition unresolved_host_message (s : Session) : JSString :=
  lit "Could not resolve Coolify server: " ++ baseURL s ++ [LF; LF] ++
  lit "Please specify your Coolify URL using one of these methods:" ++ [LF] ++
  lit "  1. Command line: coolify-logs https://your-coolify-url" ++ [LF] ++
  lit "  2. Environment variable: export COOLIFY_URL=https://your-coolify-url" ++ [LF] ++
  lit "  3. Environment variable: export COOLIFY_HOST=your-coolify-url" ++ [LF; LF] ++
  lit "Example: coolify-logs https://coolify.example.com".

Definition failure_phrase : JSString := lit "These credentials do not match".
Definition invalid_credentials : Exn := Error (lit "Invalid email or password").

Definition login (fuel : nat) (email password : JSString) : M bool :=
  try_catch
    (s ← get_session;
     loginPageRes ← request fuel (baseURL s ++ lit "/login") no_options;
     csrfMatch ← lift (method_match (body loginPageRes) re_csrf);
     set_session (set_csrfToken (csrfMatch ≫= group 1));;
     s ← get_session;
     loginRes ← request fuel (baseURL s ++ lit "/login") (login_options s email password);
     rejected ← lift (method_includes (body loginRes) failure_phrase);
     if rejected : bool then throw invalid_credentials else mret true)
    (fun error =>
       s ← get_session;
       match error with
       | SystemError code =>
         if str_eqb code (lit "ENOTFOUND")
         then throw (Error (unresolved_host_message s))
         else throw error
       | _ => throw error
       end).

(** ** [discoverResources] *)

(** The loop
    [while ((match = re.exec(text)) !== null)
       if (!ids.includes(match[1])) ids.push(match[1])]. *)
Definition push_new (ids : list JSString) (m : MatchResult) : list JSString :=
  if bool_decide (capture 1 m ∈ ids) then ids else ids ++ [capture 1 m].

Definition collect (re : RegExp) (text : JSString) : list JSString :=
  foldl push_new [] (match_all re text).

Definition set_projectId (p : JSString) (s : Session) : Session :=
  mkSession (baseURL s) (cookies s) (csrfToken s) (Some p) (environmentId s) (applicationId s).
Definition set_environmentId (e : JSString) (s : Session) : Session :=
  mkSession (baseURL s) (cookies s) (csrfToken s) (projectId s) (Some e) (applicationId s).
Definition set_applicationId (a : JSString) (s : Session) : Session :=
  mkSession (baseURL s) (cookies s) (csrfToken s) (projectId s) (environmentId s) (Some a).

(** [!res.body || res.body.includes('404')] *)
Definition looks_missing (res : Response) : Result bool :=
  if negb (ToBoolean (Some (body res))) then Ok true
  else method_includes (body res) (lit "404").

(** The dashboard: [/dashboard], or the root page when that one looks
    missing (the first three statements of the [try] block). *)
Definition fetch_dashboard (fuel : nat) : M Response :=
  s ← get_session;
  dashboardRes ← request fuel (baseURL s ++ lit "/dashboard") no_options;
  missing ← lift (looks_missing dashboardRes);
  if missing : bool
  then request fuel (baseURL s ++ lit "/") no_options
  else mret dashboardRes.

Definition discoverResources (fuel : nat) : M bool :=
  try_catch
    (s ← get_session;
     dashboardRes ← fetch_dashboard fuel;
     dashboard ← lift (ToString (body dashboardRes));
     match collect projectRegex dashboard with
     | [] => mret false
     | project :: _ =>
       set_session (set_projectId project);;
       projectRes ← request fuel (baseURL s ++ lit "/project/" ++ project) no_options;
       page ← lift (ToString (body projectRes));
       match collect envRegex page with
       | [] => mret false
       | environment :: _ =>
         set_session (set_environmentId environment);;
         match collect appRegex page with
         | [] => mret false
         | application :: _ =>
           set_session (set_applicationId application);;
           mret true
         end
       end
     end)
    (fun _ => mret false).

(** ** [getDeploymentsList] *)

(** An identifier in a template literal; [null] prints as [null]. *)
Definition id_text (o : option JSString) : JSString := default (lit "null") o.

Definition id_truthy (o : option JSString) : bool :=
  match o with
  | Some x => str_truthy x
  | None => false
  end.

Definition application_url (s : Session) : JSString :=
  baseURL s ++ lit "/project/" ++ id_text (projectId s) ++
  lit "/environment/" ++ id_text (environmentId s) ++
  lit "/application/" ++ id_text (applicationId s).

(** [if (!deployments.some(d => d.id === id)) deployments.push({id, info})] *)
Definition push_deployment (info : MatchResult -> JSString)
    (deployments : list (JSString * JSString)) (m : MatchResult) : list (JSString * JSString) :=
  if existsb (fun d => bool_decide (d.1 = capture 1 m)) deployments
  then deployments
  else deployments ++ [(capture 1 m, info m)].

Definition deployment_ids (text : JSString) : list JSString :=
  let deployments := foldl (push_deployment (capture 2)) [] (match_all deploymentPattern text) in
  let deployments :=
    if length deployments =? 0
    then foldl (push_deployment (fun _ => [])) deployments (match_all deploymentRegex text)
    else deployments in
  fst <$> deployments.

Definition getDeploymentsList (fuel : nat) : M (list JSString) :=
  s ← get_session;
  discovered ← (if negb (id_truthy (projectId s)) || negb (id_truthy (environmentId s))
                   || negb (id_truthy (applicationId s))
                then discoverResources fuel
                else mret true);
  if negb discovered then mret []
  else
    s ← get_session;
    res ← request fuel (application_url s ++ lit "/deployment") no_options;
    text ← lift (ToString (body res));
    mret (deployment_ids text).

(** ** [getDeploymentLogs] *)

(** The two variables of the cascade. [logsContent] starts as [null]. *)
Record Cascade := mkCascade {
  logsContent : option JSValue;
  logFound : bool
}.

Definition found (v : JSValue) : Cascade := mkCascade (Some v) true.

(** The value of [wireData.data && wireData.data.name]. *)
Definition data_and (wireData : JSValue) (name : string) : Result (option JSValue) :=
  data ← Get wireData (lit "data");
  if ToBoolean data
  then match data with
       | Some d => Get d (lit name)
       | None => Ok None
       end
  else Ok data.

(** [typeof value === 'string' && value.length > 500] *)
Definition long_string (v : JSValue) : bool :=
  match v with
  | JStr s => 500 <? length s
  | _ => false
  end.

(** The four entity replacements applied to the snapshot attribute. *)
Definition decode_snapshot (s : JSString) : JSString :=
  replace (re_literal (lit "&amp;")) (lit "&")
    (replace (re_literal (lit "&gt;")) (lit ">")
      (replace (re_literal (lit "&lt;")) (lit "<")
        (replace (re_literal (lit "&quot;")) [DQUOTE] s))).

(** The body of the [try] block of strategy 1. *)
Definition read_snapshot (wireMatch : MatchResult) (st : Cascade) : Result Cascade :=
  let decoded := decode_snapshot (capture 1 wireMatch) in
  wireData ← match JSON_parse decoded with
              | Some v => Ok v
              | None => Raise SyntaxError
              end;
  output ← data_and wireData "output";
  if ToBoolean output then Ok (mkCascade output true) else
  logs ← data_and wireData "logs";
  if ToBoolean logs then Ok (mkCascade logs true) else
  deployment_logs ← data_and wireData "deployment_logs";
  if ToBoolean deployment_logs then Ok (mkCascade deployment_logs true) else
  data ← Get wireData (lit "data");
  if ToBoolean data
  then match find long_string (entry_values (default JNull data)) with
       | Some value => Ok (found value)
       | None => Ok st
       end
  else Ok st.

(** Strategy 1: the Livewire snapshot.  The [catch] only prints. *)
Definition strategy1 (page : JSValue) (st : Cascade) : Result Cascade :=
  wireMatch ← method_match page re_wire_snapshot;
  match wireMatch with
  | Some m => rcatch (read_snapshot m st) (fun _ => Ok st)
  | None => Ok st
  end.

(** Strategy 2: a tag around an error message. *)
Definition strategy2 (page : JSValue) (st : Cascade) : Result Cascade :=
  if negb (logFound st)
  then errorMatch ← method_match page re_status_markup;
       match errorMatch with
       | Some m => Ok (found (JStr (m_text m)))
       | None => Ok st
       end
  else Ok st.

(** Strategies 3 and 4: a [pre] block, then a [code] block. *)
Definition strategy_block (re : RegExp) (page : JSValue) (st : Cascade) : Result Cascade :=
  if negb (logFound st)
  then blockMatch ← method_match page re;
       match blockMatch with
       | Some m => Ok (found (JStr (capture 1 m)))
       | None => Ok st
       end
  else Ok st.
Definition strategy3 := strategy_block re_pre.
Definition strategy4 := strategy_block re_code.

(** Strategy 5: the lines that hold a keyword.  [page.match(re)] with a
    [g] pattern is [null] when nothing matches. *)
Definition strategy5 (page : JSValue) (st : Cascade) : Result Cascade :=
  if negb (logFound st)
  then match page with
       | JStr s =>
         match match_all re_keyword_line s with
         | [] => Ok st
         | textMatch => Ok (found (JStr (join [LF] (m_text <$> textMatch))))
         end
       | _ => Raise TypeError
       end
  else Ok st.

Definition cascade (page : JSValue) : Result Cascade :=
  st ← strategy1 page (mkCascade None false);
  st ← strategy2 page st;
  st ← strategy3 page st;
  st ← strategy4 page st;
  strategy5 page st.

(** The eleven replacements applied to the winning text. *)
Definition normalize (s : JSString) : JSString :=
  replace re_tag []
    (replace re_br [LF]
      (replace (re_literal [BACKSLASH; chr "t"]) [TAB]
        (replace (re_literal [BACKSLASH; chr "r"]) [CR]
          (replace (re_literal [BACKSLASH; chr "n"]) [LF]
            (replace (re_literal (lit "&nbsp;")) (lit " ")
              (replace (re_literal (lit "&#039;")) (lit "'")
                (replace (re_literal (lit "&quot;")) [DQUOTE]
                  (replace (re_literal (lit "&amp;")) (lit "&")
                    (replace (re_literal (lit "&gt;")) (lit ">")
                      (replace (re_literal (lit "&lt;")) (lit "<") s)))))))))).

(** What [getDeploymentLogs] computes from the page it fetched: the
    normalized text, or [null]. *)
Definition extract (page : JSValue) : Result (option JSString) :=
  st ← cascade page;
  if logFound st && ToBoolean (logsContent st)
  then text ← ToString (default JNull (logsContent st));
       Ok (Some (normalize text))
  else Ok None.

Definition getDeploymentLogs (fuel : nat) (deploymentId : JSString) : M (option JSString) :=
  s ← get_session;
  res ← request fuel (application_url s ++ lit "/deployment/" ++ deploymentId) no_options;
  lift (extract (body res)).

End Client.

End CoolifyLogs.

(** ** The earlier viewer, [view-logs.js] *)

Module Legacy.
Import CoolifyLogs.

(** [getDeploymentsList] of [view-logs.js]: one scan with the plain
    pattern. *)
Definition deployment_ids (text : JSString) : list JSString :=
  collect deploymentRegex text.

(** The normalization of [view-logs.js]: five entities, then the tags. *)
Definition normalize (s : JSString) : JSString :=
  replace re_tag []
    (replace (re_literal (lit "&#039;")) (lit "'")
      (replace (re_literal (lit "&quot;")) [DQUOTE]
        (replace (re_literal (lit "&amp;")) (lit "&")
          (replace (re_literal (lit "&gt;")) (lit ">")
            (replace (re_literal (lit "&lt;")) (lit "<") s))))).

End Legacy.

(* ================================================================== *)
(** * Scenarios: a runtime and servers to run the client against *)
(* ================================================================== *)

Module Scenario.
Import CoolifyLogs.

(** The [application/x-www-form-urlencoded] serializer behind
    [URLSearchParams.prototype.toString]. *)
Fixpoint code_points (s : JSString) : list N :=
  match s with
  | [] => []
  | c :: s' =>
    if is_high_surrogate c then
      match s' with
      | d :: s'' =>
        if is_low_surrogate d
        then (65536 + (c - 55296) * 1024 + (d - 56320))%N :: code_points s''
        else 65533%N :: code_points s'
      | [] => [65533%N]
      end
    else if is_low_surrogate c then 65533%N :: code_points s'
    else c :: code_points s'
  end.

Definition utf8 (p : N) : list N :=
  if (p <? 128)%N then [p]
  else if (p <? 2048)%N then [192 + p / 64; 128 + p mod 64]%N
  else if (p <? 65536)%N then [224 + p / 4096; 128 + (p / 64) mod 64; 128 + p mod 64]%N
  else [240 + p / 262144; 128 + (p / 4096) mod 64; 128 + (p / 64) mod 64; 128 + p mod 64]%N.

Definition hex_digit (n : N) : N := if (n <? 10)%N then (48 + n)%N else (55 + n)%N.

Definition form_byte (b : N) : JSString :=
  if lower_or_digit b || ((65 <=? b)%N && (b <=? 90)%N)
     || bool_decide (b ∈ [42; 45; 46; 95]%N)
  then [b]
  else if (b =? 32)%N then [43%N]
  else [37%N; hex_digit (b / 16); hex_digit (b mod 16)].

Definition form_encode (s : JSString) : JSString :=
  mjoin (form_byte <$> mjoin (utf8 <$> code_points s)).

Definition form_serialize (fields : list (JSString * JSString)) : JSString :=
  join (lit "&") ((fun f => form_encode f.1 ++ lit "=" ++ form_encode f.2) <$> fields).

(** A runtime whose [JSON.parse] is given by its graph on the payloads
    of a scenario, and rejects every other text, as [JSON.parse] rejects
    the markup of the pages. *)
Fixpoint lookup_text (tbl : list (JSString * JSValue)) (s : JSString) : option JSValue :=
  match tbl with
  | [] => None
  | (k, v) :: rest => if str_eqb k s then Some v else lookup_text rest s
  end.

Definition runtime (json : list (JSString * JSValue)) : Runtime :=
  {| JSON_parse := lookup_text json; URLSearchParams_toString := form_serialize |}.

(** A server that answers its n-th request with the n-th entry of a
    script, and resets the connection once the script is over. *)
Definition scripted (answers : list Answer) : Server :=
  fun history => default (Refuse (lit "ECONNRESET")) (answers !! (length history - 1)).

Definition page (code : Z) (text : JSString) : Answer :=
  Reply (mkIncoming code None None text).

Definition redirect (code : Z) (target : JSString) : Answer :=
  Reply (mkIncoming code None (Some target) []).

(** A server that redirects every request. *)
Definition always_redirect : Server :=
  fun _ => redirect 302 (lit "/login").

(** A server that redirects its first [n] requests and then serves a
    page. *)
Definition redirect_times (n : nat) : Server :=
  fun history => if length history <=? n then redirect 302 (lit "/next")
                 else page 200 (lit "done").

Definition fresh (base : JSString) : World :=
  mkWorld (mkSession base [] None None None None) [].

Definition base : JSString := lit "https://coolify.example.com".

(** A literal in which the apostrophe stands for the double quote. *)
Definition quoted (s : string) : JSString :=
  (fun c => if (c =? 39)%N then DQUOTE else c) <$> lit s.

Definition sent_by {A} (o : Outcome A) : list Request :=
  match o with
  | Returned _ w => sent w
  | Thrown _ w => sent w
  | Pending w => sent w
  end.

End Scenario.

(* ================================================================== *)
(** * The specification's wording, where it is compared with the code *)
(* ================================================================== *)

Module Claimed.
Import CoolifyLogs.

(** The cookie jar as the specification words it: a map from the name
    of a cookie to the pair seen last for that name, filled from every
    response that sets cookies and sent as the join of its pairs. *)
Definition cookie_name (pair : JSString) : JSString := split_head (chr "=") pair.

Fixpoint jar_put (jar : list (JSString * JSString)) (pair : JSString)
    : list (JSString * JSString) :=
  match jar with
  | [] => [(cookie_name pair, pair)]
  | (name, old) :: rest =>
    if str_eqb name (cookie_name pair)
    then (name, pair) :: rest
    else (name, old) :: jar_put rest pair
  end.

Definition jar_receive (jar : list (JSString * JSString)) (res : Incoming)
    : list (JSString * JSString) :=
  foldl jar_put jar (split_head (chr ";") <$> default [] (set_cookie res)).

Definition cookie_header (responses : list Incoming) : JSString :=
  join (lit "; ") (snd <$> foldl jar_receive [] responses).

End Claimed.

(** ** Pages and payloads of the scenarios *)

Module Pages.
Import Scenario.

(** A login page with the token [abc123] in its meta tag. *)
Definition login_page : JSString :=
  quoted "<html><head><meta name='csrf-token' content='abc123'></head><body>Login</body></html>".

Definition server_error_page : JSString :=
  lit "<html><body><h1>500 | Server Error</h1></body></html>".

Definition rejected_page : JSString :=
  lit "<html><body><p>These credentials do not match our records.</p></body></html>".

(** A JSON error document and the value [JSON.parse] gives for it. *)
Definition server_error_json : JSString := quoted "{'message':'Server Error'}".
Definition server_error_value : JSValue := JObj [(lit "message", JStr (lit "Server Error"))].

Definition email : JSString := lit "admin@example.com".
Definition password : JSString := lit "s3cret pass".
End Pages.

(** ** The matches a deduplicating loop keeps *)

Module Picks.
Import CoolifyLogs.

(** The matches whose identifier has not been seen before, in order. *)
Fixpoint first_matches (seen : list JSString) (ms : list MatchResult) : list MatchResult :=
  match ms with
  | [] => []
  | m :: rest =>
    if bool_decide (capture 1 m ∈ seen)
    then first_matches seen rest
    else m :: first_matches (seen ++ [capture 1 m]) rest
  end.

(** [s.indexOf(sub)] *)
Fixpoint indexOf_from (s sub : JSString) (i : nat) : option nat :=
  if startsWith s sub then Some i
  else match s with
       | [] => None
       | _ :: t => indexOf_from t sub (S i)
       end.
Definition indexOf (s sub : JSString) : option nat := indexOf_from s sub 0.

End Picks.

(** Pages of a server with two projects, the first with two environments
    and two applications. *)
Module Dashboard.
Import Scenario.

Definition dashboard_page : JSString :=
  lit "<a href=/project/p1aaa>One</a> <a href=/project/p2bbb>Two</a>".

Definition project_page : JSString :=
  lit "<a href=/project/p1aaa/environment/e1ccc>prod</a> <a href=/project/p1aaa/environment/e2ddd>dev</a> <a href=/project/p1aaa/environment/e1ccc/application/a1eee>web</a> <a href=/project/p1aaa/environment/e1ccc/application/a2fff>api</a>".

Definition empty_project_page : JSString := lit "<p>No environments yet.</p>".

Definition server : Server := scripted [page 200 dashboard_page; page 200 project_page].
Definition server_without_environment : Server :=
  scripted [page 200 dashboard_page; page 200 empty_project_page].

End Dashboard.

(** ** Deployment identifiers, as the specification words them *)

Module Deployments.
Import CoolifyLogs Picks.

(** A token of 24 lowercase letters and digits. *)
Definition is_deployment_id (id : JSString) : bool :=
  (length id =? 24) && forallb lower_or_digit id.

(** [id] occurs as a path segment of [text] at offset [p]. *)
Definition occurs_at (text : JSString) (p : nat) (id : JSString) : Prop :=
  startsWith (drop p text) (lit "/deployment/" ++ id) = true.

(** The identifiers come in the order of their first occurrence in the
    page. *)
Definition first_occurrence_order (text : JSString) (ids : list JSString) : Prop :=
  forall i j x y,
    i < j -> ids !! i = Some x -> ids !! j = Some y ->
    exists p q,
      indexOf text (lit "/deployment/" ++ x) = Some p /\
      indexOf text (lit "/deployment/" ++ y) = Some q /\
      p < q.

(** A page on which an identifier is first met without a status after
    it. *)
Definition id_a : JSString := lit "aaaaaaaaaaaaaaaaaaaaaaaa".
Definition id_b : JSString := lit "bbbbbbbbbbbbbbbbbbbbbbbb".
Definition page_with_bare_link : JSString :=
  lit "/deployment/" ++ id_b ++ lit "<i>x</i>/deployment/" ++ id_a ++
  lit " Success<b>z</b>/deployment/" ++ id_b ++ lit " Failed".

(** A page without any status word. *)
Definition page_without_status : JSString :=
  lit "<a href=/deployment/" ++ id_b ++ lit ">b</a><a href=/deployment/" ++ id_a ++
  lit ">a</a><a href=/deployment/" ++ id_b ++ lit ">b again</a>".

End Deployments.

(** ** The strategies of the extractor, each taken alone *)

Module Strategies.
Import CoolifyLogs.

Inductive Strategy : Type :=
| EmbeddedState
| StatusMarkup
| PreBlock
| CodeBlock
| KeywordLines.

Definition priority : list Strategy :=
  [EmbeddedState; StatusMarkup; PreBlock; CodeBlock; KeywordLines].

Definition rank (k : Strategy) : nat :=
  match k with
  | EmbeddedState => 0
  | StatusMarkup => 1
  | PreBlock => 2
  | CodeBlock => 3
  | KeywordLines => 4
  end.

Section Yield.
Context `{Runtime}.

(** What a strategy finds in a page when it is run alone. *)
Definition yield (k : Strategy) (page : JSString) : option JSValue :=
  match k with
  | EmbeddedState =>
    match str_match re_wire_snapshot page with
    | Some m =>
      match read_snapshot m (mkCascade None false) with
      | Ok st => if logFound st then logsContent st else None
      | Raise _ => None
      end
    | None => None
    end
  | StatusMarkup => (fun m => JStr (m_text m)) <$> str_match re_status_markup page
  | PreBlock => (fun m => JStr (capture 1 m)) <$> str_match re_pre page
  | CodeBlock => (fun m => JStr (capture 1 m)) <$> str_match re_code page
  | KeywordLines =>
    match match_all re_keyword_line page with
    | [] => None
    | textMatch => Some (JStr (join [LF] (m_text <$> textMatch)))
    end
  end.

(** The first strategy of a list that yields, with what it yields. *)
Fixpoint first_yield (ks : list Strategy) (page : JSString) : option (Strategy * JSValue) :=
  match ks with
  | [] => None
  | k :: rest =>
    match yield k page with
    | Some v => Some (k, v)
    | None => first_yield rest page
    end
  end.

Definition select (page : JSString) : option (Strategy * JSValue) :=
  first_yield priority page.

(** The two variables before the first step. *)
Definition init : Cascade := mkCascade None false.

Definition state_of (choice : option (Strategy * JSValue)) : Cascade :=
  match choice with
  | Some (_, v) => found v
  | None => init
  end.
End Yield.

End Strategies.

(** Pages for the extractor. *)
Module LogPages.
Import Scenario.

(** A page whose log is in a [pre] block, and that also holds a keyword
    line. *)
Definition pre_page : JSString :=
  lit "<div><pre>Cloning into 'repo'..." ++ [LF] ++ lit "Build OK</pre><p>build finished</p></div>".

Definition pre_log : JSString := lit "Cloning into 'repo'..." ++ [LF] ++ lit "Build OK".

(** A page on which no strategy finds anything. *)
Definition plain_page : JSString := lit "<html><body><p>Nothing to see.</p></body></html>".

(** A page whose snapshot attribute is not JSON, followed by a [pre]
    block. *)
Definition broken_snapshot_page : JSString :=
  quoted "<div wire:snapshot='{&quot;data&quot;:'></div><pre>Build OK</pre>".

(** A session that knows its application. *)
Definition resolved : World :=
  mkWorld (mkSession base [] None (Some (lit "p1aaa")) (Some (lit "e1ccc")) (Some (lit "a1eee"))) [].

Definition deployment : JSString := lit "dddddddddddddddddddddddd".

End LogPages.

(** ** Text that the normalization has nothing to do on *)

Module Clean.
Import CoolifyLogs.

(** The entities the normalization decodes. *)
Definition entities : list JSString :=
  [lit "&lt;"; lit "&gt;"; lit "&amp;"; lit "&quot;"; lit "&#039;"; lit "&nbsp;"].

(** The escaped line break, carriage return and tab: a backslash and a
    letter. *)
Definition escapes : list JSString :=
  [[BACKSLASH; chr "n"]; [BACKSLASH; chr "r"]; [BACKSLASH; chr "t"]].

Definition free_of (patterns : list JSString) (s : JSString) : bool :=
  forallb (fun p => negb (includes s p)) patterns.

Definition entity_free : JSString -> bool := free_of entities.
Definition escape_free : JSString -> bool := free_of escapes.

(** No tag: the pattern that strips the tags matches nowhere. *)
Definition tag_free (s : JSString) : Prop := str_match re_tag s = None.

(** The replacement of an escaped letter [x] by the character [c], as a
    recursion on the text. *)
Fixpoint unescape (x c : N) (s : JSString) : JSString :=
  match s with
  | [] => []
  | a :: t =>
    match t with
    | b :: t' =>
      if (a =? BACKSLASH)%N && (b =? x)%N then c :: unescape x c t'
      else a :: unescape x c t
    | [] => [a]
    end
  end.

(** The three escaped letters, replaced in the order of the source. *)
Definition unescape_all (s : JSString) : JSString :=
  unescape (chr "t") TAB (unescape (chr "r") CR (unescape (chr "n") LF s)).

(** A tag starts here: an opening bracket, a character that is not the
    closing bracket, and a closing bracket further on. *)
Definition tag_here (s : JSString) : bool :=
  match s with
  | a :: b :: rest =>
    (a =? chr "<")%N && negb (b =? chr ">")%N && bool_decide (chr ">" ∈ rest)
  | _ => false
  end.

Fixpoint has_tag (s : JSString) : bool :=
  tag_here s ||
  match s with
  | [] => false
  | _ :: t => has_tag t
  end.

(** A path of a Windows machine, with backslashes. *)
Definition windows_path : JSString := lit "C:\temp\new".

(** A log line with an escaped line break, and a plain one. *)
Definition escaped_line : JSString := lit "Build OK\nDone".
Definition plain_line : JSString := lit "Build OK & done".

End Clean.

(* ================================================================== *)
(** * The rest of the class and the command line *)
(* ================================================================== *)

(** [process.env]: a variable holds a string or is not set. *)
Module Process.

Record Env := mkEnv {
  COOLIFY_URL : option JSString;
  COOLIFY_BASE_URL : option JSString;
  COOLIFY_HOST : option JSString;
  COOLIFY_USERNAME : option JSString;
  COOLIFY_PASSWORD : option JSString;
  U : option JSString;
  P : option JSString
}.

(** [a || b] on values that are a string, [null] or [undefined]. *)
Definition or_else (a b : option JSString) : option JSString :=
  match a with
  | Some x => if str_truthy x then a else b
  | None => b
  end.

(** How the program ends: it runs to its end, or [process.exit(code)]
    stops it. *)
Inductive Ending : Type :=
| Completed
| Exited (code : Z).

End Process.

Module Viewer.
Import CoolifyLogs.

(** ** The constructor *)

Definition default_baseURL : JSString := lit "https://coolify.acc.l-inc.co.za".

(** [baseURL || process.env.COOLIFY_URL || process.env.COOLIFY_BASE_URL ||
     process.env.COOLIFY_HOST || 'https://coolify.acc.l-inc.co.za'] *)
Definition chosen_baseURL (env : Process.Env) (baseURL : option JSString) : JSString :=
  default default_baseURL
    (Process.or_else baseURL
      (Process.or_else (Process.COOLIFY_URL env)
        (Process.or_else (Process.COOLIFY_BASE_URL env)
          (Process.or_else (Process.COOLIFY_HOST env) (Some default_baseURL))))).

(** [if (!u.startsWith('http://') && !u.startsWith('https://')) u = 'https://' + u] *)
Definition with_protocol (u : JSString) : JSString :=
  if negb (startsWith u (lit "http://")) && negb (startsWith u (lit "https://"))
  then lit "https://" ++ u
  else u.

(** [u.replace(/\/$/, '')].  The pattern has no [m] flag, so [$] holds at
    the end of the text only: the one place where the pattern can match
    is the last character. *)
Fixpoint strip_trailing_slash (u : JSString) : JSString :=
  match u with
  | [] => []
  | x :: t =>
    match t with
    | [] => if (x =? chr "/")%N then [] else [x]
    | _ :: _ => x :: strip_trailing_slash t
    end
  end.

(** [new CoolifyLogs(baseURL)] *)
Definition new_CoolifyLogs (env : Process.Env) (baseURL : option JSString) : Session :=
  mkSession (strip_trailing_slash (with_protocol (chosen_baseURL env baseURL)))
            [] None None None None.

(** ** The [catch] block of [login] *)

(** What the handler of [login] throws for the exception it caught: the
    advice on the URL for a host that does not resolve, the exception
    itself for every other one. *)
Definition login_error (s : Session) (e : Exn) : Exn :=
  match e with
  | SystemError code =>
    if str_eqb code (lit "ENOTFOUND") then Error (unresolved_host_message s) else e
  | _ => e
  end.

(** ** [getDeploymentDetails] *)

(** [/Success|Failed|Running|Pending/] *)
Definition status_words : list JSString :=
  [lit "Success"; lit "Failed"; lit "Running"; lit "Pending"].
Definition re_status : RegExp := mkRegExp (Alts (Str <$> status_words)) false.

(** [/Started:\s*([^<]+)/] and [/Ended:\s*([^<]+)/] *)
Definition re_stamp (label : string) : RegExp :=
  mkRegExp (Seq [Str (lit label); Star (Class white_space);
                 Grp 1 (Plus (Class (not_char (chr "<"))))]) false.
Definition re_started : RegExp := re_stamp "Started:".
Definition re_ended : RegExp := re_stamp "Ended:".

(** The object [getDeploymentDetails] returns. *)
Record Details := mkDetails {
  id : JSString;
  url : JSString;
  statusMatch : option MatchResult;
  status : option JSString;
  startedAt : option JSString;
  endedAt : option JSString
}.

Section Methods.
Context `{Runtime} (server : Server).

Definition getDeploymentDetails (fuel : nat) (deploymentId : JSString) : M Details :=
  s ← get_session;
  let deploymentPageUrl := application_url s ++ lit "/deployment/" ++ deploymentId in
  res ← request server fuel deploymentPageUrl no_options;
  statusMatch ← lift (method_match (Http.body res) re_status);
  startedMatch ← lift (method_match (Http.body res) re_started);
  endedMatch ← lift (method_match (Http.body res) re_ended);
  mret (mkDetails deploymentId deploymentPageUrl statusMatch
          (m_text <$> statusMatch)
          (capture 1 <$> startedMatch)
          (capture 1 <$> endedMatch)).

(** ** [viewLatestDeploymentLogs] *)

(** The steps after the login. *)
Definition view_latest (fuel : nat) : M Process.Ending :=
  deploymentIds ← getDeploymentsList server fuel;
  match deploymentIds with
  | [] => mret Process.Completed
  | latestDeploymentId :: _ =>
    getDeploymentDetails fuel latestDeploymentId;;
    getDeploymentLogs server fuel latestDeploymentId;;
    mret Process.Completed
  end.

Definition viewLatestDeploymentLogs (env : Process.Env) (fuel : nat)
    (projId envId appId : option JSString) : M Process.Ending :=
  try_catch
    (let email := Process.or_else (Process.COOLIFY_USERNAME env) (Process.U env) in
     let password := Process.or_else (Process.COOLIFY_PASSWORD env) (Process.P env) in
     if negb (id_truthy email) || negb (id_truthy password)
     then mret (Process.Exited 1)
     else
       login server fuel (default [] email) (default [] password);;
       if negb (id_truthy projId) || negb (id_truthy envId) || negb (id_truthy appId)
       then
         discovered ← discoverResources server fuel;
         if negb discovered then mret Process.Completed else view_latest fuel
       else
         set_session (set_projectId (default [] projId));;
         set_session (set_environmentId (default [] envId));;
         set_session (set_applicationId (default [] appId));;
         view_latest fuel)
    (fun _ => mret (Process.Exited 1)).

End Methods.

(** ** The command line *)

(** [s.split(sep)] for a one-character separator. *)
Fixpoint split (sep : N) (s : JSString) : list JSString :=
  match s with
  | [] => [[]]
  | x :: t =>
    if (x =? sep)%N then [] :: split sep t
    else match split sep t with
         | p :: ps => (x :: p) :: ps
         | [] => [[x]]
         end
  end.

(** The arguments [coolify-logs [<url>] [command]]: the URL given to the
    constructor and the command. *)
Definition parse_arguments (env : Process.Env) (args : list JSString)
    : option JSString * JSString :=
  match args with
  | [] => (None, lit "logs")
  | first :: rest =>
    if str_eqb first (lit "list") then (Process.COOLIFY_URL env, lit "list")
    else if startsWith first (lit "http") then
      match rest with
      | second :: _ =>
        if str_eqb second (lit "list") then (Some first, lit "list")
        else if str_truthy second then (Some first, second)
        else (Some first, lit "logs")
      | [] => (Some first, lit "logs")
      end
    else (Process.COOLIFY_URL env, first)
  end.

(** The identifiers a command other than [list] hands to
    [viewLatestDeploymentLogs]: the three parts of [proj/env/app], or
    none. *)
Definition command_ids (command : JSString)
    : option JSString * option JSString * option JSString :=
  if str_truthy command && includes command (lit "/")
  then match split (chr "/") command with
       | [parsedProjId; parsedEnvId; parsedAppId] =>
         (Some parsedProjId, Some parsedEnvId, Some parsedAppId)
       | _ => (None, None, None)
       end
  else (None, None, None).

End Viewer.

(** ** [listAllResources] *)

Module Resources.
Import CoolifyLogs.

(** [/\/project\/([a-z0-9]+)\/environment\/([a-z0-9]+)/g] *)
Definition projectRegex : RegExp :=
  mkRegExp (Seq [Str (lit "/project/"); Grp 1 (Plus (Class lower_or_digit));
                 Str (lit "/environment/"); Grp 2 (Plus (Class lower_or_digit))]) false.

(** [/applications:\s*JSON\.parse\('([^']+)'\)/] *)
Definition re_applications : RegExp :=
  mkRegExp (Seq [Str (lit "applications:"); Star (Class white_space);
                 Str (lit "JSON.parse('"); Grp 1 (Plus (Class (not_char (chr "'"))));
                 Str (lit "')")]) false.

(** The lowercase of an ASCII letter. *)
Definition ascii_lower (x : N) : N :=
  if (65 <=? x)%N && (x <=? 90)%N then (x + 32)%N else x.

(** The classes [[a-z0-9.-]] and [[a-z]] under the [i] flag: a letter
    matches in either case. *)
Definition domain_char : N -> bool :=
  fun x => lower_or_digit (ascii_lower x) || (x =? chr ".")%N || (x =? chr "-")%N.
Definition letter : N -> bool :=
  fun x => (97 <=? ascii_lower x)%N && (ascii_lower x <=? 122)%N.

(** [/https?:\/\/([a-z0-9.-]+\.[a-z]{2,})/i] *)
Definition re_domain : RegExp :=
  mkRegExp (Seq [Str (lit "http"); Opt (Sym (chr "s")); Str (lit "://");
                 Grp 1 (Seq [Plus (Class domain_char); Sym (chr ".");
                             Rep true 2 None (Class letter)])]) true.

(** [s.toLowerCase()], on the ASCII text the pattern of the domains
    captures. *)
Definition toLowerCase (s : JSString) : JSString := ascii_lower <$> s.

(** The three replacements applied to the text of the applications:
    [\u0022] to a double quote, two backslashes and a slash to a slash,
    [\u005c] to a backslash. *)
Definition decode_applications (s : JSString) : JSString :=
  replace (re_literal (lit "\u005c")) [BACKSLASH]
    (replace (re_literal [BACKSLASH; BACKSLASH; chr "/"]) (lit "/")
      (replace (re_literal (lit "\u0022")) [DQUOTE] s)).

Section Listing.
Context `{Runtime} (server : Server).

(** The body of [apps.forEach]: the domains printed, up to the first
    application on which the callback throws. *)
Fixpoint app_domains (apps : list JSValue) : list JSString :=
  match apps with
  | [] => []
  | app :: rest =>
    match Get app (lit "fqdn") with
    | Raise _ => []
    | Ok fqdn =>
      if ToBoolean fqdn
      then match method_match (default JNull fqdn) re_domain with
           | Raise _ => []
           | Ok (Some domainMatch) => toLowerCase (capture 1 domainMatch) :: app_domains rest
           | Ok None => app_domains rest
           end
      else app_domains rest
    end
  end.

(** The inner [try] block: the text does not parse, or what it parses
    to has no [forEach], and nothing is printed. *)
Definition page_domains (jsonStr : JSString) : list JSString :=
  match JSON_parse (decode_applications jsonStr) with
  | Some (JArr apps) => app_domains apps
  | _ => []
  end.

(** The object [projects]: the projects in the order of their creation,
    each with its environments. *)
Definition Projects := list (JSString * list JSString).

Fixpoint environments_of (projectId : JSString) (projects : Projects)
    : option (list JSString) :=
  match projects with
  | [] => None
  | (k, envs) :: rest =>
    if str_eqb k projectId then Some envs else environments_of projectId rest
  end.

Fixpoint push_environment (projectId envId : JSString) (projects : Projects) : Projects :=
  match projects with
  | [] => []
  | (k, envs) :: rest =>
    if str_eqb k projectId then (k, envs ++ [envId]) :: rest
    else (k, envs) :: push_environment projectId envId rest
  end.

(** One turn of the [while] loop.  [projects.constructor] is the function
    [Object], found on the prototype: no project is created under that
    name, and reading the environments of the function throws. *)
Definition note_environment (projects : Projects) (m : MatchResult) : Result Projects :=
  let projectId := capture 1 m in
  let envId := capture 2 m in
  if str_eqb projectId (lit "constructor") then Raise TypeError
  else
    match environments_of projectId projects with
    | None => Ok (projects ++ [(projectId, [envId])])
    | Some envs =>
      if bool_decide (envId ∈ envs) then Ok projects
      else Ok (push_environment projectId envId projects)
    end.

Definition scan_projects (text : JSString) : Result Projects :=
  foldl (fun acc m => acc ≫= fun projects => note_environment projects m) (Ok [])
        (match_all projectRegex text).

(** The order of [Object.entries]: the keys that are array indices by
    their value, then the other keys as they were created. *)
Definition is_digit (x : N) : bool := (48 <=? x)%N && (x <=? 57)%N.

Definition index_value (k : JSString) : N :=
  foldl (fun n d => (10 * n + (d - 48))%N) 0%N k.

Definition is_array_index (k : JSString) : bool :=
  forallb is_digit k &&
  match k with
  | [] => false
  | [_] => true
  | d :: _ => negb (d =? 48)%N
  end &&
  (index_value k <? 4294967295)%N.

Fixpoint insert_entry (e : JSString * list JSString) (l : Projects) : Projects :=
  match l with
  | [] => [e]
  | x :: rest =>
    if (index_value e.1 <=? index_value x.1)%N then e :: l else x :: insert_entry e rest
  end.

Definition entries (projects : Projects) : Projects :=
  foldr insert_entry [] (List.filter (fun e => is_array_index e.1) projects)
  ++ List.filter (fun e => negb (is_array_index e.1)) projects.

(** The body of the loop over the environments, with its [try] block:
    the domains it prints. *)
Definition environment_page (fuel : nat) (projId envId : JSString) : M (list JSString) :=
  try_catch
    (s ← get_session;
     projectRes ← request server fuel
       (baseURL s ++ lit "/project/" ++ projId ++ lit "/environment/" ++ envId) no_options;
     jsonMatch ← lift (method_match (body projectRes) re_applications);
     mret (match jsonMatch with
           | Some m => page_domains (capture 1 m)
           | None => []
           end))
    (fun _ => mret []).

Fixpoint each_environment (fuel : nat) (projId : JSString) (envs : list JSString)
    : M (list JSString) :=
  match envs with
  | [] => mret []
  | envId :: rest =>
    here ← environment_page fuel projId envId;
    later ← each_environment fuel projId rest;
    mret (here ++ later)
  end.

Fixpoint each_project (fuel : nat) (projects : Projects) : M (list JSString) :=
  match projects with
  | [] => mret []
  | (projId, envs) :: rest =>
    here ← each_environment fuel projId envs;
    later ← each_project fuel rest;
    mret (here ++ later)
  end.

(** [listAllResources()]: what it returns, and the domains it prints,
    whose number is [resourceCount]. *)
Definition listAllResources (fuel : nat) : M (bool * list JSString) :=
  try_catch
    (dashboardRes ← fetch_dashboard server fuel;
     text ← lift (ToString (body dashboardRes));
     projects ← lift (scan_projects text);
     domains ← each_project fuel (entries projects);
     mret (true, domains))
    (fun _ => mret (false, [])).

End Listing.

End Resources.

(** ** The program *)

Module Cli.
Import CoolifyLogs.

Section Main.
Context `{Runtime} (server : Server).

(** The branch of the command [list]. *)
Definition list_resources (env : Process.Env) (fuel : nat) : M Process.Ending :=
  try_catch
    (let email := Process.or_else (Process.COOLIFY_USERNAME env) (Process.U env) in
     let password := Process.or_else (Process.COOLIFY_PASSWORD env) (Process.P env) in
     if negb (id_truthy email) || negb (id_truthy password)
     then mret (Process.Exited 1)
     else
       login server fuel (default [] email) (default [] password);;
       Resources.listAllResources server fuel;;
       mret Process.Completed)
    (fun _ => mret (Process.Exited 1)).

(** The program, run with the arguments [args]. *)
Definition main (env : Process.Env) (fuel : nat) (args : list JSString)
    : Outcome Process.Ending :=
  let '(baseURL, command) := Viewer.parse_arguments env args in
  let viewer := mkWorld (Viewer.new_CoolifyLogs env baseURL) [] in
  if str_eqb command (lit "list")
  then list_resources env fuel viewer
  else
    let '(parsedProjId, parsedEnvId, parsedAppId) := Viewer.command_ids command in
    Viewer.viewLatestDeploymentLogs server env fuel parsedProjId parsedEnvId parsedAppId
      viewer.

End Main.

End Cli.

(** ** Escaped markup, to state what the decoding undoes *)

Module Html.
Import CoolifyLogs.

(** The entity that stands for a character in an attribute value, for
    the four characters the snapshot decoding knows. *)
Definition entity_of (x : N) : JSString :=
  if (x =? chr "&")%N then lit "&amp;"
  else if (x =? chr "<")%N then lit "&lt;"
  else if (x =? chr ">")%N then lit "&gt;"
  else if (x =? DQUOTE)%N then lit "&quot;"
  else [x].

(** A text in which the characters of [escaped] stand as entities. *)
Definition escape_in (escaped : list N) (s : JSString) : JSString :=
  s ≫= fun x => if bool_decide (x ∈ escaped) then entity_of x else [x].

Definition escape : JSString -> JSString :=
  escape_in [DQUOTE; chr "<"; chr ">"; chr "&"].

End Html.

(** ** What is left behind by a call *)

Module Observe.

(** The session and the requests a call leaves behind, however it ends. *)
Definition world_of {A} (o : Outcome A) : World :=
  match o with
  | Returned _ w => w
  | Thrown _ w => w
  | Pending w => w
  end.

(** The part of the session that only the program writes. *)
Definition identity (s : Session) : JSString * option JSString
    * option JSString * option JSString * option JSString :=
  (baseURL s, csrfToken s, projectId s, environmentId s, applicationId s).

(** An identifier of a path: lowercase letters and digits, one at
    least. *)
Definition is_path_id (x : JSString) : Prop :=
  x <> [] /\ Forall (fun y => lower_or_digit y = true) x.

(** The closing tag of a block. *)
Definition closing (tag : string) : JSString := lit "</" ++ lit tag ++ lit ">".

(** The words of the keyword strategy. *)
Definition keywords : list JSString :=
  [lit "step"; lit "clone"; lit "install"; lit "build"; lit "error"; lit "failed";
   lit "success"; lit "docker"].

(** A line of the keyword strategy in a page: a keyword in any case,
    then what follows it on its line, 200 characters at most. *)
Definition keyword_line (page line : JSString) : Prop :=
  exists word found tail position rest,
    word ∈ keywords /\
    Forall2 (fun x y => sym_eqb true x y = true) word found /\
    line = found ++ tail /\
    (LF ∉ tail) /\ length tail <= 200 /\
    drop position page = line ++ rest /\
    (rest = [] \/ head rest = Some LF \/ length tail = 200).

End Observe.

(** ** A run of the viewer *)

Module Tour.
Import Scenario.

(** The page of a deployment, with its status and its time stamps. *)
Definition details_page : JSString :=
  lit "<h2>Deployment</h2><span>Running</span><p>Started: 2024-05-01 10:00</p><p>Ended: </p><pre>Build OK</pre>".

(** The page of the deployments of an application. *)
Definition deployments_page : JSString := Deployments.page_without_status.

(** The environment of a user who has set [U] and [P]. *)
Definition env : Process.Env :=
  Process.mkEnv None None None None None (Some Pages.email) (Some Pages.password).

(** A server for the whole run: the login page, the answer to the form,
    the deployments, and twice the page of the latest deployment. *)
Definition server : Server :=
  scripted [page 200 Pages.login_page; page 200 (lit "<html>Dashboard</html>");
            page 200 deployments_page; page 200 details_page; page 200 details_page].

(** A page with two keyword lines. *)
Definition build_page : JSString :=
  lit "Step 1/4 : FROM node" ++ [LF] ++ lit "ok" ++ [LF] ++ lit "Build finished".

End Tour.

(** ** The shape of a domain *)

Module Domain.

(** A domain as [listAllResources] prints it: lowercase letters, digits,
    dots and hyphens, then a dot and two letters or more. *)
Definition host_char (x : N) : bool :=
  lower_or_digit x || (x =? 46)%N || (x =? 45)%N.
Definition lower_letter (x : N) : bool := (97 <=? x)%N && (x <=? 122)%N.

Definition well_formed (d : JSString) : Prop :=
  exists host tld,
    d = host ++ [46%N] ++ tld /\
    host <> [] /\ Forall (fun x => host_char x = true) host /\
    2 <= length tld /\ Forall (fun x => lower_letter x = true) tld.

End Domain.

(** ** The pairs of a project and an environment *)

Module Listing.

(** The pages [listAllResources] asks for, in the order of its loops. *)
Definition pairs (projects : list (JSString * list JSString)) : list (JSString * JSString) :=
  projects ≫= fun project => (fun envId => (project.1, envId)) <$> project.2.

(** The project and the environment of a match of the dashboard. *)
Definition pair_of (m : MatchResult) : JSString * JSString :=
  (CoolifyLogs.capture 1 m, CoolifyLogs.capture 2 m).

(** What the scan of the dashboard keeps from one match to the next:
    the projects have distinct names, no environment is twice in a
    project, and the pairs are those of the matches seen. *)
Definition scanned (projects : Resources.Projects) (seen : list MatchResult) : Prop :=
  NoDup projects.*1 /\
  Forall (fun project => NoDup project.2) projects /\
  forall p e, (p, e) ∈ pairs projects <->
              exists m, m ∈ seen /\ pair_of m = (p, e).

Section Pages.
Context `{Runtime} (server : Server).

(** The pages of a list of pairs, asked for one after the other. *)
Fixpoint each_page (fuel : nat) (ps : list (JSString * JSString)) : M (list JSString) :=
  match ps with
  | [] => mret []
  | (projId, envId) :: rest =>
    here ← Resources.environment_page server fuel projId envId;
    later ← each_page fuel rest;
    mret (here ++ later)
  end.

End Pages.

End Listing.


(** ** The answers a client has received *)

Module Exchange.
Import CoolifyLogs.

(** The answers to the requests [new], which were sent after the
    requests [old] and are listed the latest first: the answers in the
    order in which they came. *)
Fixpoint answers (server : Server) (new old : list Request) : list Answer :=
  match new with
  | [] => []
  | r :: earlier => answers server earlier old ++ [server (r :: earlier ++ old)]
  end.

(** The responses among them. *)
Definition replies (l : list Answer) : list Incoming :=
  omap (fun a => match a with Reply res => Some res | Refuse _ => None end) l.

(** The [name=value] portions of the Set-Cookie headers of one response,
    joined with [; ]. *)
Definition pairs (cs : list JSString) : JSString :=
  join (lit "; ") (split_head (chr ";") <$> cs).

(** The pairs of the last response that bore Set-Cookie; [c0] when none
    did. *)
Definition last_pairs (c0 : JSString) (responses : list Incoming) : JSString :=
  match last (omap set_cookie responses) with
  | Some cs => pairs cs
  | None => c0
  end.

End Exchange.

(** ** What the annotated scan of the deployments reads *)

Module Annotated.
Import CoolifyLogs.

(** A run of tags, each from an opening bracket to the next closing one. *)
Definition tags (insides : list JSString) : JSString :=
  insides ≫= fun inside => lit "<" ++ inside ++ lit ">".

(** The matches one scan goes over: those of the pattern that asks for a
    status and, when there is none, those of the plain pattern. *)
Definition scanned (text : JSString) : list MatchResult :=
  match match_all deploymentPattern text with
  | [] => match_all deploymentRegex text
  | annotated => annotated
  end.

End Annotated.

(** ** The parsed snapshot, as the first strategy reads it *)

Module Snapshot.
Import CoolifyLogs.

(** [v.name] when that is truthy. *)
Definition truthy_field (v : JSValue) (name : string) : option JSValue :=
  match v with
  | JObj props =>
    match own_property (lit name) props with
    | Some x => if ToBoolean (Some x) then Some x else None
    | None => None
    end
  | _ => None
  end.

(** What the first strategy takes from the parsed snapshot: under a
    truthy [data], the first truthy one of [output], [logs] and
    [deployment_logs], and without any the first value of [data] that is
    a string of more than 500 characters. *)
Definition logs_of (wireData : JSValue) : option JSValue :=
  match truthy_field wireData "data" with
  | Some data =>
    match truthy_field data "output" with
    | Some output => Some output
    | None =>
      match truthy_field data "logs" with
      | Some logs => Some logs
      | None =>
        match truthy_field data "deployment_logs" with
        | Some deployment_logs => Some deployment_logs
        | None => find long_string (entry_values data)
        end
      end
    end
  | None => None
  end.

End Snapshot.

(** ** The extraction of [view-logs.js] *)

Module ViewLogs.
Import CoolifyLogs.

(** [JSON.stringify], which the platform provides, on the values
    [JSON.parse] builds. *)
Class Serializer := { JSON_stringify : JSValue -> JSString }.

(** [/<pre[^>]*>([\s\S]*?)<\/pre>/] and [/<code[^>]*>([\s\S]*?)<\/code>/] *)
Definition re_block (tag : string) : RegExp :=
  mkRegExp (Seq [Sym (chr "<"); Str (lit tag); Star (Class (not_char (chr ">"))); Sym (chr ">");
                 Grp 1 (Rep false 0 None (Class any_char));
                 Str (lit "</"); Str (lit tag); Sym (chr ">")]) false.
Definition re_pre : RegExp := re_block "pre".
Definition re_code : RegExp := re_block "code".

(** The dot of a pattern without the [s] flag: any character but a line
    terminator. *)
Definition dot : N -> bool :=
  fun x => negb (bool_decide (x ∈ [10; 13; 8232; 8233]%N)).

(** [/Cloning into.*?[\s\S]{100,2000}/] and the three others. *)
Definition re_keyword (words : string) : RegExp :=
  mkRegExp (Seq [Str (lit words); Rep false 0 None (Class dot);
                 Rep true 100 (Some 2000) (Class any_char)]) false.

Definition patterns : list RegExp :=
  [re_keyword "Cloning into"; re_keyword "npm install"; re_keyword "Building";
   re_keyword "Deployment"].

Section Extract.
Context `{Runtime} `{Serializer}.

(** [!logsContent], for a variable that holds [null] or a string. *)
Definition unset (logsContent : option JSString) : bool := negb (id_truthy logsContent).

(** The [try] block of the third strategy; its [catch] does nothing. *)
Definition read_snapshot (wireMatch : MatchResult) (logsContent : option JSString)
    : option JSString :=
  let decoded := decode_snapshot (capture 1 wireMatch) in
  match JSON_parse decoded with
  | Some wireData =>
    let dataStr := JSON_stringify wireData in
    if includes dataStr (lit "log") && (100 <? length dataStr)
    then Some (substring0 3000 dataStr)
    else logsContent
  | None => logsContent
  end.

(** The loop over the patterns, which the first match ends. *)
Fixpoint each_pattern (page : JSValue) (ps : list RegExp) (logsContent : option JSString)
    : Result (option JSString) :=
  match ps with
  | [] => Ok logsContent
  | pattern :: rest =>
    m ← method_match page pattern;
    match m with
    | Some found => Ok (Some (m_text found))
    | None => each_pattern page rest logsContent
    end
  end.

(** The four strategies, on the variable [logsContent]. *)
Definition cascade (page : JSValue) : Result (option JSString) :=
  let logsContent := None in
  preMatch ← method_match page re_pre;
  let logsContent := match preMatch with
                     | Some m => Some (capture 1 m)
                     | None => logsContent
                     end in
  logsContent ← (if unset logsContent
                 then codeMatch ← method_match page re_code;
                      Ok (match codeMatch with
                          | Some m => Some (capture 1 m)
                          | None => logsContent
                          end)
                 else Ok logsContent);
  logsContent ← (if unset logsContent
                 then wireMatch ← method_match page re_wire_snapshot;
                      Ok (match wireMatch with
                          | Some m => read_snapshot m logsContent
                          | None => logsContent
                          end)
                 else Ok logsContent);
  if unset logsContent then each_pattern page patterns logsContent else Ok logsContent.

(** What [getDeploymentLogs] of [view-logs.js] computes from the page it
    fetched. *)
Definition extract (page : JSValue) : Result (option JSString) :=
  logsContent ← cascade page;
  if id_truthy logsContent
  then Ok (Some (Legacy.normalize (default [] logsContent)))
  else Ok None.

(** ** The four strategies, each taken alone *)

Inductive Strategy : Type :=
| PreBlock
| CodeBlock
| EmbeddedState
| KeywordText.

Definition priority : list Strategy := [PreBlock; CodeBlock; EmbeddedState; KeywordText].

(** The first match of a list of patterns. *)
Fixpoint first_match (ps : list RegExp) (page : JSString) : option MatchResult :=
  match ps with
  | [] => None
  | pattern :: rest =>
    match str_match pattern page with
    | Some m => Some m
    | None => first_match rest page
    end
  end.

(** The text a strategy finds in a page when it is run alone. *)
Definition yield (k : Strategy) (page : JSString) : option JSString :=
  match k with
  | PreBlock => capture 1 <$> str_match re_pre page
  | CodeBlock => capture 1 <$> str_match re_code page
  | EmbeddedState =>
    m ← str_match re_wire_snapshot page;
    wireData ← JSON_parse (decode_snapshot (capture 1 m));
    let dataStr := JSON_stringify wireData in
    if includes dataStr (lit "log") && (100 <? length dataStr)
    then Some (take 3000 dataStr)
    else None
  | KeywordText => m_text <$> first_match patterns page
  end.

(** The first strategy of a list that yields a text that is not empty. *)
Fixpoint first_text (ks : list Strategy) (page : JSString) : option (Strategy * JSString) :=
  match ks with
  | [] => None
  | k :: rest =>
    match yield k page with
    | Some (x :: t) => Some (k, x :: t)
    | _ => first_text rest page
    end
  end.

Definition select (page : JSString) : option (Strategy * JSString) :=
  first_text priority page.

End Extract.

Definition rank (k : Strategy) : nat :=
  match k with
  | PreBlock => 0
  | CodeBlock => 1
  | EmbeddedState => 2
  | KeywordText => 3
  end.

(** The value of [logsContent] that passes the last test: a text that
    is not empty. *)
Definition kept (logsContent : option JSString) : option JSString :=
  match logsContent with
  | Some (x :: t) => Some (x :: t)
  | _ => None
  end.

End ViewLogs.

(** Pages on which the two extractions part. *)
Module SnapshotPages.
Import Scenario.

(** A snapshot whose [output] is an empty list, before a [pre] block. *)
Definition empty_output_text : JSString := quoted "{'data':{'output':[]}}".
Definition empty_output_value : JSValue :=
  JObj [(lit "data", JObj [(lit "output", JArr [])])].
Definition empty_output_page : JSString :=
  quoted "<div wire:snapshot='{&quot;data&quot;:{&quot;output&quot;:[]}}'></div><pre>Build OK</pre>".

(** A snapshot that holds a log, before a [pre] block. *)
Definition logs_text : JSString := quoted "{'data':{'logs':'Cloning done'}}".
Definition logs_value : JSValue :=
  JObj [(lit "data", JObj [(lit "logs", JStr (lit "Cloning done"))])].
Definition logs_page : JSString :=
  quoted "<div wire:snapshot='{&quot;data&quot;:{&quot;logs&quot;:&quot;Cloning done&quot;}}'></div><pre>Build OK</pre>".

Definition runtime : Runtime :=
  Scenario.runtime [(empty_output_text, empty_output_value); (logs_text, logs_value)].

(** A serializer that prints the two snapshots as they were written. *)
Definition serializer : ViewLogs.Serializer :=
  {| ViewLogs.JSON_stringify := fun v =>
       match v with
       | JObj [(_, JObj [(_, JArr [])])] => empty_output_text
       | _ => logs_text
       end |}.

End SnapshotPages.

(* ================================================================== *)
(** * Properties *)
(* ================================================================== *)

(** ** The matcher against the declarative matches *)

Section Adequacy.
Context {A : Type} (ic : bool).
Implicit Types (k : @Kont A) (s : JSString) (c : Caps).

Lemma Matches_length r s c s' c' :
  Matches ic r s c s' c' -> length s' <= length s.
Proof.
  induction 1; simpl in *; lia.
Qed.

Lemma Matches_app r s c s' c' :
  Matches ic r s c s' c' -> exists w, s = w ++ s'.
Proof.
  induction 1.
  - by exists [].
  - by exists [y].
  - by exists [y].
  - destruct IHMatches1 as [w1 ->]. destruct IHMatches2 as [w2 ->].
    exists (w1 ++ w2). by rewrite app_assoc.
  - done.
  - done.
  - by exists [].
  - destruct IHMatches1 as [w1 ->]. destruct IHMatches2 as [w2 ->].
    exists (w1 ++ w2). by rewrite app_assoc.
  - done.
Qed.

Lemma take_consumed (w s' : JSString) :
  take (length (w ++ s') - length s') (w ++ s') = w.
Proof.
  rewrite length_app. replace (length w + length s' - length s') with (length w) by lia.
  by rewrite take_app_length.
Qed.

Lemma rep_loop_sound r1 g
    (IH : forall s c k a, rmatch ic r1 s c k = Some a ->
          exists s' c', Matches ic r1 s c s' c' /\ k s' c' = Some a) :
  forall fuel lo hi s c k a,
    rep_loop (rmatch ic r1) g fuel lo hi s c k = Some a ->
    exists s' c', Matches ic (Rep g lo hi r1) s c s' c' /\ k s' c' = Some a.
Proof.
  induction fuel as [|fuel IHf]; intros lo hi s c k a Hr; [discriminate|].
  simpl in Hr.
  set (again := match hi with
    | Some 0 => None
    | _ => rmatch ic r1 s c (fun s1 c1 =>
             if length s1 <? length s
             then rep_loop (rmatch ic r1) g fuel (pred lo) (pred <$> hi) s1 c1 k
             else None)
    end) in Hr.
  set (stop := match lo with 0 => k s c | S _ => None end) in Hr.
  assert (Again : forall a0, again = Some a0 ->
    exists s' c', Matches ic (Rep g lo hi r1) s c s' c' /\ k s' c' = Some a0).
  { intros a0 Ha. subst again.
    assert (hi <> Some 0) as Hhi by (intros ->; discriminate).
    assert (rmatch ic r1 s c (fun s1 c1 =>
             if length s1 <? length s
             then rep_loop (rmatch ic r1) g fuel (pred lo) (pred <$> hi) s1 c1 k
             else None) = Some a0) as Ha'.
    { destruct hi as [[|n]|]; [congruence|exact Ha|exact Ha]. }
    apply IH in Ha' as (s1 & c1 & M1 & K1).
    destruct (length s1 <? length s) eqn:E; [|discriminate].
    apply Nat.ltb_lt in E.
    apply IHf in K1 as (s2 & c2 & M2 & K2).
    exists s2, c2. split; [|exact K2]. eapply M_RepMore; eauto. }
  assert (Stop : forall a0, stop = Some a0 ->
    exists s' c', Matches ic (Rep g lo hi r1) s c s' c' /\ k s' c' = Some a0).
  { intros a0 Ha. subst stop. destruct lo; [|discriminate].
    exists s, c. split; [constructor|exact Ha]. }
  clearbody again stop.
  destruct g.
  - destruct again as [a1|]; [inversion Hr; subst; by apply Again | by apply Stop].
  - destruct stop as [a1|]; [inversion Hr; subst; by apply Stop | by apply Again].
Qed.

Lemma rmatch_sound r : forall s c k a,
  rmatch ic r s c k = Some a ->
  exists s' c', Matches ic r s c s' c' /\ k s' c' = Some a.
Proof.
  induction r as [|x|p|r1 IH1 r2 IH2|r1 IH1 r2 IH2|g lo hi r1 IH1|i r1 IH1];
    intros s c k a Hr; [simpl in Hr..|idtac|simpl in Hr].
  - exists s, c. split; [constructor|exact Hr].
  - destruct s as [|y s]; [discriminate|].
    destruct (sym_eqb ic x y) eqn:E; [|discriminate].
    exists s, c. split; [constructor; exact E|exact Hr].
  - destruct s as [|y s]; [discriminate|].
    destruct (p y) eqn:E; [|discriminate].
    exists s, c. split; [constructor; exact E|exact Hr].
  - apply IH1 in Hr as (s1 & c1 & M1 & K1).
    apply IH2 in K1 as (s2 & c2 & M2 & K2).
    exists s2, c2. split; [econstructor; eauto|exact K2].
  - destruct (rmatch ic r1 s c k) eqn:E.
    + inversion Hr; subst. apply IH1 in E as (s1 & c1 & M1 & K1).
      exists s1, c1. split; [apply M_AltL; exact M1|exact K1].
    + apply IH2 in Hr as (s1 & c1 & M1 & K1).
      exists s1, c1. split; [apply M_AltR; exact M1|exact K1].
  - exact (rep_loop_sound r1 g IH1 _ _ _ _ _ _ _ Hr).
  - apply IH1 in Hr as (s1 & c1 & M1 & K1).
    exists s1, (<[i := take (length s - length s1) s]> c1).
    split; [constructor; exact M1|exact K1].
Qed.

Lemma rep_loop_complete r1 g
    (IH : forall s c k, rmatch ic r1 s c k = None ->
          forall s' c', Matches ic r1 s c s' c' -> k s' c' = None) :
  forall fuel lo hi s c k,
    length s < fuel ->
    rep_loop (rmatch ic r1) g fuel lo hi s c k = None ->
    forall s' c', Matches ic (Rep g lo hi r1) s c s' c' -> k s' c' = None.
Proof.
  induction fuel as [|fuel IHf]; intros lo hi s c k Hf Hr s' c' HM; [lia|].
  simpl in Hr.
  set (again := match hi with
    | Some 0 => None
    | _ => rmatch ic r1 s c (fun s1 c1 =>
             if length s1 <? length s
             then rep_loop (rmatch ic r1) g fuel (pred lo) (pred <$> hi) s1 c1 k
             else None)
    end) in Hr.
  set (stop := match lo with 0 => k s c | S _ => None end) in Hr.
  assert (again = None /\ stop = None) as [E1 E2].
  { destruct g; destruct again, stop; try discriminate; auto. }
  clear Hr. subst again stop. inversion HM; subst.
  - exact E2.
  - assert (rmatch ic r1 s c (fun s1 c1 =>
             if length s1 <? length s
             then rep_loop (rmatch ic r1) g fuel (pred lo) (pred <$> hi) s1 c1 k
             else None) = None) as E1'.
    { destruct hi as [[|n]|]; [congruence|exact E1|exact E1]. }
    match goal with
    | M1 : Matches ic r1 s c ?s1 ?c1, M2 : Matches ic (Rep _ _ _ _) ?s1 ?c1 s' c' |- _ =>
      specialize (IH _ _ _ E1' _ _ M1); simpl in IH;
      destruct (length s1 <? length s) eqn:E; [|apply Nat.ltb_ge in E; lia];
      eapply IHf; [|exact IH|exact M2]; lia
    end.
Qed.

Lemma rmatch_complete r : forall s c k,
  rmatch ic r s c k = None ->
  forall s' c', Matches ic r s c s' c' -> k s' c' = None.
Proof.
  induction r as [|x|p|r1 IH1 r2 IH2|r1 IH1 r2 IH2|g lo hi r1 IH1|i r1 IH1];
    intros s c k Hr s' c' HM; [simpl in Hr..|idtac|simpl in Hr].
  - inversion HM; subst. exact Hr.
  - inversion HM as [|? ? ? ? E| | | | | | |]; subst. rewrite E in Hr. exact Hr.
  - inversion HM as [| |? ? ? ? E| | | | | |]; subst. rewrite E in Hr. exact Hr.
  - inversion HM as [| | |? ? ? ? ? ? ? ? M1 M2| | | | |]; subst.
    specialize (IH1 _ _ _ Hr _ _ M1). simpl in IH1.
    eapply IH2; eauto.
  - destruct (rmatch ic r1 s c k) eqn:E; [discriminate|].
    inversion HM; subst; [eapply IH1|eapply IH2]; eauto.
  - eapply (rep_loop_complete r1 g IH1 (S (length s)) lo hi s c k); [lia|exact Hr|exact HM].
  - inversion HM as [| | | | | | | |? ? ? ? ? ? M1]; subst.
    exact (IH1 _ _ _ Hr _ _ M1).
Qed.
End Adequacy.

(** ** [request] *)

Section RequestFacts.
Import CoolifyLogs Scenario.
Context `{Runtime} (server : Server).

Lemma request_S fuel url options w :
  request server (S fuel) url options w =
  let w1 := mkWorld (session w) (outgoing (session w) url options :: sent w) in
  match server (sent w1) with
  | Refuse code => Thrown (SystemError code) w1
  | Reply res =>
    let w2 := mkWorld (capture_cookies res (session w)) (sent w1) in
    if is_redirect res
    then request server fuel (redirectUrl (session w2) res) options w2
    else Returned (mkResponse (statusCode res) (parse_body (payload res)) res) w2
  end.
Proof. reflexivity. Qed.

(** Whatever a call returns is the reading of the last answer. *)
Lemma request_returned fuel : forall url options w r w',
  request server fuel url options w = Returned r w' ->
  status r = statusCode (headers r) /\
  body r = parse_body (payload (headers r)) /\
  is_redirect (headers r) = false /\
  server (sent w') = Reply (headers r).
Proof.
  induction fuel as [|fuel IH]; intros url options w r w' Hr; [discriminate|].
  rewrite request_S in Hr. cbn zeta in Hr.
  destruct (server _) as [res|code] eqn:Hs; [|discriminate].
  destruct (is_redirect res) eqn:Hred.
  - eapply IH; eauto.
  - inversion Hr; subst; simpl. auto.
Qed.

(** More fuel does not change a call that came to an end. *)
Lemma request_more_fuel fuel : forall url options w extra,
  (forall w', request server fuel url options w <> Pending w') ->
  request server (fuel + extra) url options w = request server fuel url options w.
Proof.
  induction fuel as [|fuel IH]; intros url options w extra Hend.
  - exfalso. by apply (Hend w).
  - change (S fuel + extra) with (S (fuel + extra)).
    rewrite !request_S. cbn zeta.
    rewrite request_S in Hend. cbn zeta in Hend.
    destruct (server _) as [res|code]; [|done].
    destruct (is_redirect res); [|done].
    by apply IH.
Qed.

(** A call only adds to the requests sent. *)
Lemma request_sent fuel : forall url options w,
  exists later, sent_by (request server fuel url options w) = later ++ sent w.
Proof.
  induction fuel as [|fuel IH]; intros url options w.
  - by exists [].
  - rewrite request_S. cbn zeta.
    destruct (server _) as [res|code].
    + destruct (is_redirect res).
      * match goal with
        | |- context [request server fuel ?u options ?w2] =>
          destruct (IH u options w2) as [later Hl]
        end.
        exists (later ++ [outgoing (session w) url options]).
        rewrite Hl. simpl. by rewrite <- app_assoc.
      * exists [outgoing (session w) url options]. reflexivity.
    + exists [outgoing (session w) url options]. reflexivity.
Qed.
End RequestFacts.

Section RedirectFacts.
Import CoolifyLogs Scenario.
Context `{Runtime}.

Lemma always_redirect_pending fuel : forall url options w,
  exists w', request always_redirect fuel url options w = Pending w' /\
             length (sent w') = fuel + length (sent w).
Proof.
  induction fuel as [|fuel IH]; intros url options w.
  - by exists w.
  - rewrite request_S. cbn zeta. unfold always_redirect at 1. simpl.
    match goal with
    | |- context [request always_redirect fuel ?u options ?w2] =>
      destruct (IH u options w2) as (w' & Hw' & Hlen)
    end.
    exists w'. split; [exact Hw'|]. rewrite Hlen. simpl. lia.
Qed.

Lemma redirect_times_early n history :
  length history <= n -> redirect_times n history = redirect 302 (lit "/next").
Proof.
  intros Hn. unfold redirect_times.
  destruct (Nat.leb_spec (length history) n); [done|lia].
Qed.

Lemma redirect_times_late n history :
  n < length history -> redirect_times n history = page 200 (lit "done").
Proof.
  intros Hn. unfold redirect_times.
  destruct (Nat.leb_spec (length history) n); [lia|done].
Qed.

Lemma redirect_times_pending n fuel : forall url options w,
  fuel + length (sent w) <= n ->
  exists w', request (redirect_times n) fuel url options w = Pending w'.
Proof.
  induction fuel as [|fuel IH]; intros url options w Hn.
  - by exists w.
  - rewrite request_S. cbn zeta.
    rewrite redirect_times_early by (cbn [sent length]; lia).
    apply IH. cbn [sent length]. lia.
Qed.

Lemma redirect_times_returns n fuel : forall url options w,
  fuel + length (sent w) = n ->
  exists r w', request (redirect_times n) (S fuel) url options w = Returned r w' /\
               length (sent w') = S n /\ body r = parse_body (lit "done").
Proof.
  induction fuel as [|fuel IH]; intros url options w Hn.
  - rewrite request_S. cbn zeta.
    rewrite redirect_times_late by (cbn [sent length]; lia).
    eexists _, _. split; [reflexivity|]. cbn [sent length body payload]. split; [lia|done].
  - rewrite request_S. cbn zeta.
    rewrite redirect_times_early by (cbn [sent length]; lia).
    apply IH. cbn [sent length]. lia.
Qed.
End RedirectFacts.

(** C7. For every response payload, [request] resolves to a body that is
    the value [JSON.parse] gives when the whole payload is valid JSON, and
    the raw text of the payload otherwise: a reply that is not a redirect
    is returned at once with that body, and whatever a call returns,
    after any number of redirects, carries that reading of the payload of
    the last reply. *)
Theorem request_body_json_or_text `{Runtime} (server : Server) fuel url options w res :
  server (CoolifyLogs.outgoing (session w) url options :: sent w) = Reply res ->
  CoolifyLogs.is_redirect res = false ->
  (exists w',
     CoolifyLogs.request server (S fuel) url options w =
       Returned (mkResponse (statusCode res)
                   (match JSON_parse (payload res) with
                    | Some json => json
                    | None => JStr (payload res)
                    end) res) w') /\
  (forall n u o w0 r w',
     CoolifyLogs.request server n u o w0 = Returned r w' ->
     body r = match JSON_parse (payload (headers r)) with
              | Some json => json
              | None => JStr (payload (headers r))
              end).
Proof.
  intros Hs Hred. split.
  - rewrite request_S. cbn zeta. simpl. rewrite Hs, Hred. eauto.
  - intros n u o w0 r w' Hr. by apply request_returned in Hr as (_ & Hb & _).
Qed.

(** C7, at a server that answers a JSON document and then a page of
    markup. *)
Lemma request_body_json_or_text_witness :
  let rt := Scenario.runtime [(Scenario.quoted "{'ok':true}", JObj [(lit "ok", JBool true)])] in
  let server := Scenario.scripted [Scenario.page 200 (Scenario.quoted "{'ok':true}");
                                   Scenario.page 200 (lit "<html>ok</html>")] in
  (exists w', CoolifyLogs.request server 1 (lit "https://coolify.example.com/api") no_options
                (Scenario.fresh Scenario.base) =
              Returned (mkResponse 200 (JObj [(lit "ok", JBool true)])
                          (mkIncoming 200 None None (Scenario.quoted "{'ok':true}"))) w').
Proof.
  intros rt server.
  apply (@request_body_json_or_text rt server 0 (lit "https://coolify.example.com/api")
           no_options (Scenario.fresh Scenario.base)
           (mkIncoming 200 None None (Scenario.quoted "{'ok':true}"))); reflexivity.
Defined.

(** C8. Redirect following has no depth limit.  Against a server that
    answers every request with a redirect, a call never ends however many
    requests it may send, and it sends them all; and for every [n] there
    is a server whose chain is [n] redirects long and that [request]
    follows to its end, so that no bound on the followed redirects
    exists. *)
Theorem redirects_unbounded `{Runtime} :
  (forall fuel url options w,
     exists w', CoolifyLogs.request Scenario.always_redirect fuel url options w = Pending w' /\
                length (sent w') = fuel + length (sent w)) /\
  (forall n url options s,
     (forall fuel, fuel <= n ->
        exists w', CoolifyLogs.request (Scenario.redirect_times n) fuel url options
                     (mkWorld s []) = Pending w') /\
     (exists r w', CoolifyLogs.request (Scenario.redirect_times n) (S n) url options
                     (mkWorld s []) = Returned r w' /\
                   length (sent w') = S n)).
Proof.
  split.
  - intros. apply always_redirect_pending.
  - intros n url options s. split.
    + intros fuel Hf. apply redirect_times_pending. simpl. lia.
    + destruct (redirect_times_returns n n url options (mkWorld s [])) as (r & w' & Hr & Hl & _).
      { simpl. lia. }
      eauto.
Qed.

Section HeaderFacts.
Import CoolifyLogs.
Context `{Runtime}.

Lemma baseline_no_cookie : baseline_headers !! lit "Cookie" = None.
Proof. by vm_compute. Qed.

(** A header of the options that [request] does not set itself goes out
    as the caller gave it. *)
Lemma request_headers_option s options name v :
  opt_headers options !! name = Some v ->
  name ∉ [lit "Cookie"; lit "X-CSRF-Token"; lit "Content-Length"] ->
  request_headers s options !! name = Some v.
Proof.
  intros Hv Hname.
  assert (name <> lit "Cookie" /\ name <> lit "X-CSRF-Token" /\ name <> lit "Content-Length")
    as (N1 & N2 & N3).
  { repeat split; intros ->; apply Hname; set_solver. }
  unfold request_headers. cbn zeta.
  assert ((opt_headers options ∪ baseline_headers) !! name = Some v) as H0.
  { apply lookup_union_Some_l. exact Hv. }
  repeat match goal with
  | |- context [match ?x with _ => _ end] => destruct x
  | |- context [if ?x then _ else _] => destruct x
  end; rewrite ?lookup_insert_ne by done; exact H0.
Qed.

(** The [Cookie] header of an outgoing request. *)
Lemma request_headers_cookie s options :
  request_headers s options !! lit "Cookie" =
  if str_truthy (cookies s) then Some (HStr (cookies s))
  else opt_headers options !! lit "Cookie".
Proof.
  unfold request_headers. cbn zeta.
  assert (lit "Content-Length" <> lit "Cookie") as N1 by (by vm_compute).
  assert (lit "X-CSRF-Token" <> lit "Cookie") as N2 by (by vm_compute).
  assert ((opt_headers options ∪ baseline_headers) !! lit "Cookie"
          = opt_headers options !! lit "Cookie") as H0.
  { rewrite lookup_union. rewrite baseline_no_cookie.
    by destruct (opt_headers options !! lit "Cookie"). }
  repeat match goal with
  | |- context [match opt_body options with _ => _ end] => destruct (opt_body options)
  | |- context [match csrfToken s with _ => _ end] => destruct (csrfToken s)
  | |- context [if str_truthy ?x then _ else _] => destruct (str_truthy x) eqn:?
  end; rewrite ?lookup_insert_ne by done; rewrite ?lookup_insert_eq; try done.
Qed.
End HeaderFacts.

(** C3. A reply with a status from 300 up to 399 that carries a Location
    makes [request] send a new request with the options of the first:
    the same method, the same body and the caller's headers.  A Location
    that starts with [http] is taken as it is; any other is appended to
    [baseURL], so that [/foo] in a reply to [{base}/a/b] leads to
    [{base}/foo] and not to [{base}/a/foo]. *)
Theorem redirect_same_options `{Runtime} (server : Server) fuel url options w res l :
  server (CoolifyLogs.outgoing (session w) url options :: sent w) = Reply res ->
  (300 <= statusCode res < 399)%Z ->
  location res = Some l ->
  l <> [] ->
  let first := CoolifyLogs.outgoing (session w) url options in
  let s' := CoolifyLogs.capture_cookies res (session w) in
  let target := if startsWith l (lit "http") then l else baseURL (session w) ++ l in
  let next := CoolifyLogs.outgoing s' target options in
  CoolifyLogs.request server (S fuel) url options w =
    CoolifyLogs.request server fuel target options (mkWorld s' (first :: sent w)) /\
  (exists later,
     Scenario.sent_by (CoolifyLogs.request server (S (S fuel)) url options w) =
       later ++ next :: first :: sent w) /\
  req_url next = target /\
  req_method next = req_method first /\
  req_body next = req_body first /\
  (forall name v,
     opt_headers options !! name = Some v ->
     name ∉ [lit "Cookie"; lit "X-CSRF-Token"; lit "Content-Length"] ->
     req_headers next !! name = Some v /\ req_headers first !! name = Some v) /\
  (l = lit "/foo" ->
     target = baseURL (session w) ++ lit "/foo" /\
     target <> baseURL (session w) ++ lit "/a/foo").
Proof.
  intros Hs [Hlo Hhi] Hl Hne first s' target next.
  assert (CoolifyLogs.is_redirect res = true) as Hred.
  { unfold CoolifyLogs.is_redirect. rewrite Hl.
    destruct l; [done|]. simpl.
    rewrite andb_true_r. apply andb_true_intro. split.
    - apply Z.leb_le. lia.
    - apply Z.ltb_lt. lia. }
  assert (CoolifyLogs.redirectUrl s' res = target) as Htarget.
  { unfold CoolifyLogs.redirectUrl, target. rewrite Hl. simpl.
    destruct (startsWith l (lit "http")); [done|].
    unfold s', CoolifyLogs.capture_cookies. by destruct (set_cookie res). }
  assert (forall f, CoolifyLogs.request server (S f) url options w =
          CoolifyLogs.request server f target options (mkWorld s' (first :: sent w))) as Hstep.
  { intros f. rewrite request_S. cbn zeta. cbn [sent session].
    rewrite Hs, Hred. fold s'. by rewrite Htarget. }
  split; [apply Hstep|]. split.
  { rewrite Hstep.
    rewrite request_S. cbn zeta. cbn [sent session]. fold next.
    destruct (server (next :: first :: sent w)) as [res'|code].
    - destruct (CoolifyLogs.is_redirect res').
      + match goal with
        | |- context [CoolifyLogs.request server fuel ?u options ?w2] =>
          destruct (request_sent server fuel u options w2) as [later Hlater]
        end.
        exists later. exact Hlater.
      + by exists [].
    - by exists []. }
  split; [done|]. split; [done|]. split; [done|]. split.
  { intros name v Hv Hname. split; by apply request_headers_option. }
  intros ->. unfold target. simpl. split; [done|].
  intros E. apply app_inv_head in E. discriminate.
Qed.

(** C3, at a server that answers a form submission with a redirect to
    [/foo]. *)
Lemma redirect_same_options_witness :
  let rt := Scenario.runtime [] in
  let server := Scenario.scripted [Scenario.redirect 302 (lit "/foo");
                                   Scenario.page 200 (lit "<html>foo</html>")] in
  let options := mkOptions (Some (lit "POST")) {[ lit "Referer" := HStr (lit "x") ]}
                   (Some (lit "a=b")) in
  let w := Scenario.fresh Scenario.base in
  CoolifyLogs.request server 2 (Scenario.base ++ lit "/a/b") options w =
    CoolifyLogs.request server 1 (Scenario.base ++ lit "/foo") options
      (mkWorld (session w)
         [CoolifyLogs.outgoing (session w) (Scenario.base ++ lit "/a/b") options]).
Proof.
  intros rt server options w.
  refine (proj1 (@redirect_same_options rt server 1 (Scenario.base ++ lit "/a/b") options w
                   (mkIncoming 302 None (Some (lit "/foo")) []) (lit "/foo") _ _ _ _)).
  - reflexivity.
  - simpl. lia.
  - reflexivity.
  - discriminate.
Defined.

(** ** The cookies *)

Section CookieFacts.
Import CoolifyLogs.
Context `{Runtime}.

Lemma capture_cookies_fold (responses : list Incoming) (s0 : Session) :
  cookies (foldl (fun s res => capture_cookies res s) s0 responses) =
  match last (omap set_cookie responses) with
  | Some cs => join (lit "; ") (split_head (chr ";") <$> cs)
  | None => cookies s0
  end.
Proof.
  induction responses as [|res responses IH] using rev_ind; [done|].
  rewrite foldl_snoc, omap_app. simpl.
  unfold capture_cookies at 1.
  destruct (set_cookie res) as [cs|]; simpl.
  - by rewrite last_snoc.
  - by rewrite app_nil_r.
Qed.

Lemma capture_cookies_idem res s :
  capture_cookies res (capture_cookies res s) = capture_cookies res s.
Proof. unfold capture_cookies. by destruct (set_cookie res). Qed.
End CookieFacts.

(** C2 as it is stated fails: after a response that sets [a] and one that
    sets [b], the jar of the specification holds both pairs, while the
    third request carries the pair of the second response alone. *)
Lemma cookie_jar_not_merged :
  let rt := Scenario.runtime [] in
  let r1 := mkIncoming 200 (Some [lit "a=1; Path=/"]) None (lit "one") in
  let r2 := mkIncoming 200 (Some [lit "b=2; Path=/"]) None (lit "two") in
  let server := Scenario.scripted [Reply r1; Reply r2; Scenario.page 200 (lit "three")] in
  let url := Scenario.base ++ lit "/x" in
  let run := (CoolifyLogs.request server 1 url no_options ≫= fun _ =>
              CoolifyLogs.request server 1 url no_options ≫= fun _ =>
              CoolifyLogs.request server 1 url no_options) (Scenario.fresh Scenario.base) in
  (head (Scenario.sent_by run) ≫= fun r => req_headers r !! lit "Cookie")
    = Some (HStr (lit "b=2")) /\
  Claimed.cookie_header [r1; r2] = lit "a=1; b=2" /\
  (head (Scenario.sent_by run) ≫= fun r => req_headers r !! lit "Cookie")
    <> Some (HStr (Claimed.cookie_header [r1; r2])).
Proof.
  vm_compute. split; [reflexivity|]. split; [reflexivity|]. discriminate.
Qed.

(** ** [login] *)

Section LoginFacts.
Import CoolifyLogs.
Context `{Runtime} (server : Server).

(** [login] when both pages are text: the outcome is read off the body
    of the answer to the form, whatever its status. *)
Lemma login_text fuel email password w r1 w1 page r2 w2 text :
  request server fuel (baseURL (session w) ++ lit "/login") no_options w = Returned r1 w1 ->
  body r1 = JStr page ->
  let w1' := mkWorld (set_csrfToken (str_match re_csrf page ≫= group 1) (session w1))
               (sent w1) in
  request server fuel (baseURL (session w1') ++ lit "/login")
    (login_options (session w1') email password) w1' = Returned r2 w2 ->
  body r2 = JStr text ->
  login server fuel email password w =
    if includes text failure_phrase then Thrown invalid_credentials w2
    else Returned true w2.
Proof.
  intros H1 Hb1 w1' H2 Hb2.
  unfold login, try_catch, mbind, M_bind, bind, get_session, set_session, lift.
  cbn beta. rewrite H1. rewrite Hb1. cbn [method_match].
  match goal with
  | |- context [request server fuel ?u ?o ?w0] =>
    change (request server fuel u o w0)
      with (request server fuel (baseURL (session w1') ++ lit "/login")
              (login_options (session w1') email password) w1')
  end.
  rewrite H2. rewrite Hb2. cbn [method_includes].
  destruct (includes text failure_phrase); reflexivity.
Qed.

(** [login] when the answer to the form is JSON that is neither a
    string nor an array: the test for the phrase throws. *)
Lemma login_json fuel email password w r1 w1 page r2 w2 :
  request server fuel (baseURL (session w) ++ lit "/login") no_options w = Returned r1 w1 ->
  body r1 = JStr page ->
  let w1' := mkWorld (set_csrfToken (str_match re_csrf page ≫= group 1) (session w1))
               (sent w1) in
  request server fuel (baseURL (session w1') ++ lit "/login")
    (login_options (session w1') email password) w1' = Returned r2 w2 ->
  match body r2 with JStr _ | JArr _ => False | _ => True end ->
  login server fuel email password w = Thrown TypeError w2.
Proof.
  intros H1 Hb1 w1' H2 Hb2.
  unfold login, try_catch, mbind, M_bind, bind, get_session, set_session, lift.
  cbn beta. rewrite H1. rewrite Hb1. cbn [method_match].
  match goal with
  | |- context [request server fuel ?u ?o ?w0] =>
    change (request server fuel u o w0)
      with (request server fuel (baseURL (session w1') ++ lit "/login")
              (login_options (session w1') email password) w1')
  end.
  rewrite H2.
  destruct (body r2); try done.
Qed.
End LoginFacts.

(** C4, as the code has it.  When the login page and the answer to the
    form are both text, [login] throws [Invalid email or password] if and
    only if the body of the answer holds the phrase [These credentials do
    not match], and returns [true] in every other case, whatever the
    status of the answer: no mark of success is looked for. *)
Theorem login_succeeds_unless_phrase `{Runtime} (server : Server)
    fuel email password w r1 w1 page r2 w2 text :
  CoolifyLogs.request server fuel (baseURL (session w) ++ lit "/login") no_options w
    = Returned r1 w1 ->
  body r1 = JStr page ->
  let w1' := mkWorld (CoolifyLogs.set_csrfToken (str_match CoolifyLogs.re_csrf page ≫= group 1)
                        (session w1)) (sent w1) in
  CoolifyLogs.request server fuel (baseURL (session w1') ++ lit "/login")
    (CoolifyLogs.login_options (session w1') email password) w1' = Returned r2 w2 ->
  body r2 = JStr text ->
  (CoolifyLogs.login server fuel email password w = Thrown CoolifyLogs.invalid_credentials w2
     <-> includes text CoolifyLogs.failure_phrase = true) /\
  (includes text CoolifyLogs.failure_phrase = false ->
     CoolifyLogs.login server fuel email password w = Returned true w2).
Proof.
  intros H1 Hb1 w1' H2 Hb2.
  rewrite (login_text server fuel email password w r1 w1 page r2 w2 text H1 Hb1 H2 Hb2).
  destruct (includes text CoolifyLogs.failure_phrase); split; try done.
Qed.

(** C4, at a server that answers the form with an error page and the
    status 500: [login] reports success, and the form went out with the
    token of the login page. *)
Lemma login_succeeds_unless_phrase_witness :
  let rt := Scenario.runtime [] in
  let server := Scenario.scripted [Scenario.page 200 Pages.login_page;
                                   Scenario.page 500 Pages.server_error_page] in
  exists w2,
    CoolifyLogs.login server 1 Pages.email Pages.password (Scenario.fresh Scenario.base)
      = Returned true w2 /\
    (head (sent w2) ≫= fun r => req_headers r !! lit "X-CSRF-Token")
      = Some (HStr (lit "abc123")).
Proof.
  intros rt server.
  eassert (CoolifyLogs.login server 1 Pages.email Pages.password (Scenario.fresh Scenario.base)
           = Returned true _) as E.
  { refine (proj2 (@login_succeeds_unless_phrase rt server 1 Pages.email Pages.password
                     (Scenario.fresh Scenario.base) _ _ Pages.login_page _ _
                     Pages.server_error_page _ _ _ _) _).
    - reflexivity.
    - reflexivity.
    - reflexivity.
    - reflexivity.
    - vm_compute. reflexivity. }
  eexists. split; [exact E|]. vm_compute. reflexivity.
Defined.

(** C4 as it is stated fails: a server answers the form with a JSON error
    document and the status 500; the document does not hold the phrase,
    and yet [login] does not report success but throws a TypeError, the
    parsed body having no [includes] method. *)
Lemma login_json_error_throws :
  let rt := Scenario.runtime [(Pages.server_error_json, Pages.server_error_value)] in
  let server := Scenario.scripted [Scenario.page 200 Pages.login_page;
                                   Scenario.page 500 Pages.server_error_json] in
  includes Pages.server_error_json CoolifyLogs.failure_phrase = false /\
  (exists w2, CoolifyLogs.login server 1 Pages.email Pages.password (Scenario.fresh Scenario.base)
              = Thrown TypeError w2) /\
  (forall w2, CoolifyLogs.login server 1 Pages.email Pages.password (Scenario.fresh Scenario.base)
              <> Returned true w2).
Proof.
  intros rt server. split; [by vm_compute|].
  assert (exists w2, CoolifyLogs.login server 1 Pages.email Pages.password
                       (Scenario.fresh Scenario.base) = Thrown TypeError w2) as [w2 E].
  { eexists. reflexivity. }
  split; [by exists w2|].
  intros w2'. rewrite E. discriminate.
Qed.

(** ** What a pattern matches, term by term *)

Section MatchesFacts.
Context (ic : bool).
Implicit Types (s w : JSString) (c : Caps).

Lemma Matches_Eps_iff s c s' c' :
  Matches ic Eps s c s' c' <-> s' = s /\ c' = c.
Proof.
  split; [by inversion 1|]. intros [-> ->]. constructor.
Qed.

Lemma Matches_Sym_iff x s c s' c' :
  Matches ic (Sym x) s c s' c' <-> exists y, s = y :: s' /\ sym_eqb ic x y = true /\ c' = c.
Proof.
  split.
  - inversion 1; subst. eauto.
  - intros (y & -> & Hy & ->). by constructor.
Qed.

Lemma Matches_Class_iff p s c s' c' :
  Matches ic (Class p) s c s' c' <-> exists y, s = y :: s' /\ p y = true /\ c' = c.
Proof.
  split.
  - inversion 1; subst. eauto.
  - intros (y & -> & Hy & ->). by constructor.
Qed.

Lemma Matches_Cat_iff r1 r2 s c s' c' :
  Matches ic (Cat r1 r2) s c s' c' <->
  exists s1 c1, Matches ic r1 s c s1 c1 /\ Matches ic r2 s1 c1 s' c'.
Proof.
  split.
  - inversion 1; subst. eauto.
  - intros (s1 & c1 & M1 & M2). econstructor; eauto.
Qed.

Lemma Matches_Alt_iff r1 r2 s c s' c' :
  Matches ic (Alt r1 r2) s c s' c' <->
  Matches ic r1 s c s' c' \/ Matches ic r2 s c s' c'.
Proof.
  split.
  - inversion 1; subst; auto.
  - intros [M|M]; [by apply M_AltL|by apply M_AltR].
Qed.

Lemma Matches_Grp_iff i r s c s' c' :
  Matches ic (Grp i r) s c s' c' <->
  exists c1, Matches ic r s c s' c1 /\ c' = <[i := take (length s - length s') s]> c1.
Proof.
  split.
  - inversion 1; subst. eauto.
  - intros (c1 & M & ->). by constructor.
Qed.

(** A literal under the [i] flag: the text has the length of the literal
    and agrees with it up to case. *)
Lemma Matches_Str_ci (P : JSString) s c s' c' :
  Matches ic (Str P) s c s' c' <->
  exists w, s = w ++ s' /\ Forall2 (fun x y => sym_eqb ic x y = true) P w /\ c' = c.
Proof.
  revert s. induction P as [|x P IH]; intros s; simpl.
  - rewrite Matches_Eps_iff. split.
    + intros [-> ->]. exists []. auto.
    + intros (w & -> & HF & ->). by inversion HF.
  - rewrite Matches_Cat_iff. split.
    + intros (s1 & c1 & M1 & M2). inversion M1; subst.
      apply IH in M2 as (w & -> & HF & ->).
      exists (y :: w). auto.
    + intros (w & -> & HF & ->). inversion HF as [|? y ? w' Hy HF']; subst.
      exists (w' ++ s'), c. split; [by constructor|].
      apply IH. eauto.
Qed.

(** A quantified character class. *)
Lemma Matches_Rep_Class g p : forall lo hi s c s' c',
  Matches ic (Rep g lo hi (Class p)) s c s' c' <->
  exists w, s = w ++ s' /\ lo <= length w /\
            (forall h, hi = Some h -> length w <= h) /\
            Forall (fun x => p x = true) w /\ c' = c.
Proof.
  intros lo hi s c s' c'. split.
  - intros HM. remember (Rep g lo hi (Class p)) as r eqn:Hr.
    revert lo hi Hr.
    induction HM as [| | | | | |g0 hi0 r0 s c
                    |g0 lo0 hi0 r0 s c s1 c1 s2 c2 Hhi M1 _ Hlen M2 IH2|];
      intros lo hi Hr; try discriminate.
    + inversion Hr; subst. exists [].
      split; [done|]. split; [simpl; lia|]. split; [intros; simpl; lia|]. by split.
    + inversion Hr; subst.
      apply Matches_Class_iff in M1 as (y & -> & Hy & ->).
      destruct (IH2 _ _ eq_refl) as (w & -> & Hlo & Hh & HF & ->).
      exists (y :: w).
      split; [done|]. split; [simpl; lia|]. split; [|by split; [constructor|]].
      intros h ->. simpl in Hh. destruct h as [|h]; [done|].
      specialize (Hh h eq_refl). simpl. lia.
  - intros (w & -> & Hlo & Hh & HF & ->).
    revert lo hi Hlo Hh. induction w as [|y w IH]; intros lo hi Hlo Hh.
    + simpl in Hlo. assert (lo = 0) as -> by lia. constructor.
    + inversion HF as [|? ? Hy HF']; subst.
      eapply M_RepMore with (s1 := w ++ s') (c1 := c).
      * intros ->. specialize (Hh 0 eq_refl). simpl in Hh. lia.
      * by constructor.
      * simpl. lia.
      * apply IH; [done|simpl in Hlo; lia|].
        intros h Hh'. destruct hi as [[|h0]|]; simpl in Hh'; try discriminate.
        -- specialize (Hh 0 eq_refl). simpl in Hh. lia.
        -- inversion Hh'; subst. specialize (Hh (S h) eq_refl). simpl in Hh. lia.
Qed.

Lemma Matches_other_groups r s c s' c' i :
  Matches ic r s c s' c' -> i ∉ groups_of r -> c' !! i = c !! i.
Proof.
  induction 1 as [| | |r1 r2 s c s1 c1 s2 c2 _ IH1 _ IH2|r1 r2 s c s' c' _ IH
                 |r1 r2 s c s' c' _ IH| |g lo hi r s c s1 c1 s2 c2 _ _ IH1 _ _ IH2
                 |j r s c s1 c1 _ IH]; simpl; intros Hi; try done.
  - rewrite IH2, IH1; set_solver.
  - apply IH. set_solver.
  - apply IH. set_solver.
  - rewrite IH2, IH1; set_solver.
  - rewrite lookup_insert_ne by set_solver. apply IH. set_solver.
Qed.
End MatchesFacts.

(** A literal, case-sensitive. *)
Lemma Matches_Str_iff (P : JSString) s c s' c' :
  Matches false (Str P) s c s' c' <-> s = P ++ s' /\ c' = c.
Proof.
  revert s. induction P as [|x P IH]; intros s; simpl.
  - rewrite Matches_Eps_iff. split; intros [-> ->]; done.
  - rewrite Matches_Cat_iff. split.
    + intros (s1 & c1 & M1 & M2). inversion M1; subst.
      apply IH in M2 as [-> ->].
      match goal with E : sym_eqb false _ _ = true |- _ => apply N.eqb_eq in E as -> end.
      done.
    + intros [-> ->]. exists (P ++ s'), c. split.
      * constructor. apply N.eqb_refl.
      * apply IH. done.
Qed.


(** ** Searching and scanning *)

Section ScanFacts.
Context (re : RegExp).

Lemma match_here_Some s s' c :
  match_here re s = Some (s', c) -> Matches (ignoreCase re) (source re) s ∅ s' c.
Proof.
  unfold match_here. intros Hm.
  apply rmatch_sound in Hm as (s1 & c1 & HM & E). by inversion E; subst.
Qed.

Lemma match_here_None s :
  match_here re s = None -> forall s' c, ~ Matches (ignoreCase re) (source re) s ∅ s' c.
Proof.
  unfold match_here. intros Hm s' c HM.
  pose proof (rmatch_complete _ _ _ _ _ Hm _ _ HM) as E. discriminate.
Qed.

Lemma match_here_is_Some s s' c :
  Matches (ignoreCase re) (source re) s ∅ s' c -> is_Some (match_here re s).
Proof.
  intros HM. destruct (match_here re s) as [x|] eqn:E; [by eexists|].
  exfalso. eapply match_here_None; eauto.
Qed.

Lemma search_None s : forall i,
  search re s i = None <-> forall j, j <= length s -> match_here re (drop j s) = None.
Proof.
  induction s as [|x s IH]; intros i; simpl.
  - destruct (match_here re []) as [[s' c]|] eqn:E.
    + split; [done|]. intros Hj. specialize (Hj 0 (Nat.le_refl _)). simpl in Hj. congruence.
    + split; [|done]. intros _ j Hj. by rewrite drop_nil.
  - destruct (match_here re (x :: s)) as [[s' c]|] eqn:E.
    + split; [done|]. intros Hj. specialize (Hj 0 (Nat.le_0_l _)). simpl in Hj. congruence.
    + rewrite IH. split.
      * intros Hj [|j] Hl; [done|]. simpl. apply Hj. lia.
      * intros Hj j Hl. apply (Hj (S j)). lia.
Qed.

Lemma search_Some s : forall i m,
  search re s i = Some m ->
  exists j, j <= length s /\ m_index m = i + j /\ found_at re (drop j s) m /\
            forall j', j' < j -> match_here re (drop j' s) = None.
Proof.
  induction s as [|x s IH]; intros i m; simpl.
  - destruct (match_here re []) as [[s' c]|] eqn:E; [|done].
    intros Hm. inversion Hm; subst. exists 0. simpl.
    split; [done|]. split; [lia|]. split; [by exists s'|]. intros; lia.
  - destruct (match_here re (x :: s)) as [[s' c]|] eqn:E.
    + intros Hm. inversion Hm; subst. exists 0. simpl.
      split; [lia|]. split; [lia|]. split; [by exists s'|]. intros; lia.
    + intros Hm. apply IH in Hm as (j & Hj & Hi & Hf & Hbefore).
      exists (S j). simpl. split; [lia|]. split; [lia|]. split; [done|].
      intros [|j'] Hlt; [done|]. simpl. apply Hbefore. lia.
Qed.

Lemma scan_elem s : forall i k m,
  m ∈ scan re s i k ->
  exists j, k <= j <= length s /\ m_index m = i + j /\ found_at re (drop j s) m.
Proof.
  induction s as [|x s IH]; intros i k m; destruct k as [|k]; simpl.
  - destruct (match_here re []) as [[s' c]|] eqn:E; [|by intros ?%elem_of_nil].
    intros ->%list_elem_of_singleton. exists 0. simpl.
    split; [lia|]. split; [lia|]. by exists s'.
  - by intros ?%elem_of_nil.
  - destruct (match_here re (x :: s)) as [[s' c]|] eqn:E.
    + intros [->|Hm]%elem_of_cons.
      * exists 0. simpl. split; [lia|]. split; [lia|]. by exists s'.
      * apply IH in Hm as (j & Hj & Hi & Hf).
        exists (S j). simpl. split; [lia|]. split; [lia|done].
    + intros Hm. apply IH in Hm as (j & Hj & Hi & Hf).
      exists (S j). simpl. split; [lia|]. split; [lia|done].
  - intros Hm. apply IH in Hm as (j & Hj & Hi & Hf).
    exists (S j). simpl. split; [lia|]. split; [lia|done].
Qed.

Lemma scan_lower_bound s i k m : m ∈ scan re s i k -> i + k <= m_index m.
Proof. intros (j & Hj & -> & _)%scan_elem. lia. Qed.

Lemma scan_sorted s : forall i k,
  StronglySorted lt (m_index <$> scan re s i k).
Proof.
  induction s as [|x s IH]; intros i k; destruct k as [|k]; simpl.
  - destruct (match_here re []) as [[s' c]|]; simpl; repeat constructor.
  - constructor.
  - destruct (match_here re (x :: s)) as [[s' c]|] eqn:E; simpl; [|apply IH].
    constructor; [apply IH|].
    apply Forall_forall. intros p (m & -> & Hm)%list_elem_of_fmap.
    apply scan_lower_bound in Hm. lia.
  - apply IH.
Qed.

Lemma scan_head s : forall i, head (scan re s i 0) = search re s i.
Proof.
  induction s as [|x s IH]; intros i; simpl.
  - by destruct (match_here re []) as [[s' c]|].
  - destruct (match_here re (x :: s)) as [[s' c]|]; [done|]. apply IH.
Qed.
End ScanFacts.

Lemma match_all_head re s : head (match_all re s) = str_match re s.
Proof. apply scan_head. Qed.

Lemma match_all_nil re s : match_all re s = [] <-> str_match re s = None.
Proof.
  rewrite <- match_all_head. by destruct (match_all re s).
Qed.

(** ** The deduplicating loops *)

Section CollectFacts.
Import CoolifyLogs Picks.

Lemma foldl_push_new ms : forall seen,
  foldl push_new seen ms = seen ++ (capture 1 <$> first_matches seen ms).
Proof.
  induction ms as [|m ms IH]; intros seen; simpl.
  - by rewrite app_nil_r.
  - unfold push_new at 2. destruct (bool_decide (capture 1 m ∈ seen)).
    + apply IH.
    + rewrite IH. simpl. by rewrite <- app_assoc.
Qed.

Lemma collect_first_matches re text :
  collect re text = capture 1 <$> first_matches [] (match_all re text).
Proof. unfold collect. by rewrite foldl_push_new. Qed.

Lemma first_matches_elem ms : forall seen m,
  m ∈ first_matches seen ms -> m ∈ ms /\ capture 1 m ∉ seen.
Proof.
  induction ms as [|m0 ms IH]; intros seen m; simpl; [by intros ?%elem_of_nil|].
  destruct (bool_decide (capture 1 m0 ∈ seen)) eqn:E.
  - intros [Hm Hs]%IH. split; [by right|done].
  - apply bool_decide_eq_false in E.
    intros [->|[Hm Hs]%IH]%elem_of_cons.
    + split; [by left|done].
    + split; [by right|]. set_solver.
Qed.

Lemma first_matches_complete ms : forall seen m,
  m ∈ ms ->
  capture 1 m ∈ seen \/ exists pick, pick ∈ first_matches seen ms /\ capture 1 pick = capture 1 m.
Proof.
  induction ms as [|m0 ms IH]; intros seen m; simpl; [by intros ?%elem_of_nil|].
  destruct (bool_decide (capture 1 m0 ∈ seen)) eqn:E.
  - apply bool_decide_eq_true in E.
    intros [->|Hm]%elem_of_cons; [by left|]. by apply IH.
  - intros [->|Hm]%elem_of_cons.
    + right. exists m0. split; [by left|done].
    + destruct (IH (seen ++ [capture 1 m0]) m Hm) as [Hs|(pick & Hp & Hc)].
      * apply elem_of_app in Hs as [Hs|Hs%list_elem_of_singleton]; [by left|].
        right. exists m0. split; [by left|done].
      * right. exists pick. split; [by right|done].
Qed.

Lemma first_matches_NoDup ms : forall seen,
  NoDup seen -> NoDup (seen ++ (capture 1 <$> first_matches seen ms)).
Proof.
  induction ms as [|m0 ms IH]; intros seen Hseen; simpl.
  - by rewrite app_nil_r.
  - destruct (bool_decide (capture 1 m0 ∈ seen)) eqn:E; [by apply IH|].
    apply bool_decide_eq_false in E. rewrite fmap_cons, cons_middle, app_assoc.
    apply IH. apply NoDup_app. split; [done|]. split; [|apply NoDup_singleton].
    intros x Hx ->%list_elem_of_singleton. done.
Qed.

Lemma first_matches_sorted ms : forall seen,
  StronglySorted lt (m_index <$> ms) ->
  StronglySorted lt (m_index <$> first_matches seen ms).
Proof.
  induction ms as [|m0 ms IH]; intros seen Hs; simpl; [constructor|].
  simpl in Hs. apply StronglySorted_inv in Hs as [Hs Hall].
  destruct (bool_decide (capture 1 m0 ∈ seen)); [by apply IH|].
  simpl. constructor; [by apply IH|].
  apply Forall_forall. intros p (m & -> & [Hm _]%first_matches_elem)%list_elem_of_fmap.
  rewrite Forall_forall in Hall. apply Hall. apply list_elem_of_fmap. eauto.
Qed.

(** A kept match is the first of the scan with its identifier. *)
Lemma first_matches_first ms : forall seen pick m,
  StronglySorted lt (m_index <$> ms) ->
  pick ∈ first_matches seen ms ->
  m ∈ ms -> capture 1 m = capture 1 pick ->
  m_index pick <= m_index m.
Proof.
  induction ms as [|m0 ms IH]; intros seen pick m Hs; simpl; [by intros ?%elem_of_nil|].
  simpl in Hs. apply StronglySorted_inv in Hs as [Hs Hall].
  rewrite Forall_forall in Hall.
  destruct (bool_decide (capture 1 m0 ∈ seen)) eqn:E.
  - apply bool_decide_eq_true in E. intros Hp Hm Hc.
    pose proof (first_matches_elem _ _ _ Hp) as [_ Hns].
    apply elem_of_cons in Hm as [->|Hm]; [congruence|]. by eapply IH.
  - intros [->|Hp]%elem_of_cons Hm Hc.
    + apply elem_of_cons in Hm as [->|Hm]; [done|].
      assert (m_index m0 < m_index m); [|lia].
      apply Hall. apply list_elem_of_fmap. eauto.
    + pose proof (first_matches_elem _ _ _ Hp) as [_ Hns].
      apply elem_of_cons in Hm as [->|Hm]; [|by eapply IH].
      exfalso. apply Hns. rewrite Hc. set_solver.
Qed.

Lemma collect_NoDup re text : NoDup (collect re text).
Proof.
  rewrite collect_first_matches.
  apply (first_matches_NoDup (match_all re text) []). constructor.
Qed.

Lemma collect_head re text :
  head (collect re text) = capture 1 <$> str_match re text.
Proof.
  rewrite collect_first_matches, <- match_all_head.
  by destruct (match_all re text).
Qed.

Lemma collect_nil re text : collect re text = [] <-> str_match re text = None.
Proof.
  rewrite collect_first_matches, <- match_all_nil.
  by destruct (match_all re text).
Qed.

Lemma collect_elem re text x :
  x ∈ collect re text <-> exists m, m ∈ match_all re text /\ capture 1 m = x.
Proof.
  rewrite collect_first_matches. split.
  - intros (m & -> & [Hm _]%first_matches_elem)%list_elem_of_fmap. eauto.
  - intros (m & Hm & <-).
    destruct (first_matches_complete _ [] m Hm) as [?%elem_of_nil|(pick & Hp & <-)]; [done|].
    apply list_elem_of_fmap. eauto.
Qed.

(** The list of records of [getDeploymentsList] holds the identifiers
    the plain loop would hold. *)
Lemma foldl_push_deployment info ms : forall deployments,
  (foldl (push_deployment info) deployments ms).*1 = foldl push_new (deployments.*1) ms.
Proof.
  induction ms as [|m ms IH]; intros deployments; simpl; [done|].
  rewrite IH. f_equal. unfold push_deployment, push_new.
  assert (existsb (fun d => bool_decide (d.1 = capture 1 m)) deployments
          = bool_decide (capture 1 m ∈ deployments.*1)) as ->.
  { induction deployments as [|d ds IHd]; simpl; [done|].
    rewrite IHd. destruct (decide (d.1 = capture 1 m)) as [E|E].
    - rewrite bool_decide_eq_true_2 by done. simpl. symmetry.
      apply bool_decide_eq_true_2. rewrite <- E. by left.
    - rewrite (bool_decide_eq_false_2 _ E). simpl.
      apply bool_decide_ext. set_solver. }
  destruct (bool_decide (capture 1 m ∈ deployments.*1)); [done|].
  by rewrite fmap_app.
Qed.

Lemma deployment_ids_collect text :
  deployment_ids text =
  match collect deploymentPattern text with
  | [] => collect deploymentRegex text
  | ids => ids
  end.
Proof.
  unfold deployment_ids. cbn zeta.
  pose proof (foldl_push_deployment (capture 2) (match_all deploymentPattern text) []) as E.
  simpl in E. fold (collect deploymentPattern text) in E.
  destruct (foldl (push_deployment (capture 2)) [] (match_all deploymentPattern text))
    as [|d ds] eqn:Ed; simpl in *.
  - rewrite <- E. rewrite foldl_push_deployment. done.
  - by rewrite <- E.
Qed.
End CollectFacts.

(** ** [discoverResources] *)

Section DiscoverFacts.
Import CoolifyLogs.
Context `{Runtime} (server : Server).

Lemma collect_first re text :
  collect re text = match str_match re text with
                    | None => []
                    | Some m => capture 1 m :: tail (collect re text)
                    end.
Proof.
  pose proof (collect_head re text) as Hh.
  destruct (str_match re text) as [m|]; destruct (collect re text); simpl in *; congruence.
Qed.

Lemma discoverResources_never_throws fuel w e w' :
  discoverResources server fuel w <> Thrown e w'.
Proof.
  unfold discoverResources, try_catch.
  match goal with
  | |- match ?x with _ => _ end <> _ => destruct x as [b w0|e0 w0|w0]
  end; discriminate.
Qed.

Lemma discover_no_project fuel w r1 w1 dashboard :
  fetch_dashboard server fuel w = Returned r1 w1 ->
  ToString (body r1) = Ok dashboard ->
  str_match projectRegex dashboard = None ->
  discoverResources server fuel w = Returned false w1.
Proof.
  intros H1 Ht Hp.
  unfold discoverResources, try_catch, mbind, M_bind, bind, get_session, lift.
  cbn beta. rewrite H1, Ht.
  rewrite (collect_first projectRegex), Hp. reflexivity.
Qed.

Lemma discover_project fuel w r1 w1 dashboard mp r2 w2 page :
  fetch_dashboard server fuel w = Returned r1 w1 ->
  ToString (body r1) = Ok dashboard ->
  str_match projectRegex dashboard = Some mp ->
  request server fuel (baseURL (session w) ++ lit "/project/" ++ capture 1 mp) no_options
    (mkWorld (set_projectId (capture 1 mp) (session w1)) (sent w1)) = Returned r2 w2 ->
  ToString (body r2) = Ok page ->
  discoverResources server fuel w =
    match str_match envRegex page, str_match appRegex page with
    | Some me, Some ma =>
      Returned true
        (mkWorld (set_applicationId (capture 1 ma)
                    (set_environmentId (capture 1 me) (session w2))) (sent w2))
    | Some me, None =>
      Returned false (mkWorld (set_environmentId (capture 1 me) (session w2)) (sent w2))
    | None, _ => Returned false w2
    end.
Proof.
  intros H1 Ht Hp H2 Ht2.
  unfold discoverResources, try_catch, mbind, M_bind, bind, get_session, set_session, lift.
  cbn beta. rewrite H1, Ht.
  rewrite (collect_first projectRegex), Hp. cbn beta iota.
  rewrite H2, Ht2.
  rewrite (collect_first envRegex).
  destruct (str_match envRegex page) as [me|]; [|reflexivity]. cbn beta iota.
  rewrite (collect_first appRegex).
  destruct (str_match appRegex page) as [ma|]; reflexivity.
Qed.
End DiscoverFacts.

(** C5. [discoverResources] takes, at each level, the identifier of the
    first match of the level's pattern in page order: the project from the
    dashboard, then the environment and the application both from the
    page of that project.  It answers [false], and asks for no further
    page, as soon as a level has no match; it never throws, and it
    answers [true] only with all three identifiers set.  (The identifiers
    found before a level fails stay in the session; the answer is
    [false] all the same.) *)
Theorem discover_first_matches `{Runtime} (server : Server) fuel w r1 w1 dashboard :
  CoolifyLogs.fetch_dashboard server fuel w = Returned r1 w1 ->
  ToString (body r1) = Ok dashboard ->
  (str_match CoolifyLogs.projectRegex dashboard = None ->
     CoolifyLogs.discoverResources server fuel w = Returned false w1) /\
  (forall mp r2 w2 page,
     str_match CoolifyLogs.projectRegex dashboard = Some mp ->
     CoolifyLogs.request server fuel
       (baseURL (session w) ++ lit "/project/" ++ CoolifyLogs.capture 1 mp) no_options
       (mkWorld (CoolifyLogs.set_projectId (CoolifyLogs.capture 1 mp) (session w1)) (sent w1))
       = Returned r2 w2 ->
     ToString (body r2) = Ok page ->
     CoolifyLogs.discoverResources server fuel w =
       match str_match CoolifyLogs.envRegex page, str_match CoolifyLogs.appRegex page with
       | Some me, Some ma =>
         Returned true
           (mkWorld (CoolifyLogs.set_applicationId (CoolifyLogs.capture 1 ma)
                       (CoolifyLogs.set_environmentId (CoolifyLogs.capture 1 me) (session w2)))
                    (sent w2))
       | Some me, None =>
         Returned false
           (mkWorld (CoolifyLogs.set_environmentId (CoolifyLogs.capture 1 me) (session w2))
                    (sent w2))
       | None, _ => Returned false w2
       end) /\
  (forall e w', CoolifyLogs.discoverResources server fuel w <> Thrown e w').
Proof.
  intros H1 Ht. split; [|split].
  - intros Hp. by eapply discover_no_project.
  - intros mp r2 w2 page Hp H2 Ht2. by eapply discover_project.
  - intros e w'. apply discoverResources_never_throws.
Qed.

(** ** The shape of the matches of the path patterns *)

Ltac inv_matches :=
  repeat match goal with
  | H : Matches _ (CoolifyLogs.Seq _) _ _ _ _ |- _ =>
    unfold CoolifyLogs.Seq in H; cbn [foldr] in H
  | H : Matches _ (Cat _ _) _ _ _ _ |- _ =>
    apply Matches_Cat_iff in H as (? & ? & ? & H)
  | H : Matches _ Eps _ _ _ _ |- _ => apply Matches_Eps_iff in H as [? ?]; subst
  | H : Matches _ (Sym _) _ _ _ _ |- _ =>
    apply Matches_Sym_iff in H as (? & ? & ? & ?); subst
  | H : Matches _ (Class _) _ _ _ _ |- _ =>
    apply Matches_Class_iff in H as (? & ? & ? & ?); subst
  | H : Matches false (Str _) _ _ _ _ |- _ => apply Matches_Str_iff in H as [? ?]; subst
  | H : Matches _ (Grp _ _) _ _ _ _ |- _ => apply Matches_Grp_iff in H as (? & H & ?); subst
  | H : Matches _ (Plus _) _ _ _ _ |- _ => unfold Plus in H
  | H : Matches _ (Star _) _ _ _ _ |- _ => unfold Star in H
  | H : Matches _ (Opt _) _ _ _ _ |- _ => unfold Opt in H
  | H : Matches _ (Rep _ _ _ (Class _)) _ _ _ _ |- _ =>
    apply Matches_Rep_Class in H as (? & ? & ? & ? & ? & ?); subst
  | H : Matches _ (Alt _ _) _ _ _ _ |- _ => apply Matches_Alt_iff in H as [H|H]
  | H : sym_eqb false _ _ = true |- _ => apply N.eqb_eq in H; subst
  end.

Section PathFacts.
Import CoolifyLogs.

Lemma str_match_leftmost re text m :
  str_match re text = Some m ->
  found_at re (drop (m_index m) text) m /\
  forall j, j < m_index m -> match_here re (drop j text) = None.
Proof.
  intros (j & Hj & Hi & Hf & Hb)%search_Some. simpl in Hi. subst j. auto.
Qed.

(** A match of [/\/segment\/([a-z0-9]+)/]: the segment between slashes,
    then the identifier, a run of lowercase letters and digits that is
    not empty. *)
Lemma path_match_shape segment t m :
  found_at (re_path segment) t m ->
  exists id rest,
    t = chr "/" :: lit segment ++ chr "/" :: id ++ rest /\
    id <> [] /\ Forall (fun x => lower_or_digit x = true) id /\
    capture 1 m = id /\
    m_text m = chr "/" :: lit segment ++ chr "/" :: id.
Proof.
  intros (t' & Hm & Ht). apply match_here_Some in Hm.
  unfold re_path in Hm. cbn [source ignoreCase] in Hm.
  remember (m_groups m) as caps eqn:Hcaps.
  inv_matches.
  match goal with
  | Hw : Forall _ ?w, Hg : m_groups m = <[1 := take _ (?w ++ ?r)]> _ |- _ =>
    exists w, r; rename Hg into Hgroups; rename Hw into Hid
  end.
  split; [done|]. split.
  { intros ->. simpl in *. lia. }
  split; [done|]. split.
  - unfold capture, group. rewrite Hgroups, lookup_insert_eq. simpl. apply take_consumed.
  - rewrite Ht. clear Ht.
    match goal with
    | |- take _ (chr "/" :: lit segment ++ chr "/" :: ?w ++ ?r) = _ =>
      replace (chr "/" :: lit segment ++ chr "/" :: w ++ r)
        with ((chr "/" :: lit segment ++ chr "/" :: w) ++ r)
        by (simpl; rewrite <- app_assoc; simpl; done)
    end.
    apply take_consumed.
Qed.
End PathFacts.

(** C5, at a server with two projects, the first with two environments
    and two applications: the first of each is taken. *)
Lemma discover_first_matches_witness :
  let rt := Scenario.runtime [] in
  exists w',
    CoolifyLogs.discoverResources Dashboard.server 1 (Scenario.fresh Scenario.base)
      = Returned true w' /\
    projectId (session w') = Some (lit "p1aaa") /\
    environmentId (session w') = Some (lit "e1ccc") /\
    applicationId (session w') = Some (lit "a1eee") /\
    length (sent w') = 2.
Proof.
  intros rt.
  eassert (CoolifyLogs.discoverResources Dashboard.server 1 (Scenario.fresh Scenario.base)
           = _) as E.
  { refine (proj1 (proj2 (@discover_first_matches rt Dashboard.server 1
                            (Scenario.fresh Scenario.base) _ _ Dashboard.dashboard_page _ _))
              _ _ _ Dashboard.project_page _ _ _).
    - reflexivity.
    - reflexivity.
    - reflexivity.
    - reflexivity.
    - reflexivity. }
  eexists. split; [rewrite E; reflexivity|]. repeat split; reflexivity.
Defined.

(** At a server whose project page shows no environment the answer is
    [false], after two requests; the project found stays in the
    session. *)
Lemma discover_without_environment :
  let rt := Scenario.runtime [] in
  exists w',
    CoolifyLogs.discoverResources Dashboard.server_without_environment 1
      (Scenario.fresh Scenario.base) = Returned false w' /\
    projectId (session w') = Some (lit "p1aaa") /\
    environmentId (session w') = None /\
    length (sent w') = 2.
Proof.
  intros rt. eexists. split; [reflexivity|]. repeat split; reflexivity.
Qed.

(** ** The deployment patterns *)

Section DeploymentFacts.
Import CoolifyLogs Picks Deployments.

Lemma startsWith_app (s p : JSString) : startsWith s p = true <-> exists rest, s = p ++ rest.
Proof.
  revert s. induction p as [|x p IH]; intros s; simpl.
  - split; [by exists s|by destruct s].
  - destruct s as [|y s]; [split; [done|by intros [? ?]]|].
    simpl. rewrite andb_true_iff, IH, N.eqb_eq. split.
    + intros [-> [rest ->]]. by exists rest.
    + intros [rest E]. inversion E; subst. eauto.
Qed.

Lemma is_deployment_id_spec id :
  is_deployment_id id = true <->
  length id = 24 /\ Forall (fun x => lower_or_digit x = true) id.
Proof.
  unfold is_deployment_id. rewrite andb_true_iff, Nat.eqb_eq, forallb_forall, Forall_forall.
  split; intros [? Hall]; (split; [done|]); intros x Hx; apply Hall;
    by apply list_elem_of_In.
Qed.

(** A match of the plain pattern at the head of [t]. *)
Lemma deploymentRegex_match t t' c :
  match_here deploymentRegex t = Some (t', c) <->
  exists id, t = lit "/deployment/" ++ id ++ t' /\ is_deployment_id id = true /\
             c = {[ 1 := id ]}.
Proof.
  assert (Fwd : forall t1 c1, match_here deploymentRegex t = Some (t1, c1) ->
            exists id, t = lit "/deployment/" ++ id ++ t1 /\ is_deployment_id id = true /\
                       c1 = {[ 1 := id ]}).
  { intros t1 c1 Hm. apply match_here_Some in Hm.
    unfold deploymentRegex in Hm. cbn [source ignoreCase] in Hm.
    inv_matches.
    match goal with
    | Hw : Forall _ ?w |- _ => exists w
    end.
    split; [done|]. split.
    - apply is_deployment_id_spec. split; [|done].
      match goal with
      | Hhi : forall h, Some 24 = Some h -> _ |- _ => specialize (Hhi 24 eq_refl)
      end. lia.
    - by rewrite take_consumed. }
  split; [apply Fwd|].
  intros (id & -> & [Hlen Hall]%is_deployment_id_spec & ->).
  assert (Matches false (source deploymentRegex) (lit "/deployment/" ++ id ++ t') ∅ t'
            (<[1 := take (length (id ++ t') - length t') (id ++ t')]> ∅)) as HM.
  { unfold deploymentRegex. cbn [source]. unfold Seq. cbn [foldr].
    apply Matches_Cat_iff. exists (id ++ t'), ∅. split; [by apply Matches_Str_iff|].
    apply Matches_Cat_iff. eexists t', _. split; [|by apply Matches_Eps_iff].
    apply Matches_Grp_iff. exists ∅. split; [|done].
    apply Matches_Rep_Class. exists id. split; [done|]. split; [lia|].
    split; [|done]. intros h [= <-]. lia. }
  destruct (match_here_is_Some deploymentRegex _ _ _ HM) as [[t1 c1] Hm].
  rewrite Hm. destruct (Fwd _ _ Hm) as (id1 & E & [Hlen1 _]%is_deployment_id_spec & ->).
  apply app_inv_head in E.
  assert (id = id1 /\ t' = t1) as [<- <-]; [|done].
  apply app_inj_1 in E; [done|lia].
Qed.
End DeploymentFacts.

Section DeploymentScan.
Import CoolifyLogs Picks Deployments.

Lemma prefix_slashes j :
  lit "/deployment/" !! j = Some (chr "/") -> j = 0 \/ j = 11.
Proof.
  do 12 (destruct j as [|j]; [vm_compute; intros; try discriminate; auto|]).
  by vm_compute.
Qed.

Lemma id_without_slash (id : JSString) j :
  Forall (fun x => lower_or_digit x = true) id -> id !! j <> Some (chr "/").
Proof.
  intros Hall Hj. rewrite Forall_forall in Hall.
  specialize (Hall _ (list_elem_of_lookup_2 _ _ _ Hj)). by vm_compute in Hall.
Qed.

(** Where an occurrence has its slashes. *)
Lemma occurrence_slashes (id t' : JSString) j :
  length id = 24 -> Forall (fun x => lower_or_digit x = true) id ->
  j < 36 ->
  (lit "/deployment/" ++ id ++ t') !! j = Some (chr "/") -> j = 0 \/ j = 11.
Proof.
  intros Hlen Hall Hj Hl.
  destruct (decide (j < 12)) as [Hlt|Hge].
  - rewrite lookup_app_l in Hl by (by vm_compute). by apply prefix_slashes.
  - rewrite lookup_app_r in Hl by (vm_compute; lia).
    change (length (lit "/deployment/")) with 12 in Hl.
    rewrite lookup_app_l in Hl by lia.
    by apply id_without_slash in Hl.
Qed.

(** Two occurrences do not overlap. *)
Lemma deploymentRegex_no_overlap t t' c j :
  match_here deploymentRegex t = Some (t', c) ->
  0 < j < length t - length t' ->
  match_here deploymentRegex (drop j t) = None.
Proof.
  intros (id & -> & [Hlen Hall]%is_deployment_id_spec & ->)%deploymentRegex_match Hj.
  rewrite !length_app, Hlen in Hj. change (length (lit "/deployment/")) with 12 in Hj.
  destruct (match_here deploymentRegex _) as [[t2 c2]|] eqn:E; [exfalso|done].
  apply deploymentRegex_match in E as (id2 & E & [Hlen2 Hall2]%is_deployment_id_spec & ->).
  assert (forall i, (drop j (lit "/deployment/" ++ id ++ t')) !! i
                    = (lit "/deployment/" ++ id2 ++ t2) !! i) as Hi by (by rewrite E).
  pose proof (Hi 0) as H0. pose proof (Hi 11) as H11.
  rewrite lookup_drop in H0, H11.
  change ((lit "/deployment/" ++ id2 ++ t2) !! 0) with (Some (chr "/")) in H0.
  change ((lit "/deployment/" ++ id2 ++ t2) !! 11) with (Some (chr "/")) in H11.
  apply occurrence_slashes in H0; [|done|done|lia].
  destruct H0 as [H0|H0]; [lia|].
  assert (j = 11) as -> by lia.
  rewrite lookup_app_r in H11 by (vm_compute; lia).
  change (length (lit "/deployment/")) with 12 in H11.
  rewrite lookup_app_l in H11 by lia.
  by apply id_without_slash in H11.
Qed.

(** A scan finds every match that no earlier match covers. *)
Lemma scan_complete re
    (Hno : forall t t' c j, match_here re t = Some (t', c) ->
                            0 < j < length t - length t' ->
                            match_here re (drop j t) = None) :
  forall s i k q t' c,
    (forall j, j < k -> match_here re (drop j s) = None) ->
    q <= length s ->
    match_here re (drop q s) = Some (t', c) ->
    exists m, m ∈ scan re s i k /\ m_index m = i + q /\ m_groups m = c.
Proof.
  induction s as [|x s IH]; intros i k q t' c Hk Hq Hm.
  - simpl in Hq. assert (q = 0) as -> by lia. simpl in Hm.
    destruct k as [|k];
      [|pose proof (Hk 0 ltac:(lia)) as Hk0; simpl in Hk0; congruence].
    simpl. rewrite Hm. eexists. split; [by left|]. simpl. split; [lia|done].
  - destruct k as [|k].
    + simpl. destruct (match_here re (x :: s)) as [[t1 c1]|] eqn:E.
      * destruct q as [|q].
        { simpl in Hm. rewrite E in Hm. inversion Hm; subst.
          eexists. split; [by left|]. simpl. split; [lia|done]. }
        simpl in Hm, Hq.
        destruct (IH (S i) (pred (length (x :: s) - length t1)) q t' c) as (m & Hin & Hi & Hc).
        -- intros j Hj. apply (Hno (x :: s) t1 c1 (S j) E). simpl in *. lia.
        -- lia.
        -- done.
        -- exists m. split; [by right|]. split; [lia|done].
      * destruct q as [|q]; [simpl in Hm; congruence|].
        simpl in Hm, Hq.
        destruct (IH (S i) 0 q t' c) as (m & Hin & Hi & Hc); [intros; lia|lia|done|].
        exists m. split; [done|]. split; [lia|done].
    + simpl. destruct q as [|q];
        [pose proof (Hk 0 ltac:(lia)) as Hk0; simpl in Hk0, Hm; congruence|].
      simpl in Hm, Hq.
      destruct (IH (S i) k q t' c) as (m & Hin & Hi & Hc); [|lia|done|].
      * intros j Hj. apply (Hk (S j)). lia.
      * exists m. split; [done|]. split; [lia|done].
Qed.
End DeploymentScan.

Section OccurrenceOrder.
Import CoolifyLogs Picks Deployments.

Lemma indexOf_from_eq (s sub : JSString) i :
  indexOf_from s sub i =
  if startsWith s sub then Some i
  else match s with
       | [] => None
       | _ :: t => indexOf_from t sub (S i)
       end.
Proof. by destruct s. Qed.

Lemma indexOf_from_Some (s sub : JSString) : forall i p,
  indexOf_from s sub i = Some p ->
  exists j, p = i + j /\ j <= length s /\ startsWith (drop j s) sub = true /\
            forall j', j' < j -> startsWith (drop j' s) sub = false.
Proof.
  induction s as [|x s IH]; intros i p; rewrite indexOf_from_eq.
  - destruct (startsWith [] sub) eqn:E; [|done].
    intros [= <-]. exists 0. split; [lia|]. split; [done|]. split; [done|]. intros; lia.
  - destruct (startsWith (x :: s) sub) eqn:E.
    + intros [= <-]. exists 0. split; [lia|]. split; [simpl; lia|]. split; [done|].
      intros; lia.
    + intros (j & -> & Hj & Hs & Hb)%IH. exists (S j).
      split; [lia|]. split; [simpl; lia|]. split; [done|].
      intros [|j'] Hlt; [done|]. simpl. apply Hb. lia.
Qed.

Lemma indexOf_from_exists (s sub : JSString) : forall i j,
  j <= length s -> startsWith (drop j s) sub = true ->
  exists p, indexOf_from s sub i = Some p /\ p <= i + j.
Proof.
  induction s as [|x s IH]; intros i j Hj Hs; rewrite indexOf_from_eq.
  - simpl in Hj. assert (j = 0) as -> by lia. rewrite drop_0 in Hs. rewrite Hs.
    exists i. split; [done|lia].
  - destruct (startsWith (x :: s) sub) eqn:E.
    + exists i. split; [done|lia].
    + destruct j as [|j]; [rewrite drop_0 in Hs; congruence|].
      rewrite skipn_cons in Hs. simpl in Hj.
      destruct (IH (S i) j) as (p & Hp & Hle); [lia|done|].
      exists p. split; [done|lia].
Qed.

Lemma StronglySorted_lookup_lt (l : list nat) : forall i j a b,
  StronglySorted lt l -> i < j -> l !! i = Some a -> l !! j = Some b -> a < b.
Proof.
  induction l as [|x l IH]; intros i j a b Hs Hij Ha Hb; [done|].
  apply StronglySorted_inv in Hs as [Hs Hall]. rewrite Forall_forall in Hall.
  destruct j as [|j]; [lia|]. simpl in Hb.
  destruct i as [|i]; simpl in Ha.
  - inversion Ha; subst. apply Hall. by eapply list_elem_of_lookup_2.
  - apply (IH i j a b Hs); [lia|done|done].
Qed.

(** What a match of the plain pattern says of the page. *)
Lemma deploymentRegex_found t m :
  found_at deploymentRegex t m ->
  is_deployment_id (capture 1 m) = true /\
  startsWith t (lit "/deployment/" ++ capture 1 m) = true.
Proof.
  intros (t' & (id & -> & Hid & Hc)%deploymentRegex_match & _).
  unfold capture, group. rewrite Hc, lookup_singleton_eq. simpl.
  split; [done|]. apply startsWith_app. by exists t'.
Qed.

(** The first match that holds an identifier is at the first occurrence
    of the identifier in the page. *)
Lemma first_match_indexOf text pick :
  pick ∈ first_matches [] (match_all deploymentRegex text) ->
  indexOf text (lit "/deployment/" ++ capture 1 pick) = Some (m_index pick).
Proof.
  intros Hpick.
  pose proof (first_matches_elem _ _ _ Hpick) as [Hin _].
  pose proof Hin as (j & Hj & Hi & Hf)%scan_elem. simpl in Hi. subst j.
  pose proof (deploymentRegex_found _ _ Hf) as [Hid Hstart].
  destruct (indexOf_from_exists text (lit "/deployment/" ++ capture 1 pick) 0 (m_index pick))
    as (p & Hp & Hle); [lia|done|].
  unfold indexOf. rewrite Hp. f_equal. simpl in Hle.
  apply indexOf_from_Some in Hp as (q & -> & Hq & Hs & _). simpl in *.
  apply startsWith_app in Hs as [rest Hrest].
  assert (match_here deploymentRegex (drop q text)
          = Some (rest, {[ 1 := capture 1 pick ]})) as Hm.
  { apply deploymentRegex_match. exists (capture 1 pick).
    split; [by rewrite Hrest|done]. }
  destruct (scan_complete deploymentRegex deploymentRegex_no_overlap text 0 0 q _ _
              ltac:(intros; lia) Hq Hm) as (m & Hmin & Hmi & Hmc).
  assert (m_index pick <= m_index m); [|simpl in Hmi; lia].
  eapply first_matches_first; eauto.
  - apply scan_sorted.
  - unfold capture, group. rewrite Hmc, lookup_singleton_eq. done.
Qed.

(** The identifiers of one scan with the plain pattern come in the order
    of their first occurrence. *)
Lemma collect_first_occurrence_order text :
  first_occurrence_order text (collect deploymentRegex text).
Proof.
  intros i j x y Hij Hx Hy.
  rewrite collect_first_matches in Hx, Hy.
  apply list_lookup_fmap_Some in Hx as (px & -> & Hpx).
  apply list_lookup_fmap_Some in Hy as (py & -> & Hpy).
  exists (m_index px), (m_index py).
  split; [apply first_match_indexOf; by eapply list_elem_of_lookup_2|].
  split; [apply first_match_indexOf; by eapply list_elem_of_lookup_2|].
  eapply (StronglySorted_lookup_lt (m_index <$> first_matches [] (match_all deploymentRegex text))
            i j).
  - apply first_matches_sorted, scan_sorted.
  - done.
  - by rewrite list_lookup_fmap, Hpx.
  - by rewrite list_lookup_fmap, Hpy.
Qed.
End OccurrenceOrder.

Section DeploymentList.
Import CoolifyLogs Picks Deployments.

(** What a match of the annotated pattern says of the page. *)
Lemma deploymentPattern_found t m :
  found_at deploymentPattern t m ->
  is_deployment_id (capture 1 m) = true /\
  startsWith t (lit "/deployment/" ++ capture 1 m) = true.
Proof.
  intros (t' & Hm%match_here_Some & _).
  unfold deploymentPattern, Seq in Hm. cbn [source ignoreCase foldr] in Hm.
  apply Matches_Cat_iff in Hm as (s1 & c1 & [-> ->]%Matches_Str_iff & Hm).
  apply Matches_Cat_iff in Hm as (s2 & c2 & Hg & Hrest).
  apply Matches_Grp_iff in Hg as (c & Hrep & ->).
  apply Matches_Rep_Class in Hrep as (id & -> & Hlo & Hhi & Hall & ->).
  specialize (Hhi 24 eq_refl).
  pose proof (Matches_app _ _ _ _ _ _ Hrest) as [w ->].
  apply (Matches_other_groups _ _ _ _ _ _ 1) in Hrest;
    [|vm_compute; intros Hin; repeat (apply elem_of_cons in Hin as [Hin|Hin]; [done|]);
      by apply elem_of_nil in Hin].
  unfold capture, group. rewrite Hrest, lookup_insert_eq, take_consumed. simpl.
  split.
  - apply is_deployment_id_spec. split; [lia|done].
  - apply startsWith_app. by exists (w ++ t').
Qed.

(** The identifiers a scan keeps, with the places where it met them. *)
Lemma collect_positions re text
    (Hfound : forall t m, found_at re t m ->
                is_deployment_id (capture 1 m) = true /\
                startsWith t (lit "/deployment/" ++ capture 1 m) = true) :
  Forall (fun id => is_deployment_id id = true) (collect re text) /\
  NoDup (collect re text) /\
  exists positions,
    length positions = length (collect re text) /\
    StronglySorted lt positions /\
    forall i id p, collect re text !! i = Some id -> positions !! i = Some p ->
                   occurs_at text p id.
Proof.
  split; [|split; [apply collect_NoDup|]].
  - apply Forall_forall. intros x (m & Hm & <-)%collect_elem.
    apply scan_elem in Hm as (j & _ & _ & Hf). by apply Hfound in Hf as [? _].
  - rewrite collect_first_matches.
    exists (m_index <$> first_matches [] (match_all re text)).
    split; [by rewrite !length_fmap|].
    split; [apply first_matches_sorted, scan_sorted|].
    intros i id p (pick & -> & Hpick)%list_lookup_fmap_Some
           (pick' & -> & Hpick')%list_lookup_fmap_Some.
    assert (pick' = pick) as -> by congruence.
    apply list_elem_of_lookup_2, first_matches_elem in Hpick as [Hin _].
    apply scan_elem in Hin as (j & _ & Hj & Hf). simpl in Hj. subst j.
    by apply Hfound in Hf as [_ ?].
Qed.
End DeploymentList.

(** C10 as it is stated fails: on a page that shows the link of [b]
    first without a status after it, then [a] and [b] with their status,
    the list is [a; b], while [b] occurs in the page before [a]. *)
Lemma deployment_ids_not_in_first_occurrence_order :
  CoolifyLogs.deployment_ids Deployments.page_with_bare_link
    = [Deployments.id_a; Deployments.id_b] /\
  Picks.indexOf Deployments.page_with_bare_link (lit "/deployment/" ++ Deployments.id_a)
    = Some 44 /\
  Picks.indexOf Deployments.page_with_bare_link (lit "/deployment/" ++ Deployments.id_b)
    = Some 0 /\
  ~ Deployments.first_occurrence_order Deployments.page_with_bare_link
      (CoolifyLogs.deployment_ids Deployments.page_with_bare_link).
Proof.
  assert (CoolifyLogs.deployment_ids Deployments.page_with_bare_link
          = [Deployments.id_a; Deployments.id_b]) as E by (by vm_compute).
  assert (Picks.indexOf Deployments.page_with_bare_link
            (lit "/deployment/" ++ Deployments.id_a) = Some 44) as Ea by (by vm_compute).
  assert (Picks.indexOf Deployments.page_with_bare_link
            (lit "/deployment/" ++ Deployments.id_b) = Some 0) as Eb by (by vm_compute).
  split; [done|]. split; [done|]. split; [done|].
  intros Horder. rewrite E in Horder.
  destruct (Horder 0 1 Deployments.id_a Deployments.id_b) as (p & q & Hp & Hq & Hlt);
    [lia|done|done|].
  rewrite Ea in Hp. rewrite Eb in Hq. inversion Hp. inversion Hq. lia.
Qed.

(** ** The cascade of [getDeploymentLogs] *)

Section MinLen.
Context (ic : bool).

Lemma Matches_min_len r s c s' c' :
  Matches ic r s c s' c' -> length s' + min_len r <= length s.
Proof.
  induction 1 as [| | |r1 r2 s c s1 c1 s2 c2 _ IH1 _ IH2|r1 r2 s c s' c' _ IH
                 |r1 r2 s c s' c' _ IH|g hi r s c
                 |g lo hi r s c s1 c1 s2 c2 _ _ IH1 _ _ IH2
                 |j r s c s1 c1 _ IH]; simpl in *; try lia.
  destruct lo as [|lo]; simpl in *; lia.
Qed.
End MinLen.

Lemma found_nonempty re t m :
  found_at re t m -> 1 <= min_len (source re) -> m_text m <> [].
Proof.
  intros (t' & Hm%match_here_Some & Ht) Hmin.
  apply Matches_min_len in Hm. rewrite Ht.
  intros E. apply (f_equal length) in E. rewrite length_take in E. simpl in E. lia.
Qed.

Lemma str_match_found re text m :
  str_match re text = Some m -> found_at re (drop (m_index m) text) m.
Proof. by intros [? _]%str_match_leftmost. Qed.

Section CascadeFacts.
Import CoolifyLogs Strategies.
Context `{Runtime}.

Lemma ToBoolean_Some_inv (o : option JSValue) :
  ToBoolean o = true -> exists v, o = Some v.
Proof. destruct o; [eauto|done]. Qed.

(** The [try] block either leaves the two variables alone or sets them
    to a truthy value and [true]. *)
Lemma read_snapshot_cases m st0 st :
  read_snapshot m st0 = Ok st ->
  st = st0 \/ exists v, st = found v /\ ToBoolean (Some v) = true.
Proof.
  unfold read_snapshot, mbind, Result_bind, rbind.
  destruct (JSON_parse _) as [wireData|]; [|done].
  destruct (data_and wireData "output") as [output|]; [|done].
  destruct (ToBoolean output) eqn:Eo.
  { intros [= <-]. right. apply ToBoolean_Some_inv in Eo as E. destruct E as [v ->]. eauto. }
  destruct (data_and wireData "logs") as [logs|]; [|done].
  destruct (ToBoolean logs) eqn:El.
  { intros [= <-]. right. apply ToBoolean_Some_inv in El as E. destruct E as [v ->]. eauto. }
  destruct (data_and wireData "deployment_logs") as [dl|]; [|done].
  destruct (ToBoolean dl) eqn:Ed.
  { intros [= <-]. right. apply ToBoolean_Some_inv in Ed as E. destruct E as [v ->]. eauto. }
  destruct (Get wireData (lit "data")) as [data|]; [|done].
  destruct (ToBoolean data); [|intros [= <-]; by left].
  destruct (find long_string _) as [value|] eqn:Ef; [|intros [= <-]; by left].
  intros [= <-]. right. exists value. split; [done|].
  apply find_some in Ef as [_ Hlong].
  destruct value as [| | |s| |]; try done. simpl in *.
  destruct s; [done|done].
Qed.

Lemma yield_embedded_truthy page v :
  yield EmbeddedState page = Some v -> ToBoolean (Some v) = true.
Proof.
  unfold yield. destruct (str_match re_wire_snapshot page) as [m|]; [|done].
  destruct (read_snapshot m (mkCascade None false)) as [st|] eqn:E; [|done].
  apply read_snapshot_cases in E as [->|(v' & -> & Hv)]; [done|].
  simpl. by intros [= <-].
Qed.

Lemma strategy1_yield page :
  strategy1 (JStr page) init = Ok (state_of ((fun v => (EmbeddedState, v)) <$>
                                              yield EmbeddedState page)).
Proof.
  unfold strategy1, yield, init, mbind, Result_bind, rbind. cbn [method_match].
  destruct (str_match re_wire_snapshot page) as [m|]; [|done].
  destruct (read_snapshot m (mkCascade None false)) as [st|] eqn:E; [|done].
  simpl. apply read_snapshot_cases in E as [->|(v' & -> & Hv)]; done.
Qed.

Lemma strategy2_yield page st :
  strategy2 (JStr page) st =
  Ok (if logFound st then st
      else match yield StatusMarkup page with
           | Some v => found v
           | None => st
           end).
Proof.
  unfold strategy2, yield, mbind, Result_bind, rbind. cbn [method_match].
  destruct (logFound st); [done|]. simpl.
  by destruct (str_match re_status_markup page).
Qed.

Lemma strategy_block_yield re page st :
  strategy_block re (JStr page) st =
  Ok (if logFound st then st
      else match (fun m => JStr (capture 1 m)) <$> str_match re page with
           | Some v => found v
           | None => st
           end).
Proof.
  unfold strategy_block, mbind, Result_bind, rbind. cbn [method_match].
  destruct (logFound st); [done|]. simpl.
  by destruct (str_match re page).
Qed.

Lemma strategy5_yield page st :
  strategy5 (JStr page) st =
  Ok (if logFound st then st
      else match yield KeywordLines page with
           | Some v => found v
           | None => st
           end).
Proof.
  unfold strategy5, yield.
  destruct (logFound st); [done|]. simpl.
  by destruct (match_all re_keyword_line page).
Qed.

(** The five steps of the code, run one after the other on the two
    variables, end where the first strategy that yields leaves them. *)
Lemma bind_Ok {A B} (a : A) (f : A -> Result B) : (Ok a ≫= f) = f a.
Proof. reflexivity. Qed.

Lemma cascade_select page :
  cascade (JStr page) = Ok (state_of (select page)).
Proof.
  unfold cascade, strategy3, strategy4.
  change (mkCascade None false) with init.
  rewrite strategy1_yield, bind_Ok, strategy2_yield, bind_Ok.
  rewrite strategy_block_yield, bind_Ok, strategy_block_yield, bind_Ok, strategy5_yield.
  change ((fun m => JStr (capture 1 m)) <$> str_match re_pre page) with (yield PreBlock page).
  change ((fun m => JStr (capture 1 m)) <$> str_match re_code page) with (yield CodeBlock page).
  unfold select, priority. cbn [first_yield].
  destruct (yield EmbeddedState page) as [v1|]; [done|].
  destruct (yield StatusMarkup page) as [v2|]; [done|].
  destruct (yield PreBlock page) as [v3|]; [done|].
  destruct (yield CodeBlock page) as [v4|]; [done|].
  by destruct (yield KeywordLines page) as [v5|].
Qed.

(** A page that is not a string stops the cascade at its first step. *)
Lemma cascade_not_text page :
  match page with JStr _ => False | _ => True end ->
  cascade page = Raise TypeError.
Proof. by destruct page. Qed.
End CascadeFacts.

Section YieldFacts.
Import CoolifyLogs Strategies.
Context `{Runtime}.

Lemma join_nonempty (sep p : JSString) (rest : list JSString) :
  p <> [] -> join sep (p :: rest) <> [].
Proof.
  intros Hp. simpl. destruct rest; [done|]. by destruct p.
Qed.

(** The capture of a [pre] or [code] block holds a character at least. *)
Lemma block_capture_nonempty tag t m :
  found_at (re_block tag) t m -> capture 1 m <> [].
Proof.
  intros (t' & Hm%match_here_Some & _).
  unfold re_block in Hm. cbn [source ignoreCase] in Hm.
  remember (m_groups m) as caps eqn:Hcaps.
  inv_matches.
  match goal with
  | Hg : m_groups m = <[1 := take _ (?w ++ ?r)]> _, Hlen : 1 <= length ?w |- _ =>
    unfold capture, group; rewrite Hg, lookup_insert_eq; simpl;
    rewrite take_consumed; intros ->; simpl in Hlen; lia
  end.
Qed.

(** What the strategies after the first yield is a text that is not
    empty. *)
Lemma yield_text_nonempty k page v :
  k <> EmbeddedState -> yield k page = Some v -> exists t, v = JStr t /\ t <> [].
Proof.
  intros Hk. destruct k; [done| | | |]; unfold yield.
  - intros (m & Hm & ->)%fmap_Some. eexists. split; [done|].
    apply str_match_found in Hm. eapply found_nonempty; [exact Hm|]. vm_compute. lia.
  - intros (m & Hm & ->)%fmap_Some. eexists. split; [done|].
    apply str_match_found in Hm. by eapply block_capture_nonempty.
  - intros (m & Hm & ->)%fmap_Some. eexists. split; [done|].
    apply str_match_found in Hm. by eapply block_capture_nonempty.
  - destruct (match_all re_keyword_line page) as [|m ms] eqn:E; [done|].
    intros [= <-]. eexists. split; [done|].
    apply (join_nonempty [LF] (m_text m) (m_text <$> ms)).
    assert (m ∈ match_all re_keyword_line page) as Hin by (rewrite E; by left).
    apply scan_elem in Hin as (j & _ & _ & Hf).
    eapply found_nonempty; [exact Hf|]. vm_compute. lia.
Qed.

Lemma yield_truthy k page v : yield k page = Some v -> ToBoolean (Some v) = true.
Proof.
  assert (k = EmbeddedState \/ k <> EmbeddedState) as [->|Hk]
    by (destruct k; auto; right; discriminate).
  - apply yield_embedded_truthy.
  - intros (t & -> & Ht)%yield_text_nonempty; [|done]. by destruct t.
Qed.

Lemma select_Some page k v :
  select page = Some (k, v) ->
  yield k page = Some v /\ forall j, rank j < rank k -> yield j page = None.
Proof.
  unfold select, priority. cbn [first_yield].
  destruct (yield EmbeddedState page) eqn:E1.
  { intros [= <- <-]. split; [done|]. intros j0 Hj. simpl in Hj. lia. }
  destruct (yield StatusMarkup page) eqn:E2.
  { intros [= <- <-]. split; [done|]. intros [] Hj; simpl in Hj; try lia; done. }
  destruct (yield PreBlock page) eqn:E3.
  { intros [= <- <-]. split; [done|]. intros [] Hj; simpl in Hj; try lia; done. }
  destruct (yield CodeBlock page) eqn:E4.
  { intros [= <- <-]. split; [done|]. intros [] Hj; simpl in Hj; try lia; done. }
  destruct (yield KeywordLines page) eqn:E5; [|done].
  intros [= <- <-]. split; [done|]. intros [] Hj; simpl in Hj; try lia; done.
Qed.

Lemma select_None page : select page = None -> forall k, yield k page = None.
Proof.
  unfold select, priority. cbn [first_yield].
  destruct (yield EmbeddedState page) eqn:E1; [done|].
  destruct (yield StatusMarkup page) eqn:E2; [done|].
  destruct (yield PreBlock page) eqn:E3; [done|].
  destruct (yield CodeBlock page) eqn:E4; [done|].
  destruct (yield KeywordLines page) eqn:E5; [done|].
  by intros _ [].
Qed.

Lemma select_None_iff page : select page = None <-> forall k, yield k page = None.
Proof.
  split; [apply select_None|].
  intros Hall. unfold select, priority. cbn [first_yield]. by rewrite !Hall.
Qed.

Lemma extract_select page :
  extract (JStr page) =
  match select page with
  | Some (_, v) => ToString v ≫= fun text => Ok (Some (normalize text))
  | None => Ok None
  end.
Proof.
  unfold extract. rewrite cascade_select, bind_Ok.
  destruct (select page) as [[k v]|] eqn:E; [|done].
  apply select_Some in E as [Hy _]. apply yield_truthy in Hy.
  cbn [state_of found logFound logsContent]. rewrite Hy. done.
Qed.
End YieldFacts.

Lemma extract_pre_page :
  let rt := Scenario.runtime [] in
  CoolifyLogs.extract (JStr LogPages.pre_page) = Ok (Some LogPages.pre_log).
Proof. by vm_compute. Qed.

(** C6, as the code has it.  On a page of text the cascade never throws.
    When no strategy yields, the extraction answers [null].  When the
    snapshot attribute is not JSON, or is the JSON [null], the error is
    caught in the first strategy, which then yields nothing, and the
    result is that of the four other strategies in their order.  And when
    one of these four wins, the extraction returns its normalized text. *)
Theorem extraction_miss_is_absent `{Runtime} (page : JSString) :
  (exists st, CoolifyLogs.cascade (JStr page) = Ok st) /\
  ((forall k, Strategies.yield k page = None) ->
     CoolifyLogs.extract (JStr page) = Ok None) /\
  (forall m,
     str_match CoolifyLogs.re_wire_snapshot page = Some m ->
     JSON_parse (CoolifyLogs.decode_snapshot (CoolifyLogs.capture 1 m)) = None \/
     JSON_parse (CoolifyLogs.decode_snapshot (CoolifyLogs.capture 1 m)) = Some JNull ->
     Strategies.yield Strategies.EmbeddedState page = None /\
     Strategies.select page =
       Strategies.first_yield [Strategies.StatusMarkup; Strategies.PreBlock;
                               Strategies.CodeBlock; Strategies.KeywordLines] page) /\
  (forall k t,
     Strategies.select page = Some (k, JStr t) ->
     CoolifyLogs.extract (JStr page) = Ok (Some (CoolifyLogs.normalize t))).
Proof.
  split; [eexists; apply cascade_select|]. split; [|split].
  - intros Hall. rewrite extract_select.
    by rewrite (proj2 (select_None_iff page) Hall).
  - intros m Hm Hparse.
    assert (Strategies.yield Strategies.EmbeddedState page = None) as Hy.
    { unfold Strategies.yield. rewrite Hm.
      unfold CoolifyLogs.read_snapshot. destruct Hparse as [-> | ->]; reflexivity. }
    split; [done|].
    unfold Strategies.select, Strategies.priority. cbn [Strategies.first_yield].
    by rewrite Hy.
  - intros k t Hs. rewrite extract_select, Hs. reflexivity.
Qed.

(** C6, at a page whose snapshot attribute is cut short: the first
    strategy is passed over and the [pre] block is returned. *)
Lemma extraction_miss_is_absent_witness :
  let rt := Scenario.runtime [] in
  Strategies.yield Strategies.EmbeddedState LogPages.broken_snapshot_page = None /\
  Strategies.select LogPages.broken_snapshot_page =
    Strategies.first_yield [Strategies.StatusMarkup; Strategies.PreBlock;
                            Strategies.CodeBlock; Strategies.KeywordLines]
      LogPages.broken_snapshot_page.
Proof.
  intros rt.
  eapply (proj1 (proj2 (proj2 (@extraction_miss_is_absent rt LogPages.broken_snapshot_page)))).
  - reflexivity.
  - left. reflexivity.
Defined.

Lemma extract_broken_snapshot_page :
  let rt := Scenario.runtime [] in
  CoolifyLogs.extract (JStr LogPages.broken_snapshot_page) = Ok (Some (lit "Build OK")) /\
  CoolifyLogs.extract (JStr LogPages.plain_page) = Ok None.
Proof. by vm_compute. Qed.

(** C6 as it is stated fails: the page of the deployment comes back as a
    JSON document; [request] hands its parsed value to the extraction,
    whose first [match] call throws a TypeError that nothing catches. *)
Lemma extraction_json_page_throws :
  let rt := Scenario.runtime [(Pages.server_error_json, Pages.server_error_value)] in
  let server := Scenario.scripted [Scenario.page 500 Pages.server_error_json] in
  CoolifyLogs.extract Pages.server_error_value = Raise TypeError /\
  (exists w', CoolifyLogs.getDeploymentLogs server 1 LogPages.deployment LogPages.resolved
              = Thrown TypeError w') /\
  (forall w', CoolifyLogs.getDeploymentLogs server 1 LogPages.deployment LogPages.resolved
              <> Returned None w').
Proof.
  intros rt server. split; [reflexivity|].
  assert (exists w', CoolifyLogs.getDeploymentLogs server 1 LogPages.deployment LogPages.resolved
                     = Thrown TypeError w') as [w' E].
  { eexists. reflexivity. }
  split; [by exists w'|]. intros w''. rewrite E. discriminate.
Qed.

(** ** Replacement *)

Section ReplaceFacts.
Context (re : RegExp) (by_ : JSString).

(** A pattern that matches nowhere leaves the text as it is. *)
Lemma replace_no_match s :
  str_match re s = None -> replace re by_ s = s.
Proof.
  unfold str_match, replace. rewrite search_None.
  induction s as [|x s IH]; intros Hnone; simpl.
  - pose proof (Hnone 0 (Nat.le_refl _)) as E. simpl in E. by rewrite E.
  - pose proof (Hnone 0 (Nat.le_0_l _)) as E. simpl in E. rewrite E. f_equal.
    apply IH. intros j Hj. apply (Hnone (S j)). simpl. lia.
Qed.

Lemma replace_from_drop : forall n s,
  n <= length s -> replace_from re by_ s n = replace re by_ (drop n s).
Proof.
  induction n as [|n IH]; intros s Hn; [by rewrite drop_0|].
  destruct s as [|a t]; simpl in *; [lia|]. apply IH. lia.
Qed.

(** Where the pattern matches one character or more, the replacement
    text stands for the match and the scan goes on behind it. *)
Lemma replace_match a t s' c n :
  match_here re (a :: t) = Some (s', c) ->
  length (a :: t) - length s' = S n -> n <= length t ->
  replace re by_ (a :: t) = by_ ++ replace re by_ (drop n t).
Proof.
  intros Hm Hlen Hn. unfold replace at 1. cbn [replace_from].
  rewrite Hm, Hlen. cbn [Init.Nat.pred app]. by rewrite replace_from_drop.
Qed.

(** Where it does not match, the character is kept. *)
Lemma replace_pass a t :
  match_here re (a :: t) = None ->
  replace re by_ (a :: t) = a :: replace re by_ t.
Proof.
  intros Hm. unfold replace. cbn [replace_from]. by rewrite Hm.
Qed.
End ReplaceFacts.

(** Induction on a text two characters at a time. *)
Lemma text_pair_ind (P : JSString -> Prop) :
  P [] -> (forall a, P [a]) ->
  (forall a b t, P t -> P (b :: t) -> P (a :: b :: t)) ->
  forall s, P s.
Proof.
  intros Hnil Hone Hstep s.
  assert (P s /\ forall a, P (a :: s)) as [Hs _]; [|done].
  induction s as [|b t [IH1 IH2]]; [by split|].
  split; [apply IH2|]. intros a. apply Hstep; [done|apply IH2].
Qed.

(** ** Literal patterns *)

Section LiteralFacts.
Import CoolifyLogs.
Implicit Types (s p : JSString).

Lemma startsWith_spec s p :
  startsWith s p = true <-> exists rest, s = p ++ rest.
Proof.
  revert s. induction p as [|x p IH]; intros s.
  - split; [intros _; by exists s|by destruct s].
  - destruct s as [|y s]; simpl.
    + split; [done|]. by intros (rest & E).
    + rewrite andb_true_iff, N.eqb_eq, IH. split.
      * intros [-> (rest & ->)]. by exists rest.
      * intros (rest & E). inversion E; subst. split; [done|by exists rest].
Qed.

Lemma includes_spec s p :
  includes s p = true <-> exists j, j <= length s /\ startsWith (drop j s) p = true.
Proof.
  induction s as [|x s IH]; simpl.
  - rewrite orb_false_r. split.
    + intros E. by exists 0.
    + intros (j & _ & E). by rewrite drop_nil in E.
  - rewrite orb_true_iff, IH. split.
    + intros [E|(j & Hj & E)]; [by exists 0; split; [lia|]|].
      exists (S j). split; [lia|done].
    + intros ([|j] & Hj & E); [by left|]. right. exists j. split; [lia|done].
Qed.

(** A literal matches where the text starts with it. *)
Lemma match_here_literal p s :
  match_here (re_literal p) s =
  if startsWith s p then Some (drop (length p) s, ∅) else None.
Proof.
  destruct (startsWith s p) eqn:E.
  - apply startsWith_spec in E as (rest & ->).
    destruct (match_here (re_literal p) (p ++ rest)) as [[s' c]|] eqn:Em.
    + apply match_here_Some in Em. simpl in Em.
      apply Matches_Str_iff in Em as [Es ->].
      apply app_inv_head in Es as <-. by rewrite drop_app_length.
    + exfalso. eapply match_here_None; [exact Em|].
      simpl. apply Matches_Str_iff. done.
  - destruct (match_here (re_literal p) s) as [[s' c]|] eqn:Em; [|done].
    apply match_here_Some in Em. simpl in Em.
    apply Matches_Str_iff in Em as [-> _].
    assert (startsWith (p ++ s') p = true) as E'
      by (apply startsWith_spec; by exists s').
    congruence.
Qed.

(** A literal matches somewhere exactly when the text includes it. *)
Lemma str_match_literal p s :
  str_match (re_literal p) s = None <-> includes s p = false.
Proof.
  unfold str_match. rewrite search_None. split.
  - intros Hnone. apply not_true_is_false. rewrite includes_spec.
    intros (j & Hj & E). specialize (Hnone j Hj).
    rewrite match_here_literal, E in Hnone. done.
  - intros Hinc j Hj. rewrite match_here_literal.
    destruct (startsWith (drop j s) p) eqn:E; [|done].
    assert (includes s p = true) by (apply includes_spec; eauto). congruence.
Qed.

Lemma includes_tail x s p :
  includes s p = true -> includes (x :: s) p = true.
Proof.
  intros E. simpl. rewrite E. apply orb_true_r.
Qed.
End LiteralFacts.

(** ** Escaped letters *)

Section UnescapeFacts.
Import CoolifyLogs Clean.
Context (x c : N).
Implicit Types (s p : JSString).

Lemma unescape_pair a b t :
  unescape x c (a :: b :: t) =
  if (a =? BACKSLASH)%N && (b =? x)%N then c :: unescape x c t
  else a :: unescape x c (b :: t).
Proof. done. Qed.

(** The replacement of the source is this recursion. *)
Lemma replace_unescape s :
  replace (re_literal [BACKSLASH; x]) [c] s = unescape x c s.
Proof.
  induction s as [|a|a b t IHt IHb] using text_pair_ind.
  - done.
  - unfold replace. simpl. rewrite match_here_literal. simpl.
    by rewrite andb_false_r.
  - rewrite unescape_pair.
    pose proof (match_here_literal [BACKSLASH; x] (a :: b :: t)) as Hm.
    cbn [startsWith] in Hm.
    replace (startsWith t []) with true in Hm by (by destruct t).
    rewrite andb_true_r, (N.eqb_sym BACKSLASH a), (N.eqb_sym x b) in Hm.
    destruct ((a =? BACKSLASH)%N && (b =? x)%N) eqn:E.
    + simpl in Hm. rewrite drop_0 in Hm.
      rewrite (replace_match _ _ _ _ _ _ 1 Hm); [|simpl; lia|simpl; lia].
      simpl. by rewrite drop_0, IHt.
    + by rewrite (replace_pass _ _ _ _ Hm), IHb.
Qed.

Lemma unescape_elem y s :
  y ∈ unescape x c s -> y = c \/ y ∈ s.
Proof.
  induction s as [|a|a b t IHt IHb] using text_pair_ind.
  - simpl. by right.
  - simpl. by right.
  - rewrite unescape_pair.
    destruct ((a =? BACKSLASH)%N && (b =? x)%N).
    + intros [->|Hy]%elem_of_cons; [by left|].
      destruct (IHt Hy) as [->|Ht]; [by left|]. right. set_solver.
    + intros [->|Hy]%elem_of_cons; [right; set_solver|].
      destruct (IHb Hy) as [->|Ht]; [by left|]. right. set_solver.
Qed.

(** The first character of the result is the first of the text, or
    stands for an escaped letter. *)
Lemma unescape_head b t y rest :
  unescape x c (b :: t) = y :: rest ->
  (y = b \/ (y = c /\ b = BACKSLASH)) /\ forall z, z ∈ rest -> z = c \/ z ∈ t.
Proof.
  destruct t as [|b' t'].
  - simpl. intros E. injection E as Hy Hrest. subst y rest.
    split; [by left|]. intros z Hz. by right.
  - rewrite unescape_pair.
    destruct ((b =? BACKSLASH)%N && (b' =? x)%N) eqn:Eb;
      intros E; injection E as Hy Hrest; subst y rest.
    + apply andb_true_iff in Eb as [Eb%N.eqb_eq _].
      split; [by right|]. intros z Hz.
      destruct (unescape_elem _ _ Hz) as [->|Ht]; [by left|]. right. set_solver.
    + split; [by left|]. intros z Hz. by apply unescape_elem.
Qed.

(** A text without the character put in starts the result only if it
    starts the text. *)
Lemma unescape_startsWith p : forall s,
  c ∉ p -> startsWith (unescape x c s) p = true -> startsWith s p = true.
Proof.
  induction p as [|y p IHp]; intros s Hc.
  - by destruct s.
  - destruct s as [|a [|b t]]; [done|done|].
    rewrite unescape_pair.
    destruct ((a =? BACKSLASH)%N && (b =? x)%N) eqn:Eb.
    + cbn [startsWith]. intros [Ey%N.eqb_eq _]%andb_true_iff. set_solver.
    + cbn [startsWith]. intros [Ey Hrest]%andb_true_iff.
      apply andb_true_iff. split; [done|].
      apply (IHp (b :: t)); [set_solver|done].
Qed.

Lemma unescape_includes p s :
  c ∉ p -> includes s p = false -> includes (unescape x c s) p = false.
Proof.
  intros Hc Hs. apply not_true_is_false. intros Hu.
  apply not_true_iff_false in Hs. apply Hs. clear Hs. revert Hu.
  induction s as [|a|a b t IHt IHb] using text_pair_ind.
  - done.
  - done.
  - rewrite unescape_pair.
    destruct ((a =? BACKSLASH)%N && (b =? x)%N) eqn:Eb.
    + intros Hu. change (includes (c :: unescape x c t) p) with
        (startsWith (c :: unescape x c t) p || includes (unescape x c t) p) in Hu.
      apply orb_true_iff in Hu as [Hu|Hu].
      * destruct p as [|y p]; [done|]. simpl in Hu.
        apply andb_true_iff in Hu as [Ey%N.eqb_eq _]. set_solver.
      * do 2 apply includes_tail. by apply IHt.
    + intros Hu.
      change (includes (a :: unescape x c (b :: t)) p) with
        (startsWith (a :: unescape x c (b :: t)) p
         || includes (unescape x c (b :: t)) p) in Hu.
      apply orb_true_iff in Hu as [Hu|Hu].
      * assert (startsWith (a :: b :: t) p = true) as E.
        { apply unescape_startsWith; [done|]. by rewrite unescape_pair, Eb. }
        change (includes (a :: b :: t) p) with
          (startsWith (a :: b :: t) p || includes (b :: t) p).
        by rewrite E.
      * apply includes_tail. by apply IHb.
Qed.

(** No escaped letter is left. *)
Lemma unescape_own s :
  c <> x -> c <> BACKSLASH -> includes (unescape x c s) [BACKSLASH; x] = false.
Proof.
  intros Hx Hb.
  induction s as [|a|a b t IHt IHb] using text_pair_ind.
  - done.
  - simpl. by rewrite andb_false_r.
  - rewrite unescape_pair.
    destruct ((a =? BACKSLASH)%N && (b =? x)%N) eqn:Eb.
    + change (includes (c :: unescape x c t) [BACKSLASH; x]) with
        (startsWith (c :: unescape x c t) [BACKSLASH; x]
         || includes (unescape x c t) [BACKSLASH; x]).
      rewrite IHt, orb_false_r. cbn [startsWith].
      apply andb_false_iff. left. apply N.eqb_neq. congruence.
    + change (includes (a :: unescape x c (b :: t)) [BACKSLASH; x]) with
        (startsWith (a :: unescape x c (b :: t)) [BACKSLASH; x]
         || includes (unescape x c (b :: t)) [BACKSLASH; x]).
      rewrite IHb, orb_false_r. cbn [startsWith].
      destruct (unescape x c (b :: t)) as [|y rest] eqn:Eu; [apply andb_false_r|].
      apply unescape_head in Eu as [[->|[-> ->]] _]; cbn [startsWith].
      * replace (startsWith rest []) with true by (by destruct rest).
        rewrite andb_true_r, (N.eqb_sym BACKSLASH a), (N.eqb_sym x b). done.
      * apply andb_false_iff. right. apply andb_false_iff. left.
        apply N.eqb_neq. congruence.
Qed.
End UnescapeFacts.

(** ** Tags *)

Section TagFacts.
Import CoolifyLogs Clean.
Implicit Types (s w : JSString).

Lemma tag_here_spec s :
  tag_here s = true <->
  exists w s', s = chr "<" :: w ++ chr ">" :: s' /\ 1 <= length w /\
               Forall (fun y => not_char (chr ">") y = true) w.
Proof.
  split.
  - destruct s as [|a [|b rest]]; [done|done|]. cbn [tag_here].
    intros [[->%N.eqb_eq Hb]%andb_true_iff Hin%bool_decide_eq_true]%andb_true_iff.
    apply list_elem_of_split_l in Hin as (l1 & l2 & -> & Hl1).
    exists (b :: l1), l2. split; [done|]. split; [simpl; lia|].
    constructor; [done|]. apply Forall_forall. intros y Hy.
    unfold not_char. apply negb_true_iff, N.eqb_neq. intros ->. done.
  - intros (w & s' & -> & Hlen & HF). destruct w as [|y w]; [simpl in Hlen; lia|].
    inversion HF as [|? ? Hy HF']; subst. cbn [tag_here app].
    apply andb_true_iff. split; [by apply andb_true_iff|].
    apply bool_decide_eq_true. set_solver.
Qed.

(** The pattern of the tags matches where a tag starts. *)
Lemma match_here_tag s :
  is_Some (match_here re_tag s) <-> tag_here s = true.
Proof.
  rewrite tag_here_spec. split.
  - intros [[s' c] Hm]. apply match_here_Some in Hm. simpl in Hm.
    inv_matches. eauto.
  - intros (w & s' & -> & Hlen & HF).
    apply (match_here_is_Some re_tag _ s' ∅). simpl.
    unfold Seq. cbn [foldr].
    apply Matches_Cat_iff. exists (w ++ chr ">" :: s'), ∅. split.
    { apply Matches_Sym_iff. by exists (chr "<"). }
    apply Matches_Cat_iff. exists (chr ">" :: s'), ∅. split.
    { apply Matches_Rep_Class. exists w. by repeat split. }
    apply Matches_Cat_iff. exists s', ∅. split.
    { apply Matches_Sym_iff. by exists (chr ">"). }
    apply Matches_Eps_iff. done.
Qed.

Lemma search_tag s : forall i,
  search re_tag s i = None <-> has_tag s = false.
Proof.
  induction s as [|a s IH]; intros i.
  - done.
  - cbn [search has_tag]. pose proof (match_here_tag (a :: s)) as Hm.
    destruct (match_here re_tag (a :: s)) as [[s' c]|].
    + rewrite (proj1 Hm) by eauto. done.
    + destruct (tag_here (a :: s)); [by destruct (proj2 Hm eq_refl)|].
      rewrite orb_false_l. apply IH.
Qed.

Lemma tag_free_spec s : tag_free s <-> has_tag s = false.
Proof. apply search_tag. Qed.

Lemma has_tag_tail a s : has_tag (a :: s) = false -> has_tag s = false.
Proof. cbn [has_tag]. by intros [_ ?]%orb_false_iff. Qed.

(** Under the [i] flag a character that is not the closing bracket
    matches no closing bracket. *)
Lemma sym_eqb_ci_bracket x z :
  sym_eqb true x z = true -> x <> chr ">" -> z <> chr ">".
Proof.
  intros E Hx ->. unfold sym_eqb, canonicalize in E. simpl in E.
  destruct ((97 <=? x)%N && (x <=? 122)%N) eqn:Ex; apply N.eqb_eq in E.
  - apply andb_true_iff in Ex as [E1%N.leb_le E2%N.leb_le]. lia.
  - by apply Hx.
Qed.

(** Under the [i] flag a bracket matches itself only. *)
Lemma sym_eqb_ci_symbol x z :
  sym_eqb true x z = true -> (x < 65)%N -> z = x.
Proof.
  intros E Hx. unfold sym_eqb, canonicalize in E.
  destruct ((97 <=? x)%N && (x <=? 122)%N) eqn:Ex.
  { apply andb_true_iff in Ex as [E1%N.leb_le E2%N.leb_le]. lia. }
  destruct ((97 <=? z)%N && (z <=? 122)%N) eqn:Ez; apply N.eqb_eq in E.
  - apply andb_true_iff in Ez as [E1%N.leb_le E2%N.leb_le]. lia.
  - done.
Qed.

(** An optional character. *)
Lemma Matches_Opt_Sym ic x s c s' c' :
  Matches ic (Opt (Sym x)) s c s' c' ->
  s = s' \/ exists y, s = y :: s' /\ sym_eqb ic x y = true.
Proof.
  unfold Opt. inversion 1 as [| | | | | | |? ? ? ? ? ? s1 c1 ? ? _ M1 _ M2|]; subst.
  - by left.
  - right. apply Matches_Sym_iff in M1 as (y & -> & Hy & ->).
    exists y. split; [|done]. simpl in M2.
    inversion M2 as [| | | | | | |? ? ? ? ? ? ? ? ? ? Hhi|]; subst; [done|].
    by destruct Hhi.
Qed.

(** A line break in markup is a tag. *)
Lemma br_is_tag s s' c :
  Matches true (source re_br) s ∅ s' c -> tag_here s = true.
Proof.
  unfold re_br. cbn [source]. unfold Seq. cbn [foldr].
  intros (s1 & c1 & M1 & (s2 & c2 & M2 & (s3 & c3 & M3 & (s4 & c4 & M4 & M5)
    %Matches_Cat_iff)%Matches_Cat_iff)%Matches_Cat_iff)%Matches_Cat_iff.
  apply Matches_Str_ci in M1 as (w & -> & HF & ->).
  apply Matches_Rep_Class in M2 as (ws & -> & _ & _ & Hws & ->).
  apply Matches_Sym_iff in M4 as (z & -> & Hz & ->).
  apply sym_eqb_ci_symbol in Hz; [|done]. subst z.
  inversion HF as [|? l ? w1 Hl HF1]; subst.
  inversion HF1 as [|? b ? w2 Hb HF2]; subst.
  apply sym_eqb_ci_symbol in Hl; [|done]. subst l.
  apply sym_eqb_ci_bracket in Hb; [|done].
  cbn [tag_here app].
  apply andb_true_iff. split; [apply andb_true_iff; split; [done|]|].
  - by apply negb_true_iff, N.eqb_neq.
  - apply bool_decide_eq_true.
    apply Matches_Opt_Sym in M3 as [->|(y & -> & _)]; set_solver.
Qed.

Lemma br_free s : tag_free s -> str_match re_br s = None.
Proof.
  unfold tag_free, str_match. rewrite !search_None. intros Hfree j Hj.
  destruct (match_here re_br (drop j s)) as [[s' c]|] eqn:E; [|done].
  apply match_here_Some, br_is_tag, match_here_tag in E as [m Hm].
  rewrite (Hfree j Hj) in Hm. done.
Qed.

(** Putting a character that is no bracket for an escaped letter makes
    no tag. *)
Lemma unescape_has_tag x c s :
  c <> chr "<" -> c <> chr ">" ->
  has_tag s = false -> has_tag (unescape x c s) = false.
Proof.
  intros Hlt Hgt.
  induction s as [|a|a b t IHt IHb] using text_pair_ind.
  - done.
  - done.
  - intros Hs. rewrite unescape_pair.
    pose proof (has_tag_tail _ _ Hs) as Hb.
    pose proof (has_tag_tail _ _ Hb) as Ht.
    destruct ((a =? BACKSLASH)%N && (b =? x)%N) eqn:Eb.
    + cbn [has_tag]. rewrite (IHt Ht), orb_false_r.
      destruct (unescape x c t) as [|y rest]; [done|]. cbn [tag_here].
      replace (c =? chr "<")%N with false; [done|].
      symmetry. by apply N.eqb_neq.
    + cbn [has_tag]. cbn [has_tag] in IHb. rewrite (IHb Hb), orb_false_r.
      apply not_true_is_false. intros Htag.
      destruct (unescape x c (b :: t)) as [|y rest] eqn:Eu; [done|].
      apply unescape_head in Eu as [Hy Hrest].
      cbn [tag_here] in Htag.
      apply andb_true_iff in Htag as [[Ha Hyb]%andb_true_iff Hin%bool_decide_eq_true].
      destruct (Hrest _ Hin) as [E|Hint]; [by destruct Hgt|].
      cbn [has_tag tag_here] in Hs.
      apply orb_false_iff in Hs as [Hs _].
      rewrite Ha, (bool_decide_eq_true_2 _ Hint), andb_true_r in Hs.
      simpl in Hs. apply negb_false_iff, N.eqb_eq in Hs. subst b.
      destruct Hy as [->|[_ Hy]]; [|done].
      by rewrite N.eqb_refl in Hyb.
Qed.
End TagFacts.

(** ** The normalization *)

Section NormalizeFacts.
Import CoolifyLogs Clean.
Implicit Types (s p : JSString).

Lemma free_of_elem ps s p :
  free_of ps s = true -> p ∈ ps -> includes s p = false.
Proof.
  unfold free_of. rewrite forallb_forall. intros Hall Hp.
  apply negb_true_iff, Hall, list_elem_of_In, Hp.
Qed.

Lemma free_of_unescape ps x c s :
  Forall (fun p => c ∉ p) ps ->
  free_of ps s = true -> free_of ps (unescape x c s) = true.
Proof.
  unfold free_of. rewrite !forallb_forall, Forall_forall.
  intros Hc Hall p Hp. apply negb_true_iff, unescape_includes.
  - apply Hc, list_elem_of_In, Hp.
  - apply negb_true_iff, Hall, Hp.
Qed.

(** A literal that the text does not include is replaced nowhere. *)
Lemma replace_literal_absent p by_ s :
  includes s p = false -> replace (re_literal p) by_ s = s.
Proof.
  intros Hp. by apply replace_no_match, str_match_literal.
Qed.

(** On a text without tags the last two steps change nothing. *)
Lemma strip_tag_free s :
  tag_free s -> replace re_tag [] (replace re_br [LF] s) = s.
Proof.
  intros Hs. rewrite (replace_no_match re_br) by (by apply br_free).
  by apply replace_no_match.
Qed.

(** On a text without entities the normalization is the replacement of
    the escaped letters and of the tags. *)
Lemma normalize_entity_free s :
  entity_free s = true ->
  normalize s = replace re_tag [] (replace re_br [LF] (unescape_all s)).
Proof.
  intros He. unfold normalize, unescape_all.
  rewrite (replace_literal_absent (lit "&lt;")) by (apply (free_of_elem _ _ _ He); set_solver).
  rewrite (replace_literal_absent (lit "&gt;")) by (apply (free_of_elem _ _ _ He); set_solver).
  rewrite (replace_literal_absent (lit "&amp;")) by (apply (free_of_elem _ _ _ He); set_solver).
  rewrite (replace_literal_absent (lit "&quot;")) by (apply (free_of_elem _ _ _ He); set_solver).
  rewrite (replace_literal_absent (lit "&#039;")) by (apply (free_of_elem _ _ _ He); set_solver).
  rewrite (replace_literal_absent (lit "&nbsp;")) by (apply (free_of_elem _ _ _ He); set_solver).
  by rewrite !replace_unescape.
Qed.

Lemma unescape_absent x c s :
  includes s [BACKSLASH; x] = false -> unescape x c s = s.
Proof.
  intros Hx. rewrite <- replace_unescape. by apply replace_literal_absent.
Qed.

Lemma unescape_all_escape_free s :
  escape_free s = true -> unescape_all s = s.
Proof.
  intros He. unfold unescape_all.
  rewrite (unescape_absent (chr "n")) by (apply (free_of_elem _ _ _ He); set_solver).
  rewrite (unescape_absent (chr "r")) by (apply (free_of_elem _ _ _ He); set_solver).
  apply unescape_absent. apply (free_of_elem _ _ _ He). set_solver.
Qed.

Lemma unescape_all_entity_free s :
  entity_free s = true -> entity_free (unescape_all s) = true.
Proof.
  intros He. unfold unescape_all, entity_free.
  repeat apply free_of_unescape; try done; by apply (bool_decide_unpack _).
Qed.

Lemma unescape_all_tag_free s :
  tag_free s -> tag_free (unescape_all s).
Proof.
  rewrite !tag_free_spec. intros Hs. unfold unescape_all.
  repeat apply unescape_has_tag; done.
Qed.

(** After the three replacements no escaped letter is left. *)
Lemma unescape_all_clean s : escape_free (unescape_all s) = true.
Proof.
  unfold escape_free, free_of, escapes, unescape_all. cbn [forallb].
  rewrite !andb_true_iff, !negb_true_iff. repeat split.
  - apply unescape_includes; [by apply (bool_decide_unpack _)|].
    apply unescape_includes; [by apply (bool_decide_unpack _)|].
    by apply unescape_own.
  - apply unescape_includes; [by apply (bool_decide_unpack _)|].
    by apply unescape_own.
  - by apply unescape_own.
Qed.

(** A text with no entity, no escaped letter and no tag is left as it
    is. *)
Lemma normalize_clean s :
  entity_free s = true -> escape_free s = true -> tag_free s -> normalize s = s.
Proof.
  intros He Hx Ht.
  by rewrite normalize_entity_free, unescape_all_escape_free, strip_tag_free.
Qed.

(** The normalization of [view-logs.js] has no step for the escaped
    letters: it leaves every text without entities and tags as it is. *)
Lemma legacy_normalize_clean s :
  entity_free s = true -> tag_free s -> Legacy.normalize s = s.
Proof.
  intros He Ht. unfold Legacy.normalize.
  rewrite (replace_literal_absent (lit "&lt;")) by (apply (free_of_elem _ _ _ He); set_solver).
  rewrite (replace_literal_absent (lit "&gt;")) by (apply (free_of_elem _ _ _ He); set_solver).
  rewrite (replace_literal_absent (lit "&amp;")) by (apply (free_of_elem _ _ _ He); set_solver).
  rewrite (replace_literal_absent (lit "&quot;")) by (apply (free_of_elem _ _ _ He); set_solver).
  rewrite (replace_literal_absent (lit "&#039;")) by (apply (free_of_elem _ _ _ He); set_solver).
  by apply replace_no_match.
Qed.
End NormalizeFacts.

(** C9, amended.  On a text that is already decoded (none of the six
    entities) and has no tag: the normalization replaces the escaped line
    breaks, carriage returns and tabs and nothing else; it returns the text
    unchanged when the text has no such escaped letter either; and applying
    it twice equals applying it once. *)
Theorem normalize_idempotent_on_clean_text (s : JSString) :
  Clean.entity_free s = true -> Clean.tag_free s ->
  CoolifyLogs.normalize s = Clean.unescape_all s /\
  (Clean.escape_free s = true -> CoolifyLogs.normalize s = s) /\
  CoolifyLogs.normalize (CoolifyLogs.normalize s) = CoolifyLogs.normalize s.
Proof.
  intros He Ht.
  assert (CoolifyLogs.normalize s = Clean.unescape_all s) as E.
  { rewrite normalize_entity_free by done.
    apply strip_tag_free. by apply unescape_all_tag_free. }
  split; [done|]. split.
  - intros Hx. by apply normalize_clean.
  - rewrite E. apply normalize_clean.
    + by apply unescape_all_entity_free.
    + apply unescape_all_clean.
    + by apply unescape_all_tag_free.
Qed.

Lemma normalize_idempotent_on_clean_text_witness :
  CoolifyLogs.normalize Clean.escaped_line
    = lit "Build OK" ++ [LF] ++ lit "Done" /\
  CoolifyLogs.normalize (CoolifyLogs.normalize Clean.escaped_line)
    = CoolifyLogs.normalize Clean.escaped_line /\
  CoolifyLogs.normalize Clean.plain_line = Clean.plain_line.
Proof.
  assert (Clean.entity_free Clean.escaped_line = true) as He by reflexivity.
  assert (Clean.tag_free Clean.escaped_line) as Ht by reflexivity.
  destruct (normalize_idempotent_on_clean_text Clean.escaped_line He Ht)
    as (E1 & _ & E2).
  split; [rewrite E1; reflexivity|]. split; [exact E2|].
  refine (proj1 (proj2 (normalize_idempotent_on_clean_text Clean.plain_line _ _)) _);
    reflexivity.
Defined.

(** C9 as it is stated fails: a path with backslashes has no entity and
    no tag, and the normalization puts a tab and a line break into it. *)
Lemma normalize_changes_escaped_text :
  Clean.entity_free Clean.windows_path = true /\
  Clean.tag_free Clean.windows_path /\
  CoolifyLogs.normalize Clean.windows_path
    = lit "C:" ++ [TAB] ++ lit "emp" ++ [LF] ++ lit "ew" /\
  CoolifyLogs.normalize Clean.windows_path <> Clean.windows_path.
Proof.
  assert (CoolifyLogs.normalize Clean.windows_path
          = lit "C:" ++ [TAB] ++ lit "emp" ++ [LF] ++ lit "ew") as E by reflexivity.
  split; [reflexivity|]. split; [reflexivity|]. split; [exact E|].
  rewrite E. discriminate.
Qed.

(* ================================================================== *)
(** * The rest of the class and the command line: properties *)
(* ================================================================== *)

(** ** The base URL of the constructor *)

Section BaseURLFacts.
Import CoolifyLogs.
Implicit Types (u v : JSString).

Lemma strip_trailing_slash_snoc v x :
  Viewer.strip_trailing_slash (v ++ [x]) = if (x =? chr "/")%N then v else v ++ [x].
Proof.
  induction v as [|y v IH]; [done|].
  change ((y :: v) ++ [x]) with (y :: (v ++ [x])).
  cbn [Viewer.strip_trailing_slash].
  destruct (v ++ [x]) as [|z t] eqn:E; [by destruct v|].
  rewrite IH. by destruct (x =? chr "/")%N.
Qed.

Lemma startsWith_snoc u p x :
  startsWith u p = true -> startsWith (u ++ [x]) p = true.
Proof.
  rewrite !startsWith_spec. intros (rest & ->).
  exists (rest ++ [x]). by rewrite app_assoc.
Qed.

(** The text chosen is never empty. *)
Lemma chosen_baseURL_truthy env arg :
  str_truthy (Viewer.chosen_baseURL env arg) = true.
Proof.
  unfold Viewer.chosen_baseURL, Process.or_else.
  repeat match goal with
  | |- context [match ?o with Some _ => _ | None => _ end] =>
    match o with
    | arg => destruct arg as [?|]
    | _ ?e => destruct o as [?|]
    end
  | |- context [if str_truthy ?x then _ else _] => destruct (str_truthy x) eqn:?
  end; done.
Qed.

Lemma with_protocol_has_protocol u :
  startsWith (Viewer.with_protocol u) (lit "http://")
  || startsWith (Viewer.with_protocol u) (lit "https://") = true.
Proof.
  unfold Viewer.with_protocol.
  destruct (startsWith u (lit "http://")) eqn:E1;
    destruct (startsWith u (lit "https://")) eqn:E2;
    cbn [negb andb]; rewrite ?E1, ?E2; try done.
  apply orb_true_iff. right. apply startsWith_spec. by exists u.
Qed.
End BaseURLFacts.

Lemma startsWith_snoc_inv (v p : JSString) x :
  startsWith (v ++ [x]) p = true -> startsWith v p = true \/ v ++ [x] = p.
Proof.
  rewrite !startsWith_spec. intros (rest & E).
  destruct rest as [|y rest _] using rev_ind.
  - right. by rewrite app_nil_r in E.
  - left. rewrite app_assoc in E. apply app_inj_tail in E as [-> _]. by exists rest.
Qed.

(** The base URL of a new client is the URL chosen, with [https://] put
    before it unless it starts with [http://] or [https://], and with one
    final slash taken off: a URL that ends with a slash loses exactly
    that slash, every other URL is kept.  The base URL ends with a slash
    exactly when that URL ended with two, and it starts with a protocol
    unless that URL was a bare protocol. *)
Theorem new_CoolifyLogs_baseURL (env : Process.Env) (arg : option JSString) :
  let u := Viewer.with_protocol (Viewer.chosen_baseURL env arg) in
  let b := baseURL (Viewer.new_CoolifyLogs env arg) in
  (u = b \/ u = b ++ lit "/") /\
  (last u <> Some (CoolifyLogs.chr "/") -> b = u) /\
  (last u = Some (CoolifyLogs.chr "/") -> u = b ++ lit "/") /\
  (last b = Some (CoolifyLogs.chr "/") <-> exists v, u = v ++ lit "//") /\
  (startsWith b (lit "http://") || startsWith b (lit "https://") = true \/
   u = lit "http://" \/ u = lit "https://").
Proof.
  intros u b. unfold b. cbn [Viewer.new_CoolifyLogs baseURL]. fold u.
  pose proof (with_protocol_has_protocol (Viewer.chosen_baseURL env arg)) as Hp.
  fold u in Hp. clearbody u. clear b.
  destruct u as [|x v _] using rev_ind; [done|].
  rewrite strip_trailing_slash_snoc, last_snoc.
  destruct (x =? CoolifyLogs.chr "/")%N eqn:Ex.
  - apply N.eqb_eq in Ex. subst x. split; [by right|]. split; [done|].
    split; [done|]. split.
    + split.
      * destruct v as [|y v _] using rev_ind; [done|]. rewrite last_snoc.
        intros [= ->]. exists v. by rewrite <- app_assoc.
      * intros (v' & E). change (lit "//") with ([CoolifyLogs.chr "/"] ++ [CoolifyLogs.chr "/"]) in E.
        rewrite app_assoc in E. apply app_inj_tail in E as [-> _]. by rewrite last_snoc.
    + apply orb_true_iff in Hp as [Hp|Hp]; apply startsWith_snoc_inv in Hp as [Hp|Hp].
      * left. by rewrite Hp.
      * right. by left.
      * left. rewrite Hp. apply orb_true_r.
      * right. by right.
  - apply N.eqb_neq in Ex. split; [by left|]. split; [done|].
    split; [by intros [= ->]|]. split.
    + rewrite last_snoc. split; [intros [= ?]; done|].
      intros (v' & E). change (lit "//") with ([CoolifyLogs.chr "/"] ++ [CoolifyLogs.chr "/"]) in E.
      rewrite app_assoc in E. by apply app_inj_tail in E as [_ ->].
    + by left.
Qed.

(** A URL that starts with a protocol and does not end with a slash is
    kept as it is. *)
Theorem new_CoolifyLogs_keeps_normal_url (env : Process.Env) (u : JSString) :
  startsWith u (lit "http://") || startsWith u (lit "https://") = true ->
  last u <> Some (CoolifyLogs.chr "/") ->
  baseURL (Viewer.new_CoolifyLogs env (Some u)) = u /\
  Viewer.new_CoolifyLogs env (Some (baseURL (Viewer.new_CoolifyLogs env (Some u))))
    = Viewer.new_CoolifyLogs env (Some u).
Proof.
  intros Hp Hl.
  assert (baseURL (Viewer.new_CoolifyLogs env (Some u)) = u) as E.
  { cbn [Viewer.new_CoolifyLogs baseURL].
    assert (Viewer.chosen_baseURL env (Some u) = u) as ->.
    { unfold Viewer.chosen_baseURL, Process.or_else.
      destruct u; [done|]. reflexivity. }
    assert (Viewer.with_protocol u = u) as ->.
    { unfold Viewer.with_protocol.
      by destruct (startsWith u (lit "http://")), (startsWith u (lit "https://")). }
    destruct u as [|x v _] using rev_ind; [done|].
    rewrite strip_trailing_slash_snoc. rewrite last_snoc in Hl.
    destruct (x =? CoolifyLogs.chr "/")%N eqn:Ex; [|done].
    apply N.eqb_eq in Ex. by subst x. }
  split; [done|]. by rewrite E.
Qed.

Lemma new_CoolifyLogs_keeps_normal_url_witness :
  baseURL (Viewer.new_CoolifyLogs (Process.mkEnv None None None None None None None)
             (Some Scenario.base)) = Scenario.base.
Proof.
  refine (proj1 (new_CoolifyLogs_keeps_normal_url _ Scenario.base _ _)).
  - reflexivity.
  - simpl. discriminate.
Defined.

(** ** The command [proj/env/app] *)

Section SplitFacts.
Context (sep : N).
Implicit Types (s p : JSString).

Lemma split_nonempty s : Viewer.split sep s <> [].
Proof.
  destruct s as [|x t]; [done|]. simpl.
  destruct (x =? sep)%N; [done|]. by destruct (Viewer.split sep t).
Qed.

Lemma split_cons x t :
  Viewer.split sep (x :: t) =
  if (x =? sep)%N then [] :: Viewer.split sep t
  else match Viewer.split sep t with
       | p :: ps => (x :: p) :: ps
       | [] => [[x]]
       end.
Proof. done. Qed.

(** Joining the parts with the separator gives the text back. *)
Lemma join_split s : join [sep] (Viewer.split sep s) = s.
Proof.
  induction s as [|x t IH]; [done|]. rewrite split_cons.
  destruct (x =? sep)%N eqn:Ex.
  - apply N.eqb_eq in Ex. subst x.
    pose proof (split_nonempty t) as Hne.
    destruct (Viewer.split sep t) as [|p ps]; [done|].
    cbn [join]. simpl. by rewrite <- IH.
  - pose proof (split_nonempty t) as Hne.
    destruct (Viewer.split sep t) as [|p ps]; [done|].
    rewrite <- IH. by destruct ps.
Qed.

(** No part holds the separator. *)
Lemma split_parts s : Forall (fun p => sep ∉ p) (Viewer.split sep s).
Proof.
  induction s as [|x t IH]; [repeat constructor; set_solver|].
  rewrite split_cons. destruct (x =? sep)%N eqn:Ex.
  - constructor; [set_solver|done].
  - apply N.eqb_neq in Ex.
    destruct (Viewer.split sep t) as [|p ps]; [repeat constructor; set_solver|].
    inversion IH; subst. constructor; [set_solver|done].
Qed.

Lemma split_app p rest :
  sep ∉ p -> Viewer.split sep (p ++ sep :: rest) = p :: Viewer.split sep rest.
Proof.
  induction p as [|x p IH]; intros Hp.
  - simpl. by rewrite N.eqb_refl.
  - change ((x :: p) ++ sep :: rest) with (x :: (p ++ sep :: rest)).
    rewrite split_cons, IH by set_solver.
    replace (x =? sep)%N with false; [done|].
    symmetry. apply N.eqb_neq. set_solver.
Qed.

Lemma split_whole p : sep ∉ p -> Viewer.split sep p = [p].
Proof.
  induction p as [|x p IH]; intros Hp; [done|].
  rewrite split_cons, IH by set_solver.
  replace (x =? sep)%N with false; [done|].
  symmetry. apply N.eqb_neq. set_solver.
Qed.
End SplitFacts.

(** A command gives the three identifiers exactly when it is three texts
    without a slash, set apart by two slashes; every other command gives
    none.  The identifiers are then these three texts, which may be
    empty. *)
Theorem command_ids_three_parts (command : JSString) :
  (forall p e a,
     Viewer.command_ids command = (Some p, Some e, Some a) <->
     command = p ++ lit "/" ++ e ++ lit "/" ++ a /\
     (CoolifyLogs.chr "/" ∉ p) /\ (CoolifyLogs.chr "/" ∉ e) /\ (CoolifyLogs.chr "/" ∉ a)) /\
  (Viewer.command_ids command = (None, None, None) \/
   exists p e a, Viewer.command_ids command = (Some p, Some e, Some a)).
Proof.
  split.
  - intros p e a. split.
    + unfold Viewer.command_ids.
      destruct (str_truthy command && includes command (lit "/")); [|done].
      pose proof (join_split (CoolifyLogs.chr "/") command) as Hj.
      pose proof (split_parts (CoolifyLogs.chr "/") command) as Hp.
      destruct (Viewer.split (CoolifyLogs.chr "/") command) as [|p' [|e' [|a' [|? ?]]]];
        try done.
      intros [= -> -> ->]. split; [by rewrite <- Hj|].
      inversion Hp as [|? ? ? Hp1]; subst. inversion Hp1 as [|? ? ? Hp2]; subst.
      inversion Hp2; subst. done.
    + intros (-> & Hp & He & Ha). unfold Viewer.command_ids.
      assert (str_truthy (p ++ lit "/" ++ e ++ lit "/" ++ a) = true) as ->
        by (by destruct p).
      assert (includes (p ++ lit "/" ++ e ++ lit "/" ++ a) (lit "/") = true) as ->.
      { apply includes_spec. exists (length p). split.
        - rewrite length_app. lia.
        - rewrite drop_app_length. apply startsWith_spec. by eexists. }
      cbn [andb]. change (p ++ lit "/" ++ e ++ lit "/" ++ a)
        with (p ++ CoolifyLogs.chr "/" :: (e ++ CoolifyLogs.chr "/" :: a)).
      by rewrite !split_app, split_whole.
  - unfold Viewer.command_ids.
    destruct (str_truthy command && includes command (lit "/")); [|by left].
    destruct (Viewer.split (CoolifyLogs.chr "/") command) as [|p' [|e' [|a' [|? ?]]]];
      try (by left).
    right. by exists p', e', a'.
Qed.

(** ** [getDeploymentDetails] *)

Section DetailsFacts.
Import CoolifyLogs.
Context `{Runtime} (server : Server).

(** One of several literals. *)
Lemma Matches_Alts_Str (words : list JSString) s c s' c' :
  Matches false (Alts (Str <$> words)) s c s' c' ->
  exists w, w ∈ words /\ s = w ++ s' /\ c' = c.
Proof.
  induction words as [|w [|w' words] IH]; simpl.
  - by intros (y & _ & Hy & _)%Matches_Class_iff.
  - intros [-> ->]%Matches_Str_iff. exists w. by split; [left|].
  - intros [[-> ->]%Matches_Str_iff|HM]%Matches_Alt_iff.
    + exists w. by split; [left|].
    + destruct (IH HM) as (x & Hx & -> & ->). exists x. by split; [right|].
Qed.

Lemma Alts_Str_Matches (words : list JSString) w s' c :
  w ∈ words -> Matches false (Alts (Str <$> words)) (w ++ s') c s' c.
Proof.
  induction words as [|w0 [|w' words] IH]; simpl.
  - by intros ?%elem_of_nil.
  - intros ->%list_elem_of_singleton. by apply Matches_Str_iff.
  - intros [->|Hw]%elem_of_cons; apply Matches_Alt_iff.
    + left. by apply Matches_Str_iff.
    + right. by apply IH.
Qed.

(** The details of a page of text. *)
Lemma getDeploymentDetails_text fuel deploymentId w res w' t :
  request server fuel
    (application_url (session w) ++ lit "/deployment/" ++ deploymentId) no_options w
    = Returned res w' ->
  body res = JStr t ->
  Viewer.getDeploymentDetails server fuel deploymentId w =
  Returned
    (Viewer.mkDetails deploymentId
       (application_url (session w) ++ lit "/deployment/" ++ deploymentId)
       (str_match Viewer.re_status t)
       (m_text <$> str_match Viewer.re_status t)
       (capture 1 <$> str_match Viewer.re_started t)
       (capture 1 <$> str_match Viewer.re_ended t)) w'.
Proof.
  intros Hr Hb.
  unfold Viewer.getDeploymentDetails, mbind, M_bind, bind, get_session, lift.
  cbn beta. rewrite Hr, Hb. reflexivity.
Qed.

(** A page that is not text has no [match]: the call throws. *)
Lemma getDeploymentDetails_not_text fuel deploymentId w res w' :
  request server fuel
    (application_url (session w) ++ lit "/deployment/" ++ deploymentId) no_options w
    = Returned res w' ->
  (forall t, body res <> JStr t) ->
  Viewer.getDeploymentDetails server fuel deploymentId w = Thrown TypeError w'.
Proof.
  intros Hr Hb.
  unfold Viewer.getDeploymentDetails, mbind, M_bind, bind, get_session, lift.
  cbn beta. rewrite Hr. destruct (body res) eqn:E; try done. by destruct (Hb s).
Qed.

(** The status: the leftmost of the four words in the page. *)
Lemma status_leftmost t :
  match str_match Viewer.re_status t with
  | Some m =>
    m_text m ∈ Viewer.status_words /\
    startsWith (drop (m_index m) t) (m_text m) = true /\
    forall j word, j < m_index m -> word ∈ Viewer.status_words ->
                   startsWith (drop j t) word = false
  | None => forall word, word ∈ Viewer.status_words -> includes t word = false
  end.
Proof.
  destruct (str_match Viewer.re_status t) as [m|] eqn:E.
  - apply str_match_leftmost in E as [(t' & Hm & Ht) Hbefore].
    apply match_here_Some in Hm. cbn [source ignoreCase Viewer.re_status] in Hm.
    apply Matches_Alts_Str in Hm as (w & Hw & Hd & _).
    assert (m_text m = w) as ->.
    { rewrite Ht, Hd. apply take_consumed. }
    split; [done|]. split; [apply startsWith_spec; by exists t'|].
    intros j word Hj Hword. apply not_true_is_false.
    intros (rest & Hrest)%startsWith_spec.
    eapply (match_here_None Viewer.re_status); [by apply Hbefore|].
    cbn [source ignoreCase Viewer.re_status]. rewrite Hrest.
    by apply Alts_Str_Matches.
  - intros word Hword. apply not_true_is_false.
    intros (j & Hj & (rest & Hrest)%startsWith_spec)%includes_spec.
    unfold str_match in E. rewrite search_None in E.
    eapply (match_here_None Viewer.re_status); [by apply E|].
    cbn [source ignoreCase Viewer.re_status]. rewrite Hrest.
    by apply Alts_Str_Matches.
Qed.
End DetailsFacts.

(** The status of the details of a page of text is the word among
    [Success], [Failed], [Running] and [Pending] that comes first in the
    page, wherever it stands, and [null] exactly when the page holds none
    of the four. *)
Theorem details_status_is_first_word `{Runtime} (server : Server)
    fuel deploymentId w res w' t :
  CoolifyLogs.request server fuel
    (CoolifyLogs.application_url (session w) ++ lit "/deployment/" ++ deploymentId)
    no_options w = Returned res w' ->
  body res = JStr t ->
  exists d,
    Viewer.getDeploymentDetails server fuel deploymentId w = Returned d w' /\
    Viewer.id d = deploymentId /\
    Viewer.url d =
      CoolifyLogs.application_url (session w) ++ lit "/deployment/" ++ deploymentId /\
    match Viewer.status d with
    | Some word =>
      word ∈ Viewer.status_words /\
      exists p, startsWith (drop p t) word = true /\
                forall j other, j < p -> other ∈ Viewer.status_words ->
                                startsWith (drop j t) other = false
    | None => forall word, word ∈ Viewer.status_words -> includes t word = false
    end.
Proof.
  intros Hr Hb. eexists. split; [by apply (getDeploymentDetails_text _ _ _ _ res)|].
  cbn [Viewer.id Viewer.url Viewer.status]. split; [done|]. split; [done|].
  pose proof (status_leftmost t) as Hs.
  destruct (str_match Viewer.re_status t) as [m|]; cbn [fmap option_fmap option_map].
  - destruct Hs as (Hw & Hp & Hbefore). split; [done|]. by exists (m_index m).
  - done.
Qed.

(** ** A greedy run of a character class *)

Section GreedyRun.
Context {A : Type} (ic : bool) (p : N -> bool).
Implicit Types (k : @Kont A) (s : JSString) (c : Caps).

Lemma rep_loop_S step g fuel lo hi s c k :
  rep_loop step g (S fuel) lo hi s c k =
  let again :=
    match hi with
    | Some 0 => None
    | _ => step s c (fun s1 c1 =>
             if length s1 <? length s
             then rep_loop step g fuel (pred lo) (pred <$> hi) s1 c1 k
             else None)
    end in
  let stop := match lo with 0 => k s c | S _ => None end in
  if g
  then match again with Some a => Some a | None => stop end
  else match stop with Some a => Some a | None => again end.
Proof. reflexivity. Qed.

(** With nothing more required and a continuation that takes whatever
    is left, a greedy run does not fail. *)
Lemma greedy_run_total step fuel hi s c k :
  (forall s1 c1, is_Some (k s1 c1)) ->
  is_Some (rep_loop step true (S fuel) 0 hi s c k).
Proof.
  intros Hk. rewrite rep_loop_S. cbn zeta.
  destruct (match hi with Some 0 => None | _ => step s c _ end) as [a|];
    [by eexists|]. apply Hk.
Qed.

Lemma class_step_cons y t c k :
  rmatch ic (Class p) (y :: t) c k = if p y then k t c else None.
Proof. reflexivity. Qed.

Lemma class_step_nil c k : rmatch ic (Class p) [] c k = None.
Proof. reflexivity. Qed.

(** With such a continuation, a greedy run of a class takes every
    character of the class there is, up to its bound: what it leaves is
    empty or starts with a character outside the class, unless the bound
    is reached. *)
Lemma greedy_run_maximal s : forall fuel lo hi c k a,
  (forall s1 c1, is_Some (k s1 c1)) -> length s < fuel ->
  rep_loop (rmatch ic (Class p)) true fuel lo hi s c k = Some a ->
  exists w s', s = w ++ s' /\ Forall (fun y => p y = true) w /\ lo <= length w /\
               (forall h, hi = Some h -> length w <= h) /\
               ((forall y t, s' = y :: t -> p y = false) \/ hi = Some (length w)) /\
               k s' c = Some a.
Proof.
  assert (Stop : forall s lo hi c k a,
            match hi with Some 0 => True | _ => forall y t, s = y :: t -> p y = false end ->
            match lo with 0 => k s c | S _ => None end = Some a ->
            exists w s', s = w ++ s' /\ Forall (fun y => p y = true) w /\ lo <= length w /\
               (forall h, hi = Some h -> length w <= h) /\
               ((forall y t, s' = y :: t -> p y = false) \/ hi = Some (length w)) /\
               k s' c = Some a).
  { intros s0 lo hi c k a Hhi Hs. destruct lo as [|lo]; [|done].
    exists [], s0. split; [done|]. split; [done|]. split; [simpl; lia|].
    split; [intros; simpl; lia|]. split; [|done].
    destruct hi as [[|h]|]; [by right|by left..]. }
  induction s as [|y t IH]; intros fuel lo hi c k a Hk Hfuel Hr;
    (destruct fuel as [|fuel]; [simpl in Hfuel; lia|]);
    rewrite rep_loop_S in Hr; cbn zeta in Hr.
  - apply Stop; [by destruct hi as [[|h]|]|].
    rewrite class_step_nil in Hr. by destruct hi as [[|h]|].
  - rewrite class_step_cons in Hr.
    destruct (decide (hi = Some 0)) as [->|Hhi]; [by apply Stop|].
    assert (match hi with
            | Some 0 => None
            | _ => if p y
                   then if length t <? length (y :: t)
                        then rep_loop (rmatch ic (Class p)) true fuel (pred lo)
                               (pred <$> hi) t c k
                        else None
                   else None
            end =
            if p y then rep_loop (rmatch ic (Class p)) true fuel (pred lo) (pred <$> hi) t c k
            else None) as E.
    { replace (length t <? length (y :: t)) with true
        by (symmetry; apply Nat.ltb_lt; simpl; lia).
      by destruct hi as [[|h]|]. }
    rewrite E in Hr. clear E.
    destruct (p y) eqn:Hy.
    + destruct fuel as [|fuel]; [simpl in Hfuel; lia|].
      destruct (rep_loop (rmatch ic (Class p)) true (S fuel) (pred lo) (pred <$> hi) t c k)
        as [a'|] eqn:Ha'.
      * injection Hr as ->.
        apply IH in Ha' as (w & s' & -> & Hw & Hlo & Hh & Hmax & Ha);
          [|done|simpl in *; lia].
        exists (y :: w), s'. split; [done|]. split; [by constructor|].
        split; [simpl; lia|]. split.
        { intros h ->. destruct h as [|h]; [done|]. specialize (Hh h eq_refl). simpl. lia. }
        split; [|done].
        destruct Hmax as [Hmax|Hmax]; [by left|]. right.
        destruct hi as [[|h]|]; simpl in *; congruence.
      * destruct lo as [|lo]; [|done]. exfalso.
        destruct (greedy_run_total (rmatch ic (Class p)) fuel (pred <$> hi) t c k Hk)
          as [x Hx].
        change (Init.Nat.pred 0) with 0 in Ha'. congruence.
    + apply Stop; [|done]. destruct hi as [[|h]|]; [done|..];
        by intros ? ? [= <- <-].
Qed.
End GreedyRun.

Section StampFacts.
Import CoolifyLogs.

(** A time stamp: the label, white space, and then everything up to the
    next opening bracket or the end of the page. *)
Lemma stamp_found label t m :
  found_at (Viewer.re_stamp label) t m ->
  exists ws v rest,
    t = lit label ++ ws ++ v ++ rest /\
    Forall (fun y => white_space y = true) ws /\
    v <> [] /\ Forall (fun y => y <> chr "<") v /\
    (forall y r, rest = y :: r -> y = chr "<") /\
    capture 1 m = v.
Proof.
  intros (t' & Hm & _). unfold match_here in Hm.
  cbn [source ignoreCase Viewer.re_stamp] in Hm. unfold Seq in Hm. cbn [foldr] in Hm.
  cbn [rmatch] in Hm.
  apply rmatch_sound in Hm as (s1 & c1 & [-> ->]%Matches_Str_iff & Hm).
  apply rmatch_sound in Hm as (s2 & c2 & (ws & -> & _ & _ & Hws & ->)%Matches_Rep_Class & Hm).
  cbn [rmatch] in Hm.
  apply greedy_run_maximal in Hm as (v & rest & -> & Hv & Hlen & _ & [Hrest|?] & Hk);
    [| done |by eexists|lia].
  inversion Hk as [[Ht' Hg]]. subst t'.
  exists ws, v, rest. split; [done|]. split; [done|]. split.
  { intros ->. simpl in Hlen. lia. }
  split.
  { eapply Forall_impl; [exact Hv|]. intros y Hy ->. done. }
  split.
  { intros y r -> . specialize (Hrest y r eq_refl).
    unfold not_char in Hrest. by apply negb_false_iff, N.eqb_eq in Hrest. }
  unfold capture, group. rewrite <- Hg, lookup_insert_eq. simpl. apply take_consumed.
Qed.

(** The pattern of a time stamp matches where the label stands before a
    character that is not an opening bracket. *)
Lemma stamp_match_here label t :
  is_Some (match_here (Viewer.re_stamp label) t) <->
  exists y rest, t = lit label ++ y :: rest /\ y <> chr "<".
Proof.
  split.
  - intros [[t' caps] Hm].
    destruct (stamp_found label t (mkMatch 0 (take (length t - length t') t) caps))
      as (ws & v & rest & -> & Hws & Hv & Hlt & _); [by exists t'|].
    destruct ws as [|y ws].
    + destruct v as [|y v]; [done|]. inversion Hlt; subst. by exists y, (v ++ rest).
    + inversion Hws; subst. exists y, (ws ++ v ++ rest). split; [done|]. by intros ->.
  - intros (y & rest & -> & Hy).
    apply (match_here_is_Some (Viewer.re_stamp label) _ rest
             (<[1 := [y]]> ∅)).
    cbn [source ignoreCase Viewer.re_stamp]. unfold Seq. cbn [foldr].
    apply Matches_Cat_iff. exists (y :: rest), ∅. split; [by apply Matches_Str_iff|].
    apply Matches_Cat_iff. exists (y :: rest), ∅. split; [constructor|].
    apply Matches_Cat_iff. exists rest, (<[1 := [y]]> ∅). split; [|constructor].
    apply Matches_Grp_iff. exists ∅. split.
    + apply Matches_Rep_Class. exists [y]. split; [done|]. split; [simpl; lia|].
      split; [done|]. split; [|done]. constructor; [|done].
      unfold not_char. by apply negb_true_iff, N.eqb_neq.
    + simpl. replace (S (length rest) - length rest) with 1 by lia. done.
Qed.

Lemma stamp_leftmost label t :
  match str_match (Viewer.re_stamp label) t with
  | Some m =>
    exists ws v rest,
      drop (m_index m) t = lit label ++ ws ++ v ++ rest /\
      Forall (fun y => white_space y = true) ws /\
      v <> [] /\ Forall (fun y => y <> chr "<") v /\
      (forall y r, rest = y :: r -> y = chr "<") /\
      capture 1 m = v
  | None => forall y, y <> chr "<" -> includes t (lit label ++ [y]) = false
  end.
Proof.
  destruct (str_match (Viewer.re_stamp label) t) as [m|] eqn:E.
  - apply str_match_found in E. by apply stamp_found.
  - intros y Hy. apply not_true_is_false.
    intros (j & Hj & (rest & Hrest)%startsWith_spec)%includes_spec.
    unfold str_match in E. rewrite search_None in E. specialize (E j Hj).
    assert (is_Some (match_here (Viewer.re_stamp label) (drop j t))) as [x Hx].
    { apply stamp_match_here. exists y, rest. split; [|done].
      rewrite Hrest. by rewrite <- app_assoc. }
    congruence.
Qed.
End StampFacts.

(** The start and the end of the deployment, in the details of a page of
    text: the text after [Started:] (or [Ended:]) and the white space
    behind it, up to the next opening bracket or the end of the page.  It
    is not empty and holds no opening bracket; it is [null] exactly when
    the label stands nowhere before a character other than an opening
    bracket. *)
Theorem details_stamp_runs_to_next_tag `{Runtime} (server : Server)
    fuel deploymentId w res w' t :
  CoolifyLogs.request server fuel
    (CoolifyLogs.application_url (session w) ++ lit "/deployment/" ++ deploymentId)
    no_options w = Returned res w' ->
  body res = JStr t ->
  exists d,
    Viewer.getDeploymentDetails server fuel deploymentId w = Returned d w' /\
    let stamp label (value : option JSString) :=
      match value with
      | Some v =>
        v <> [] /\ Forall (fun y => y <> CoolifyLogs.chr "<") v /\
        exists p ws rest,
          drop p t = lit label ++ ws ++ v ++ rest /\
          Forall (fun y => white_space y = true) ws /\
          (forall y r, rest = y :: r -> y = CoolifyLogs.chr "<")
      | None =>
        forall y, y <> CoolifyLogs.chr "<" -> includes t (lit label ++ [y]) = false
      end in
    stamp "Started:"%string (Viewer.startedAt d) /\
    stamp "Ended:"%string (Viewer.endedAt d).
Proof.
  intros Hr Hb. eexists. split; [by apply (getDeploymentDetails_text _ _ _ _ res)|].
  cbn [Viewer.startedAt Viewer.endedAt]. cbn zeta.
  pose proof (stamp_leftmost "Started:" t) as Hs.
  pose proof (stamp_leftmost "Ended:" t) as He.
  unfold Viewer.re_started, Viewer.re_ended.
  split.
  - destruct (str_match (Viewer.re_stamp "Started:") t) as [m|];
      cbn [fmap option_fmap option_map]; [|done].
    destruct Hs as (ws & v & rest & Hd & Hws & Hv & Hlt & Hrest & ->).
    split; [done|]. split; [done|]. by exists (m_index m), ws, rest.
  - destruct (str_match (Viewer.re_stamp "Ended:") t) as [m|];
      cbn [fmap option_fmap option_map]; [|done].
    destruct He as (ws & v & rest & Hd & Hws & Hv & Hlt & Hrest & ->).
    split; [done|]. split; [done|]. by exists (m_index m), ws, rest.
Qed.

(** ** What the normalization leaves of the markup *)

Section StripFacts.
Import CoolifyLogs Clean.
Implicit Types (s t : JSString).

(** Where a tag starts, the replacement goes on behind it. *)
Lemma strip_tag_here a t :
  tag_here (a :: t) = true ->
  exists s', length s' <= length t /\ (forall x, x ∈ s' -> x ∈ t) /\
             replace re_tag [] (a :: t) = replace re_tag [] s'.
Proof.
  intros [[s' c] Hm]%match_here_tag.
  pose proof (match_here_Some _ _ _ _ Hm) as HM.
  pose proof (Matches_min_len _ _ _ _ _ _ HM) as Hmin.
  destruct (Matches_app _ _ _ _ _ _ HM) as [w Hw].
  cbn [source re_tag] in Hmin. simpl in Hmin.
  destruct w as [|a' w]; [simpl in Hw; subst s'; simpl in Hmin; lia|].
  injection Hw as Ha Ht. subst a' t.
  exists s'. split; [rewrite length_app; lia|]. split; [set_solver|].
  rewrite (replace_match re_tag [] a (w ++ s') s' c (length w) Hm).
  - by rewrite drop_app_length.
  - simpl. rewrite length_app. lia.
  - rewrite length_app. lia.
Qed.

Lemma strip_no_tag_here a t :
  tag_here (a :: t) = false ->
  replace re_tag [] (a :: t) = a :: replace re_tag [] t.
Proof.
  intros Ht. apply replace_pass.
  destruct (match_here re_tag (a :: t)) eqn:E; [|done].
  assert (tag_here (a :: t) = true) by (apply match_here_tag; eauto). congruence.
Qed.

Lemma strip_length_ind (Q : JSString -> Prop) :
  (forall s, (forall s', length s' < length s -> Q s') -> Q s) -> forall s, Q s.
Proof.
  intros Hstep s. remember (length s) as n eqn:Hn. revert s Hn.
  induction n as [n IH] using lt_wf_ind. intros s ->.
  apply Hstep. intros s' Hlt. by apply (IH (length s')).
Qed.

(** The replacement adds no character. *)
Lemma strip_elem x s : x ∈ replace re_tag [] s -> x ∈ s.
Proof.
  induction s as [s IH] using strip_length_ind.
  destruct s as [|a t]; [done|].
  destruct (tag_here (a :: t)) eqn:Ht.
  - destruct (strip_tag_here a t Ht) as (s' & Hlen & Hsub & ->).
    intros Hx. right. apply Hsub, IH; [simpl; lia|done].
  - rewrite strip_no_tag_here by done.
    intros [->|Hx]%elem_of_cons; [by left|]. right. apply IH; [simpl; lia|done].
Qed.

(** What is left holds no tag. *)
Lemma strip_has_no_tag s : has_tag (replace re_tag [] s) = false.
Proof.
  induction s as [s IH] using strip_length_ind.
  destruct s as [|a t]; [done|].
  destruct (tag_here (a :: t)) eqn:Ht.
  - destruct (strip_tag_here a t Ht) as (s' & Hlen & _ & ->).
    apply IH. simpl. lia.
  - rewrite strip_no_tag_here by done. cbn [has_tag].
    rewrite (IH t) by (simpl; lia). rewrite orb_false_r.
    apply not_true_is_false. intros Hnew.
    destruct (replace re_tag [] t) as [|y rest] eqn:Er; [done|].
    cbn [tag_here] in Hnew.
    apply andb_true_iff in Hnew as [[Ha Hy]%andb_true_iff Hin%bool_decide_eq_true].
    assert (chr ">" ∈ t) as Hgt.
    { apply strip_elem. rewrite Er. by right. }
    destruct t as [|b t']; [by apply elem_of_nil in Hgt|].
    cbn [tag_here] in Ht. rewrite Ha in Ht. cbn [andb] in Ht.
    destruct (b =? chr ">")%N eqn:Eb.
    + apply N.eqb_eq in Eb. subst b.
      rewrite strip_no_tag_here in Er by (by destruct t').
      injection Er as <- _. done.
    + cbn [negb andb] in Ht. apply bool_decide_eq_false in Ht.
      apply N.eqb_neq in Eb. apply elem_of_cons in Hgt as [?|?]; [congruence|done].
Qed.
End StripFacts.

(** The text [getDeploymentLogs] returns holds no tag: whatever the page,
    no opening bracket of it is followed by a character other than the
    closing bracket and, further on, by a closing bracket.  This holds of
    every text the normalization gives, and of that of [view-logs.js]. *)
Theorem extracted_text_has_no_tag `{Runtime} :
  (forall page text,
     CoolifyLogs.extract page = Ok (Some text) ->
     Clean.tag_free text /\ Clean.has_tag text = false) /\
  (forall s, Clean.tag_free (CoolifyLogs.normalize s)) /\
  (forall s, Clean.tag_free (Legacy.normalize s)).
Proof.
  assert (forall s, Clean.tag_free (CoolifyLogs.normalize s)) as Hn.
  { intros s. apply tag_free_spec. unfold CoolifyLogs.normalize. apply strip_has_no_tag. }
  assert (forall s, Clean.tag_free (Legacy.normalize s)) as Hl.
  { intros s. apply tag_free_spec. unfold Legacy.normalize. apply strip_has_no_tag. }
  split; [|by split].
  intros page text He. unfold CoolifyLogs.extract in He.
  destruct (CoolifyLogs.cascade page) as [st|e]; [|done]. cbn in He.
  destruct (CoolifyLogs.logFound st && ToBoolean (CoolifyLogs.logsContent st)); [|done].
  destruct (ToString _) as [raw|e]; [|done]. cbn in He.
  injection He as <-. split; [apply Hn|]. apply tag_free_spec, Hn.
Qed.

Lemma extracted_text_has_no_tag_witness :
  let rt := Scenario.runtime [] in
  Clean.tag_free LogPages.pre_log.
Proof.
  intros rt.
  apply (proj1 (@extracted_text_has_no_tag rt) (JStr LogPages.pre_page) LogPages.pre_log).
  reflexivity.
Defined.

(** ** The decoding of the snapshot against the escaping *)

Section DecodeFacts.
Import CoolifyLogs.
Implicit Types (s rest : JSString).

Lemma escape_in_cons escaped x s :
  Html.escape_in escaped (x :: s) =
  (if bool_decide (x ∈ escaped) then Html.entity_of x else [x]) ++ Html.escape_in escaped s.
Proof. reflexivity. Qed.

(** A character that does not start the literal is kept. *)
Lemma replace_literal_other p0 p by_ y rest :
  y <> p0 ->
  replace (re_literal (p0 :: p)) by_ (y :: rest) = y :: replace (re_literal (p0 :: p)) by_ rest.
Proof.
  intros Hy. apply replace_pass. rewrite match_here_literal. cbn [startsWith].
  replace (p0 =? y)%N with false; [done|]. symmetry. apply N.eqb_neq. congruence.
Qed.

(** The literal at the head of the text is replaced. *)
Lemma replace_literal_head p0 p by_ rest :
  replace (re_literal (p0 :: p)) by_ ((p0 :: p) ++ rest)
  = by_ ++ replace (re_literal (p0 :: p)) by_ rest.
Proof.
  assert (match_here (re_literal (p0 :: p)) (p0 :: p ++ rest) = Some (rest, ∅)) as Hm.
  { rewrite match_here_literal.
    assert (startsWith (p0 :: p ++ rest) (p0 :: p) = true) as ->
      by (apply startsWith_spec; by exists rest).
    change (p0 :: p ++ rest) with ((p0 :: p) ++ rest). by rewrite drop_app_length. }
  change ((p0 :: p) ++ rest) with (p0 :: p ++ rest).
  rewrite (replace_match _ by_ p0 (p ++ rest) rest ∅ (length p) Hm).
  - by rewrite drop_app_length.
  - simpl. rewrite length_app. lia.
  - rewrite length_app. lia.
Qed.
End DecodeFacts.

Section DecodePasses.
Import CoolifyLogs.
Implicit Types (s rest : JSString).

Lemma replace_literal_skip p by_ y rest :
  startsWith (y :: rest) p = false ->
  replace (re_literal p) by_ (y :: rest) = y :: replace (re_literal p) by_ rest.
Proof.
  intros Hs. apply replace_pass. by rewrite match_here_literal, Hs.
Qed.

Lemma replace_literal_at p by_ rest :
  p <> [] ->
  replace (re_literal p) by_ (p ++ rest) = by_ ++ replace (re_literal p) by_ rest.
Proof.
  destruct p as [|p0 p]; [done|]. intros _. apply replace_literal_head.
Qed.

Lemma not_escaped x (escaped : list N) :
  x ∉ escaped -> bool_decide (x ∈ escaped) = false.
Proof. intros Hx. by apply bool_decide_eq_false. Qed.

Lemma not_ampersand_skip x p rest :
  x <> chr "&" -> startsWith (x :: rest) (chr "&" :: p) = false.
Proof.
  intros Hx. cbn [startsWith]. replace (chr "&" =? x)%N with false; [done|].
  symmetry. apply N.eqb_neq. congruence.
Qed.

Ltac split_char x :=
  destruct (decide (x = DQUOTE)) as [->|?];
  [|destruct (decide (x = chr "<")) as [->|?];
    [|destruct (decide (x = chr ">")) as [->|?];
      [|destruct (decide (x = chr "&")) as [->|?]]]].

Ltac decode_step IH :=
  rewrite !escape_in_cons;
  repeat match goal with
  | |- context [bool_decide (?a ∈ ?l)] =>
    first [ rewrite (not_escaped a l) by set_solver
          | let b := eval vm_compute in (bool_decide (a ∈ l)) in
            change (bool_decide (a ∈ l)) with b ]
  end;
  cbn iota;
  repeat match goal with
  | |- context [Html.entity_of ?a] =>
    let e := eval vm_compute in (Html.entity_of a) in
    change (Html.entity_of a) with e
  end;
  first
  [ match goal with
    | |- context [replace (re_literal ?p) ?b (?e ++ ?r)] =>
      change (e ++ r) with (p ++ r); rewrite (replace_literal_at p b r) by done
    end;
    rewrite IH; reflexivity
  | cbn [app];
    repeat (rewrite replace_literal_skip by reflexivity);
    rewrite IH; reflexivity
  | cbn [app]; rewrite replace_literal_skip by (by apply not_ampersand_skip);
    rewrite IH; reflexivity ].

Lemma decode_pass_quot s :
  replace (re_literal (lit "&quot;")) [DQUOTE]
    (Html.escape_in [DQUOTE; chr "<"; chr ">"; chr "&"] s)
  = Html.escape_in [chr "<"; chr ">"; chr "&"] s.
Proof.
  induction s as [|x s IH]; [reflexivity|].
  split_char x; decode_step IH.
Qed.

Lemma decode_pass_lt s :
  replace (re_literal (lit "&lt;")) (lit "<") (Html.escape_in [chr "<"; chr ">"; chr "&"] s)
  = Html.escape_in [chr ">"; chr "&"] s.
Proof.
  induction s as [|x s IH]; [reflexivity|].
  split_char x; decode_step IH.
Qed.

Lemma decode_pass_gt s :
  replace (re_literal (lit "&gt;")) (lit ">") (Html.escape_in [chr ">"; chr "&"] s)
  = Html.escape_in [chr "&"] s.
Proof.
  induction s as [|x s IH]; [reflexivity|].
  split_char x; decode_step IH.
Qed.

Lemma decode_pass_amp s :
  replace (re_literal (lit "&amp;")) (lit "&") (Html.escape_in [chr "&"] s)
  = Html.escape_in [] s.
Proof.
  induction s as [|x s IH]; [reflexivity|].
  split_char x; decode_step IH.
Qed.

Lemma escape_in_nil s : Html.escape_in [] s = s.
Proof.
  induction s as [|x s IH]; [reflexivity|].
  rewrite escape_in_cons, IH. reflexivity.
Qed.
End DecodePasses.

(** The decoding of the snapshot attribute undoes the escaping of the
    double quote, the two angle brackets and the ampersand: a text in
    which these four characters stand as [&quot;], [&lt;], [&gt;] and
    [&amp;] is decoded to the text itself, whatever it holds (an
    ampersand before [lt;] stays what it was). *)
Theorem decode_snapshot_undoes_escape (s : JSString) :
  CoolifyLogs.decode_snapshot (Html.escape s) = s.
Proof.
  unfold CoolifyLogs.decode_snapshot, Html.escape.
  rewrite decode_pass_quot.
  rewrite decode_pass_lt, decode_pass_gt, decode_pass_amp.
  apply escape_in_nil.
Qed.

(** ** What [request] leaves alone *)

Section FrameFacts.
Import CoolifyLogs.
Context `{Runtime} (server : Server).

Lemma capture_cookies_identity res s :
  Observe.identity (capture_cookies res s) = Observe.identity s.
Proof. unfold capture_cookies. by destruct (set_cookie res). Qed.

Lemma request_identity fuel : forall url options w,
  Observe.identity (session (Observe.world_of (request server fuel url options w)))
  = Observe.identity (session w).
Proof.
  induction fuel as [|fuel IH]; intros url options w; [done|].
  rewrite request_S. cbn zeta.
  destruct (server _) as [res|code]; [|done].
  destruct (is_redirect res).
  - rewrite IH. simpl. apply capture_cookies_identity.
  - simpl. apply capture_cookies_identity.
Qed.

Lemma request_keeps fuel url options w :
  let w' := Observe.world_of (request server fuel url options w) in
  baseURL (session w') = baseURL (session w) /\
  csrfToken (session w') = csrfToken (session w) /\
  projectId (session w') = projectId (session w) /\
  environmentId (session w') = environmentId (session w) /\
  applicationId (session w') = applicationId (session w).
Proof.
  intros w'. pose proof (request_identity fuel url options w) as Hid.
  fold w' in Hid. clearbody w'. unfold Observe.identity in Hid.
  by injection Hid as -> -> -> -> ->.
Qed.

(** The first request of a call is the one asked for, with the headers
    of the session as it stands. *)
Lemma request_first_sent fuel : forall url options w,
  exists later,
    sent (Observe.world_of (request server (S fuel) url options w))
    = later ++ outgoing (session w) url options :: sent w.
Proof.
  intros url options w. rewrite request_S. cbn zeta.
  destruct (server _) as [res|code]; [|by exists []].
  destruct (is_redirect res); [|by exists []].
  match goal with
  | |- context [request server fuel ?u options ?w2] =>
    destruct (request_sent server fuel u options w2) as [later Hl]
  end.
  exists later. unfold Scenario.sent_by in Hl.
  unfold Observe.world_of.
  destruct (request server fuel _ options _); exact Hl.
Qed.
End FrameFacts.

(** [request] writes the cookies of the session and nothing else of it:
    the base URL, the token and the three identifiers are after the call
    what they were before, however many redirects were followed and
    however the call ends.  And the response it resolves to is never a
    redirect it would follow: its status is outside 300..399 or it has no
    [Location]. *)
Theorem request_writes_cookies_only `{Runtime} (server : Server) fuel url options w :
  let w' := Observe.world_of (CoolifyLogs.request server fuel url options w) in
  baseURL (session w') = baseURL (session w) /\
  csrfToken (session w') = csrfToken (session w) /\
  projectId (session w') = projectId (session w) /\
  environmentId (session w') = environmentId (session w) /\
  applicationId (session w') = applicationId (session w) /\
  (exists later, sent w' = later ++ sent w) /\
  (forall res w1,
     CoolifyLogs.request server fuel url options w = Returned res w1 ->
     ~ ((300 <= status res < 400)%Z /\
        exists l, location (headers res) = Some l /\ l <> [])).
Proof.
  intros w'. pose proof (request_identity server fuel url options w) as Hid.
  fold w' in Hid. unfold Observe.identity in Hid. injection Hid as -> -> -> -> ->.
  do 5 (split; [done|]). split.
  - destruct (request_sent server fuel url options w) as [later Hl].
    exists later. unfold w', Observe.world_of. unfold Scenario.sent_by in Hl.
    by destruct (CoolifyLogs.request server fuel url options w).
  - intros res w1 Hr [Hs (l & Hl & Hne)].
    apply request_returned in Hr as (Hst & _ & Hred & _).
    unfold CoolifyLogs.is_redirect in Hred. rewrite <- Hst, Hl in Hred.
    destruct l; [done|]. cbn [str_truthy] in Hred.
    rewrite andb_true_r in Hred. apply andb_false_iff in Hred as [E|E].
    + apply Z.leb_gt in E. lia.
    + apply Z.ltb_ge in E. lia.
Qed.

(** ** [login]: the token and the errors *)

Section LoginTokenFacts.
Import CoolifyLogs.
Context `{Runtime} (server : Server).

(** The token of a login page: the content of the first [csrf-token]
    meta tag, up to its closing quote. *)
Lemma csrf_match_shape t m :
  found_at re_csrf t m ->
  exists token rest,
    t = lit "<meta name=" ++ [DQUOTE] ++ lit "csrf-token" ++ [DQUOTE] ++ lit " content="
        ++ [DQUOTE] ++ token ++ [DQUOTE] ++ rest /\
    token <> [] /\ (DQUOTE ∉ token) /\ group 1 m = Some token.
Proof.
  intros (t' & Hm & Ht). apply match_here_Some in Hm.
  unfold re_csrf in Hm. cbn [source ignoreCase] in Hm.
  remember (m_groups m) as caps eqn:Hcaps.
  inv_matches.
  match goal with
  | Hw : Forall _ ?w, Hg : m_groups m = <[1 := take _ (?w ++ ?r)]> _ |- _ =>
    exists w; rename Hg into Hgroups; rename Hw into Htoken
  end.
  eexists. split; [reflexivity|]. split.
  { intros ->. simpl in *. lia. }
  split.
  - intros Hin. rewrite Forall_forall in Htoken. specialize (Htoken _ Hin).
    unfold not_char in Htoken. by rewrite N.eqb_refl in Htoken.
  - unfold group. rewrite Hgroups, lookup_insert_eq. f_equal. apply take_consumed.
Qed.

Lemma baseline_no_token : baseline_headers !! lit "X-CSRF-Token" = None.
Proof. by vm_compute. Qed.

(** The [X-CSRF-Token] header of an outgoing request: the token of the
    session when there is one, whatever the caller gave. *)
Lemma request_headers_token s options :
  request_headers s options !! lit "X-CSRF-Token" =
  match csrfToken s with
  | Some t => if str_truthy t then Some (HStr t)
              else opt_headers options !! lit "X-CSRF-Token"
  | None => opt_headers options !! lit "X-CSRF-Token"
  end.
Proof.
  unfold request_headers. cbn zeta.
  assert (lit "Content-Length" <> lit "X-CSRF-Token") as N1 by (by vm_compute).
  assert (lit "Cookie" <> lit "X-CSRF-Token") as N2 by (by vm_compute).
  assert ((opt_headers options ∪ baseline_headers) !! lit "X-CSRF-Token"
          = opt_headers options !! lit "X-CSRF-Token") as H0.
  { rewrite lookup_union. rewrite baseline_no_token.
    by destruct (opt_headers options !! lit "X-CSRF-Token"). }
  repeat match goal with
  | |- context [match opt_body options with _ => _ end] => destruct (opt_body options)
  | |- context [match csrfToken s with _ => _ end] => destruct (csrfToken s)
  | |- context [if str_truthy ?x then _ else _] => destruct (str_truthy x) eqn:?
  end; rewrite ?lookup_insert_ne by done; rewrite ?lookup_insert_eq;
    rewrite ?lookup_insert_ne by done; try done.
Qed.

Lemma login_options_token s email password :
  opt_headers (login_options s email password) !! lit "X-CSRF-Token"
  = Some (match csrfToken s with Some t => HStr t | None => HNull end).
Proof.
  unfold login_options. cbn [opt_headers list_to_map foldr].
  assert (lit "Content-Type" <> lit "X-CSRF-Token") as N1 by (by vm_compute).
  rewrite lookup_insert_ne by done. by rewrite lookup_insert_eq.
Qed.

(** What [login] leaves behind is what its second request leaves
    behind. *)
Lemma login_world fuel email password w r1 w1 page :
  request server fuel (baseURL (session w) ++ lit "/login") no_options w = Returned r1 w1 ->
  body r1 = JStr page ->
  let w1' := mkWorld (set_csrfToken (str_match re_csrf page ≫= group 1) (session w1))
               (sent w1) in
  Observe.world_of (login server fuel email password w) =
  Observe.world_of
    (request server fuel (baseURL (session w1') ++ lit "/login")
       (login_options (session w1') email password) w1').
Proof.
  intros H1 Hb1 w1'.
  unfold login, try_catch, mbind, M_bind, bind, get_session, set_session, lift.
  cbn beta. rewrite H1. rewrite Hb1. cbn [method_match].
  match goal with
  | |- context [request server fuel ?u ?o ?w0] =>
    change (request server fuel u o w0)
      with (request server fuel (baseURL (session w1') ++ lit "/login")
              (login_options (session w1') email password) w1')
  end.
  destruct (request server fuel _ _ w1') as [r2 w2|e w2|w2]; cbn [Observe.world_of].
  - destruct (method_includes (body r2) failure_phrase) as [[|]|e]; cbn; try done.
    by destruct e; try destruct (str_eqb _ _).
  - by destruct e; try destruct (str_eqb _ _).
  - done.
Qed.
End LoginTokenFacts.

(** When the login page is text, the form is posted to [/login] of the
    base URL with the token of that page in the header [X-CSRF-Token]:
    the content of its first [csrf-token] meta tag, which is not empty
    and holds no quote.  A page without such a tag clears the token of
    the session, and the form goes out with the header set to [null].
    In both cases the token of the session is, after the call, the one
    of the page. *)
Theorem login_posts_token_of_page `{Runtime} (server : Server)
    fuel email password w r1 w1 page :
  CoolifyLogs.request server (S fuel) (baseURL (session w) ++ lit "/login") no_options w
    = Returned r1 w1 ->
  body r1 = JStr page ->
  let after := Observe.world_of (CoolifyLogs.login server (S fuel) email password w) in
  let token := str_match CoolifyLogs.re_csrf page ≫= group 1 in
  csrfToken (session after) = token /\
  (forall t, token = Some t -> t <> [] /\ (DQUOTE ∉ t) /\
     includes page (lit "content=" ++ [DQUOTE] ++ t ++ [DQUOTE]) = true) /\
  (token = None <-> str_match CoolifyLogs.re_csrf page = None) /\
  exists later post,
    sent after = later ++ post :: sent w1 /\
    req_url post = baseURL (session w) ++ lit "/login" /\
    req_method post = lit "POST" /\
    req_headers post !! lit "X-CSRF-Token"
      = Some (match token with Some t => HStr t | None => HNull end) /\
    req_headers post !! lit "Referer" = Some (HStr (baseURL (session w) ++ lit "/login")).
Proof.
  intros H1 Hb1 after token.
  pose proof (login_world server (S fuel) email password w r1 w1 page H1 Hb1) as Hw.
  cbn zeta in Hw. fold token in Hw. fold after in Hw.
  pose proof (request_keeps server (S fuel) (baseURL (session w) ++ lit "/login")
                no_options w) as Hid1.
  rewrite H1 in Hid1. cbn [Observe.world_of] in Hid1. destruct Hid1 as [Hbase _].
  set (s' := CoolifyLogs.set_csrfToken token (session w1)) in *.
  set (w1' := mkWorld s' (sent w1)) in *.
  assert (forall t, token = Some t -> t <> [] /\ (DQUOTE ∉ t) /\
            includes page (lit "content=" ++ [DQUOTE] ++ t ++ [DQUOTE]) = true) as Htok.
  { intros t Ht. unfold token in Ht.
    destruct (str_match CoolifyLogs.re_csrf page) as [m|] eqn:Em; [|done].
    pose proof (str_match_found _ _ _ Em) as Hf.
    apply csrf_match_shape in Hf as (tk & rest & Hd & Hne & Hq & Hg).
    cbn in Ht. rewrite Hg in Ht. injection Ht as <-.
    split; [done|]. split; [done|].
    apply includes_spec. exists (m_index m + 24). split.
    - apply (f_equal length) in Hd. rewrite length_drop in Hd.
      repeat (rewrite length_app in Hd; simpl in Hd). lia.
    - rewrite <- drop_drop, Hd. apply startsWith_spec. exists rest.
      simpl. by rewrite <- !app_assoc. }
  split.
  { rewrite Hw.
    by destruct (request_keeps server (S fuel) (baseURL (session w1') ++ lit "/login")
                  (CoolifyLogs.login_options (session w1') email password) w1')
      as (_ & -> & _). }
  split; [exact Htok|]. split.
  { unfold token. destruct (str_match CoolifyLogs.re_csrf page) as [m|] eqn:Em; [|done].
    split; [|done]. intros Hnone. exfalso.
    pose proof (str_match_found _ _ _ Em) as Hf.
    apply csrf_match_shape in Hf as (tk & rest & _ & _ & _ & Hg).
    cbn in Hnone. congruence. }
  destruct (request_first_sent server fuel (baseURL (session w1') ++ lit "/login")
              (CoolifyLogs.login_options (session w1') email password) w1')
    as [later Hl].
  exists later, (CoolifyLogs.outgoing (session w1') (baseURL (session w1') ++ lit "/login")
                   (CoolifyLogs.login_options (session w1') email password)).
  split; [by rewrite Hw|].
  cbn [req_url req_method req_headers CoolifyLogs.outgoing session w1'].
  assert (baseURL s' = baseURL (session w)) as Hb by (by rewrite <- Hbase).
  split; [by rewrite Hb|]. split; [reflexivity|]. split.
  - rewrite request_headers_token, login_options_token.
    change (csrfToken s') with token.
    destruct token as [t|] eqn:Et; [|done].
    destruct (Htok t eq_refl) as [Hne _]. by destruct t.
  - rewrite (request_headers_option _ _ (lit "Referer")
               (HStr (baseURL s' ++ lit "/login"))).
    + by rewrite Hb.
    + unfold CoolifyLogs.login_options. cbn [opt_headers list_to_map foldr].
      rewrite !lookup_insert_ne by (by vm_compute). by rewrite lookup_insert_eq.
    + apply (bool_decide_unpack _). by vm_compute.
Qed.

Section LoginErrorFacts.
Import CoolifyLogs.
Context `{Runtime} (server : Server).

(** [request] throws what the network refuses with, and nothing else. *)
Lemma request_thrown fuel : forall url options w e w',
  request server fuel url options w = Thrown e w' -> exists code, e = SystemError code.
Proof.
  induction fuel as [|fuel IH]; intros url options w e w' Hr; [done|].
  rewrite request_S in Hr. cbn zeta in Hr.
  destruct (server _) as [res|code]; [|injection Hr as <- _; by exists code].
  destruct (is_redirect res); [by eapply IH|done].
Qed.

Lemma login_cases fuel email password w :
  (exists w', login server fuel email password w = Returned true w') \/
  (exists w', login server fuel email password w = Pending w') \/
  (exists e w',
     login server fuel email password w = Thrown (Viewer.login_error (session w') e) w' /\
     (e = invalid_credentials \/ e = TypeError \/ exists code, e = SystemError code)).
Proof.
  unfold login, try_catch, mbind, M_bind, bind, get_session, set_session, lift.
  cbn beta.
  destruct (request server fuel _ no_options w) as [r1 w1|e w1|w1] eqn:H1.
  - destruct (method_match (body r1) re_csrf) as [csrfMatch|e] eqn:Hm.
    + cbn beta iota.
      match goal with
      | |- context [request server fuel ?u ?o ?w0] =>
        destruct (request server fuel u o w0) as [r2 w2|e w2|w2] eqn:H2
      end.
      * destruct (method_includes (body r2) failure_phrase) as [[|]|e] eqn:Hi.
        -- right. right. exists invalid_credentials, w2. split; [reflexivity|]. by left.
        -- left. by exists w2.
        -- right. right. exists e, w2.
           assert (e = TypeError) as ->.
           { unfold method_includes in Hi. destruct (body r2); congruence. }
           split; [reflexivity|]. right. by left.
      * right. right. exists e, w2.
        apply request_thrown in H2 as [code ->].
        split; [|right; right; by exists code].
        unfold Viewer.login_error. by destruct (str_eqb code (lit "ENOTFOUND")).
      * right. left. by exists w2.
    + right. right. exists e, w1.
      assert (e = TypeError) as ->.
      { unfold method_match in Hm. destruct (body r1); congruence. }
      split; [reflexivity|]. right. by left.
  - right. right. exists e, w1.
    apply request_thrown in H1 as [code ->].
    split; [|right; right; by exists code].
    unfold Viewer.login_error. by destruct (str_eqb code (lit "ENOTFOUND")).
  - right. left. by exists w1.
Qed.
End LoginErrorFacts.

Section LoginFrame.
Import CoolifyLogs.
Context `{Runtime} (server : Server).

(** What [login] leaves behind is what its first request leaves behind,
    or what its second one does. *)
Lemma login_world_cases fuel email password w :
  let o1 := request server fuel (baseURL (session w) ++ lit "/login") no_options w in
  Observe.world_of (login server fuel email password w) = Observe.world_of o1 \/
  exists r1 w1 token,
    o1 = Returned r1 w1 /\
    let w1' := mkWorld (set_csrfToken token (session w1)) (sent w1) in
    Observe.world_of (login server fuel email password w) =
    Observe.world_of
      (request server fuel (baseURL (session w1') ++ lit "/login")
         (login_options (session w1') email password) w1').
Proof.
  intros o1. unfold o1.
  unfold login, try_catch, mbind, M_bind, bind, get_session, set_session, lift.
  cbn beta.
  destruct (request server fuel _ no_options w) as [r1 w1|e w1|w1].
  - destruct (method_match (body r1) re_csrf) as [csrfMatch|e].
    + right. exists r1, w1, (csrfMatch ≫= group 1). split; [done|].
      cbn beta iota zeta.
      match goal with |- _ = Observe.world_of ?rhs => set (o2 := rhs) end.
      match goal with
      | |- context [request server fuel ?u ?o ?w0] =>
        change (request server fuel u o w0) with o2
      end.
      destruct o2 as [r2 w2|e w2|w2].
      * by destruct (method_includes (body r2) failure_phrase) as [[|]|e'];
          try destruct e'; try destruct (str_eqb _ _).
      * by destruct e; try destruct (str_eqb _ _).
      * done.
    + left. by destruct e; try destruct (str_eqb _ _).
  - left. by destruct e; try destruct (str_eqb _ _).
  - by left.
Qed.

(** [login] writes the cookies and the token only. *)
Lemma login_keeps fuel email password w :
  let w' := Observe.world_of (login server fuel email password w) in
  baseURL (session w') = baseURL (session w) /\
  projectId (session w') = projectId (session w) /\
  environmentId (session w') = environmentId (session w) /\
  applicationId (session w') = applicationId (session w).
Proof.
  intros w'. unfold w'.
  pose proof (request_keeps server fuel (baseURL (session w) ++ lit "/login") no_options w)
    as (B1 & _ & P1 & E1 & A1).
  destruct (login_world_cases fuel email password w) as [->|(r1 & w1 & token & Ho & ->)].
  - done.
  - rewrite Ho in B1, P1, E1, A1. cbn [Observe.world_of] in B1, P1, E1, A1.
    match goal with
    | |- context [request server fuel ?u ?o ?w0] =>
      pose proof (request_keeps server fuel u o w0) as (B2 & _ & P2 & E2 & A2)
    end.
    rewrite B2, P2, E2, A2. done.
Qed.
End LoginFrame.

(** [login] never answers [false]: it returns [true] or throws.  What it
    throws is [Invalid email or password], a TypeError for a page that is
    not text, the advice that names the base URL of the client when the
    network refuses with [ENOTFOUND], and the error of the network as it
    came for every other refusal.  The base URL and the three identifiers
    of the session are left as they were. *)
Theorem login_returns_true_or_throws `{Runtime} (server : Server) fuel email password w :
  let outcome := CoolifyLogs.login server fuel email password w in
  (forall b w', outcome = Returned b w' -> b = true) /\
  (forall e w', outcome = Thrown e w' ->
     e = CoolifyLogs.invalid_credentials \/ e = TypeError \/
     e = Error (CoolifyLogs.unresolved_host_message (session w)) \/
     exists code, e = SystemError code /\ code <> lit "ENOTFOUND") /\
  (forall code w1,
     CoolifyLogs.request server fuel (baseURL (session w) ++ lit "/login") no_options w
       = Thrown (SystemError code) w1 ->
     outcome = Thrown (Viewer.login_error (session w) (SystemError code)) w1) /\
  baseURL (session (Observe.world_of outcome)) = baseURL (session w) /\
  projectId (session (Observe.world_of outcome)) = projectId (session w) /\
  environmentId (session (Observe.world_of outcome)) = environmentId (session w) /\
  applicationId (session (Observe.world_of outcome)) = applicationId (session w).
Proof.
  intros outcome.
  pose proof (login_keeps server fuel email password w) as (HB & HP & HE & HA).
  fold outcome in HB, HP, HE, HA.
  pose proof (login_cases server fuel email password w) as Hc. fold outcome in Hc.
  split; [|split; [|split; [|done]]].
  - intros b w' E. destruct Hc as [[w1 E1]|[[w1 E1]|(e & w1 & E1 & _)]]; congruence.
  - intros e w' E. rewrite E in HB. cbn [Observe.world_of] in HB.
    destruct Hc as [[w1 E1]|[[w1 E1]|(e0 & w1 & E1 & He0)]]; [congruence..|].
    rewrite E in E1. injection E1 as -> <-.
    destruct He0 as [->|[->|[code ->]]]; [by left|right; by left|].
    unfold Viewer.login_error.
    destruct (str_eqb code (lit "ENOTFOUND")) eqn:Ec.
    + right. right. left. unfold CoolifyLogs.unresolved_host_message. by rewrite HB.
    + right. right. right. exists code. split; [done|]. intros ->.
      by vm_compute in Ec.
  - intros code w1 Hr. unfold outcome, CoolifyLogs.login, try_catch, mbind, M_bind, bind,
      get_session, set_session, lift. cbn beta. rewrite Hr.
    pose proof (request_keeps server fuel (baseURL (session w) ++ lit "/login")
                  no_options w) as [B1 _].
    rewrite Hr in B1. cbn [Observe.world_of] in B1.
    unfold Viewer.login_error, CoolifyLogs.unresolved_host_message. rewrite B1.
    by destruct (str_eqb code (lit "ENOTFOUND")).
Qed.

(** ** What a discovery leaves in the session *)

Section DiscoverIds.
Import CoolifyLogs.
Context `{Runtime} (server : Server).

Lemma collect_path_id segment text x rest :
  collect (re_path segment) text = x :: rest -> Observe.is_path_id x.
Proof.
  intros Hc. rewrite collect_first in Hc.
  destruct (str_match (re_path segment) text) as [m|] eqn:Em; [|done].
  injection Hc as <- _.
  apply str_match_found, path_match_shape in Em as (id & r & _ & Hne & Hid & -> & _).
  by split.
Qed.

Lemma fetch_dashboard_keeps fuel w :
  Observe.identity (session (Observe.world_of (fetch_dashboard server fuel w)))
  = Observe.identity (session w).
Proof.
  unfold fetch_dashboard, mbind, M_bind, bind, get_session, lift. cbn beta.
  pose proof (request_identity server fuel (baseURL (session w) ++ lit "/dashboard")
                no_options w) as K1.
  destruct (request server fuel _ no_options w) as [r1 w1|e w1|w1];
    cbn [Observe.world_of] in K1; [|done..].
  destruct (looks_missing r1) as [[|]|e]; [|done..].
  pose proof (request_identity server fuel (baseURL (session w) ++ lit "/")
                no_options w1) as K2.
  by rewrite K2.
Qed.

(** A discovery that answers [true] has set the three identifiers. *)
Lemma discover_true fuel w w' :
  discoverResources server fuel w = Returned true w' ->
  exists p e a,
    Observe.is_path_id p /\ Observe.is_path_id e /\ Observe.is_path_id a /\
    Observe.identity (session w') = (baseURL (session w), csrfToken (session w),
                                     Some p, Some e, Some a).
Proof.
  unfold discoverResources, try_catch, mbind, M_bind, bind, get_session, set_session, lift.
  cbn beta.
  pose proof (fetch_dashboard_keeps fuel w) as K1.
  destruct (fetch_dashboard server fuel w) as [r1 w1|e1 w1|w1]; [|done..].
  cbn [Observe.world_of] in K1.
  destruct (ToString (body r1)) as [dashboard|e]; [|done].
  destruct (collect projectRegex dashboard) as [|p ps] eqn:Hp; [done|].
  apply collect_path_id in Hp. cbn beta iota.
  match goal with
  | |- context [request server fuel ?u ?o ?w0] =>
    pose proof (request_identity server fuel u o w0) as K2;
    destruct (request server fuel u o w0) as [r2 w2|e2 w2|w2]; [|done..]
  end.
  cbn [Observe.world_of session] in K2.
  destruct (ToString (body r2)) as [page|e]; [|done].
  destruct (collect envRegex page) as [|e es] eqn:He; [done|].
  apply collect_path_id in He. cbn beta iota.
  destruct (collect appRegex page) as [|a as_] eqn:Ha; [done|].
  apply collect_path_id in Ha. cbn beta iota.
  intros [= <-]. exists p, e, a. do 3 (split; [done|]).
  unfold Observe.identity in *. cbn [session set_applicationId set_environmentId
    set_projectId baseURL csrfToken projectId environmentId applicationId] in *.
  injection K1 as B1 C1 _ _ _. injection K2 as B2 C2 P2 _ _.
  by rewrite B2, C2, P2, B1, C1.
Qed.
End DiscoverIds.

Section KnownIds.
Import CoolifyLogs.
Context `{Runtime} (server : Server).

(** With the three identifiers set, [getDeploymentsList] asks for the
    page of the deployments at once. *)
Lemma getDeploymentsList_known fuel w :
  id_truthy (projectId (session w)) = true ->
  id_truthy (environmentId (session w)) = true ->
  id_truthy (applicationId (session w)) = true ->
  getDeploymentsList server fuel w =
  (res ← request server fuel (application_url (session w) ++ lit "/deployment") no_options;
   text ← lift (ToString (body res));
   mret (deployment_ids text)) w.
Proof.
  intros Hp He Ha.
  unfold getDeploymentsList, mbind, M_bind, bind, get_session, lift, mret, M_ret, ret.
  cbn beta. rewrite Hp, He, Ha. reflexivity.
Qed.

Lemma path_id_truthy x : Observe.is_path_id x -> id_truthy (Some x) = true.
Proof. intros [Hne _]. by destruct x. Qed.
End KnownIds.

(** A discovery that answers [true] leaves the three identifiers set,
    each a text of lowercase letters and digits that is not empty, and
    the base URL and the token as they were.  [getDeploymentsList] then
    does not discover again: it asks at once for the page
    [/project/p/environment/e/application/a/deployment]. *)
Theorem discovery_sets_three_ids `{Runtime} (server : Server) fuel w w' :
  CoolifyLogs.discoverResources server fuel w = Returned true w' ->
  exists p e a,
    projectId (session w') = Some p /\ Observe.is_path_id p /\
    environmentId (session w') = Some e /\ Observe.is_path_id e /\
    applicationId (session w') = Some a /\ Observe.is_path_id a /\
    baseURL (session w') = baseURL (session w) /\
    csrfToken (session w') = csrfToken (session w) /\
    forall fuel',
      CoolifyLogs.getDeploymentsList server fuel' w' =
      (res ← CoolifyLogs.request server fuel'
               (baseURL (session w) ++ lit "/project/" ++ p ++ lit "/environment/" ++ e
                ++ lit "/application/" ++ a ++ lit "/deployment") no_options;
       text ← lift (ToString (body res));
       mret (CoolifyLogs.deployment_ids text)) w'.
Proof.
  intros (p & e & a & Hp & He & Ha & Hid)%discover_true.
  unfold Observe.identity in Hid. injection Hid as HB HC HP HE HA.
  exists p, e, a. do 8 (split; [done|]).
  intros fuel'. rewrite getDeploymentsList_known.
  - unfold CoolifyLogs.application_url. rewrite HB, HP, HE, HA.
    cbn [CoolifyLogs.id_text default]. by rewrite <- !app_assoc.
  - rewrite HP. by apply path_id_truthy.
  - rewrite HE. by apply path_id_truthy.
  - rewrite HA. by apply path_id_truthy.
Qed.

(** ** The deployments a page lists *)

Section DeploymentLinks.
Import CoolifyLogs Deployments.

(** A link to a deployment stands in the page. *)
Lemma link_match text id :
  is_deployment_id id = true ->
  includes text (lit "/deployment/" ++ id) = true <->
  exists j t', j <= length text /\
               match_here deploymentRegex (drop j text) = Some (t', {[ 1 := id ]}).
Proof.
  intros Hid. rewrite includes_spec. split.
  - intros (j & Hj & (rest & Hrest)%startsWith_spec). exists j, rest. split; [done|].
    apply deploymentRegex_match. exists id. split; [|done].
    rewrite Hrest. by rewrite <- app_assoc.
  - intros (j & t' & Hj & (id' & Hd & _ & Hc)%deploymentRegex_match).
    assert (id' = id) as ->.
    { apply (f_equal (fun c : Caps => c !! 1)) in Hc.
      rewrite !lookup_singleton_eq in Hc. congruence. }
    exists j. split; [done|]. apply startsWith_spec. exists t'.
    rewrite Hd. by rewrite <- app_assoc.
Qed.

Lemma plain_scan_lists_links text id :
  is_deployment_id id = true ->
  includes text (lit "/deployment/" ++ id) = true ->
  id ∈ collect deploymentRegex text.
Proof.
  intros Hid (j & t' & Hj & Hm)%link_match; [|done].
  destruct (scan_complete deploymentRegex deploymentRegex_no_overlap
              text 0 0 j t' _ ltac:(intros; lia) Hj Hm) as (m & Hin & _ & Hc).
  apply collect_elem. exists m. split; [done|].
  unfold capture, group. by rewrite Hc, lookup_singleton_eq.
Qed.

Lemma listed_is_link re text id
    (Hfound : forall t m, found_at re t m ->
                is_deployment_id (capture 1 m) = true /\
                startsWith t (lit "/deployment/" ++ capture 1 m) = true) :
  id ∈ collect re text ->
  is_deployment_id id = true /\ includes text (lit "/deployment/" ++ id) = true.
Proof.
  intros (m & Hin & <-)%collect_elem.
  apply scan_elem in Hin as (j & Hj & _ & Hf).
  destruct (Hfound _ _ Hf) as [Hid Hs]. split; [done|].
  apply includes_spec. exists j. split; [lia|done].
Qed.
End DeploymentLinks.

(** [getDeploymentsList] finds no deployment exactly when the page holds
    no link [/deployment/] followed by 24 lowercase letters and digits.
    Every identifier it lists stands in such a link of the page.  When
    no link of the page has a status behind it, and in [view-logs.js]
    always, every link of the page is listed. *)
Theorem deployment_list_and_links (text : JSString) :
  let link id := lit "/deployment/" ++ id in
  (CoolifyLogs.deployment_ids text = [] <->
   forall id, Deployments.is_deployment_id id = true -> includes text (link id) = false) /\
  (forall id, id ∈ CoolifyLogs.deployment_ids text ->
     Deployments.is_deployment_id id = true /\ includes text (link id) = true) /\
  (forall id, Deployments.is_deployment_id id = true -> includes text (link id) = true ->
     id ∈ Legacy.deployment_ids text /\
     (str_match CoolifyLogs.deploymentPattern text = None ->
      id ∈ CoolifyLogs.deployment_ids text)).
Proof.
  intros link. unfold link.
  assert (forall id, id ∈ CoolifyLogs.deployment_ids text ->
            Deployments.is_deployment_id id = true /\
            includes text (lit "/deployment/" ++ id) = true) as Hsound.
  { intros id. rewrite deployment_ids_collect.
    destruct (CoolifyLogs.collect CoolifyLogs.deploymentPattern text) as [|x xs] eqn:E.
    - apply listed_is_link, deploymentRegex_found.
    - rewrite <- E. apply listed_is_link, deploymentPattern_found. }
  assert (forall id, Deployments.is_deployment_id id = true ->
            includes text (lit "/deployment/" ++ id) = true ->
            id ∈ Legacy.deployment_ids text /\
            (str_match CoolifyLogs.deploymentPattern text = None ->
             id ∈ CoolifyLogs.deployment_ids text)) as Hcomplete.
  { intros id Hid Hin.
    pose proof (plain_scan_lists_links text id Hid Hin) as Hl.
    split; [done|]. intros Hnone. rewrite deployment_ids_collect.
    by rewrite (proj2 (collect_nil _ _) Hnone). }
  split; [|by split].
  split.
  - intros Hnil id Hid. apply not_true_is_false. intros Hin.
    destruct (Hcomplete id Hid Hin) as [_ Hc].
    assert (id ∈ CoolifyLogs.deployment_ids text) as Hmem.
    { apply Hc. apply collect_nil. rewrite deployment_ids_collect in Hnil.
      by destruct (CoolifyLogs.collect CoolifyLogs.deploymentPattern text). }
    rewrite Hnil in Hmem. by apply elem_of_nil in Hmem.
  - intros Hno. destruct (CoolifyLogs.deployment_ids text) as [|id ids] eqn:E; [done|].
    destruct (Hsound id) as [Hid Hin]; [by left|].
    rewrite (Hno id Hid) in Hin. done.
Qed.

(** ** [viewLatestDeploymentLogs] *)

Section ViewerFacts.
Import CoolifyLogs.
Context `{Runtime} (server : Server).

(** The steps after the login end with the end of the program, if they
    end. *)
Lemma view_latest_returns fuel w r w' :
  Viewer.view_latest server fuel w = Returned r w' -> r = Process.Completed.
Proof.
  unfold Viewer.view_latest, mbind, M_bind, bind, mret, M_ret, ret.
  destruct (getDeploymentsList server fuel w) as [[|latest others] w1|e w1|w1];
    [congruence| |done..].
  destruct (Viewer.getDeploymentDetails server fuel latest w1) as [d w2|e w2|w2];
    [|done..].
  destruct (getDeploymentLogs server fuel latest w2) as [l w3|e w3|w3]; [|done..].
  congruence.
Qed.

(** The body of the [try] block. *)
Lemma viewLatest_body env fuel projId envId appId w :
  let email := Process.or_else (Process.COOLIFY_USERNAME env) (Process.U env) in
  let password := Process.or_else (Process.COOLIFY_PASSWORD env) (Process.P env) in
  Viewer.viewLatestDeploymentLogs server env fuel projId envId appId w =
  if negb (id_truthy email) || negb (id_truthy password)
  then Returned (Process.Exited 1) w
  else
    match login server fuel (default [] email) (default [] password) w with
    | Returned _ w1 =>
      try_catch
        (if negb (id_truthy projId) || negb (id_truthy envId) || negb (id_truthy appId)
         then
           discovered ← discoverResources server fuel;
           if negb discovered then mret Process.Completed
           else Viewer.view_latest server fuel
         else
           set_session (set_projectId (default [] projId));;
           set_session (set_environmentId (default [] envId));;
           set_session (set_applicationId (default [] appId));;
           Viewer.view_latest server fuel)
        (fun _ => mret (Process.Exited 1)) w1
    | Thrown _ w1 => Returned (Process.Exited 1) w1
    | Pending w1 => Pending w1
    end.
Proof.
  intros email password.
  unfold Viewer.viewLatestDeploymentLogs. fold email password.
  destruct (negb (id_truthy email) || negb (id_truthy password)); [reflexivity|].
  unfold try_catch, mbind, M_bind, bind.
  by destruct (login server fuel (default [] email) (default [] password) w).
Qed.

Lemma viewLatest_cases env fuel projId envId appId w :
  match Viewer.viewLatestDeploymentLogs server env fuel projId envId appId w with
  | Returned Process.Completed _ => True
  | Returned (Process.Exited code) _ => code = 1%Z
  | Thrown _ _ => False
  | Pending _ => True
  end.
Proof.
  rewrite viewLatest_body. cbn zeta.
  destruct (negb _ || negb _); [done|].
  destruct (login server fuel _ _ w) as [b w1|e w1|w1]; [|done..].
  unfold try_catch.
  match goal with
  | |- match match ?body with _ => _ end with _ => _ end =>
    destruct body as [r w2|e w2|w2] eqn:Hbody
  end; [|done..].
  destruct r as [|code]; [done|]. exfalso.
  destruct (negb (id_truthy projId) || negb (id_truthy envId) || negb (id_truthy appId)).
  - unfold mbind, M_bind, bind in Hbody.
    destruct (discoverResources server fuel w1) as [[|] w3|e w3|w3]; try done.
    by apply view_latest_returns in Hbody.
  - unfold mbind, M_bind, bind, set_session in Hbody.
    by apply view_latest_returns in Hbody.
Qed.
End ViewerFacts.

(** [viewLatestDeploymentLogs] never throws, and the only exit code it
    ends the program with is 1.  It does so without sending anything when
    the user name or the password is missing ([COOLIFY_USERNAME], or [U]
    when that one is unset or empty, and likewise [COOLIFY_PASSWORD] or
    [P]), and whenever the login throws. *)
Theorem viewer_exits_with_1_on_any_error `{Runtime} (server : Server)
    env fuel projId envId appId w :
  let email := Process.or_else (Process.COOLIFY_USERNAME env) (Process.U env) in
  let password := Process.or_else (Process.COOLIFY_PASSWORD env) (Process.P env) in
  let outcome := Viewer.viewLatestDeploymentLogs server env fuel projId envId appId w in
  (forall e w', outcome <> Thrown e w') /\
  (forall code w', outcome = Returned (Process.Exited code) w' -> code = 1%Z) /\
  (CoolifyLogs.id_truthy email = false \/ CoolifyLogs.id_truthy password = false ->
   outcome = Returned (Process.Exited 1) w) /\
  (CoolifyLogs.id_truthy email = true -> CoolifyLogs.id_truthy password = true ->
   forall e w',
     CoolifyLogs.login server fuel (default [] email) (default [] password) w = Thrown e w' ->
     outcome = Returned (Process.Exited 1) w').
Proof.
  intros email password outcome.
  pose proof (viewLatest_cases server env fuel projId envId appId w) as Hc.
  fold outcome in Hc.
  split; [|split; [|split]].
  - intros e w' E. by rewrite E in Hc.
  - intros code w' E. by rewrite E in Hc.
  - intros Hmiss. unfold outcome. rewrite viewLatest_body. cbn zeta. fold email password.
    by destruct Hmiss as [-> | ->]; rewrite ?orb_true_r.
  - intros He Hp e w' Hl. unfold outcome. rewrite viewLatest_body. cbn zeta.
    fold email password. by rewrite He, Hp, Hl.
Qed.

Section GivenIds.
Import CoolifyLogs.
Context `{Runtime} (server : Server).

Lemma application_url_identity s s' :
  Observe.identity s' = Observe.identity s -> application_url s' = application_url s.
Proof.
  unfold Observe.identity, application_url. by intros [= -> _ -> -> ->].
Qed.

Lemma request_application_url fuel url options w res w' :
  request server fuel url options w = Returned res w' ->
  application_url (session w') = application_url (session w).
Proof.
  intros Hr. apply application_url_identity.
  pose proof (request_identity server fuel url options w) as Hid.
  by rewrite Hr in Hid.
Qed.

(** [getDeploymentLogs] is one request and the extraction. *)
Lemma getDeploymentLogs_eq fuel deploymentId w :
  getDeploymentLogs server fuel deploymentId w =
  match request server fuel
          (application_url (session w) ++ lit "/deployment/" ++ deploymentId) no_options w with
  | Returned res w' =>
    match extract (body res) with
    | Ok text => Returned text w'
    | Raise e => Thrown e w'
    end
  | Thrown e w' => Thrown e w'
  | Pending w' => Pending w'
  end.
Proof.
  unfold getDeploymentLogs, mbind, M_bind, bind, get_session, lift. cbn beta.
  destruct (request server fuel _ no_options w) as [res w'|e w'|w']; [|done..].
  by destruct (extract (body res)).
Qed.
End GivenIds.

(** With the three identifiers given, and none of them empty, the viewer
    does not ask for the dashboard: after the login it writes the
    identifiers into the session and asks for the page of the deployments
    of that application.  A page without deployments ends the program
    there.  Otherwise the page of the first deployment listed is asked
    for twice, once for the details and once for the logs, and the
    program ends with the exit code 1 only if the extraction throws or
    the network refuses. *)
Theorem viewer_with_given_ids `{Runtime} (server : Server) env fuel p e a w w1 :
  let email := Process.or_else (Process.COOLIFY_USERNAME env) (Process.U env) in
  let password := Process.or_else (Process.COOLIFY_PASSWORD env) (Process.P env) in
  CoolifyLogs.id_truthy email = true -> CoolifyLogs.id_truthy password = true ->
  p <> [] -> e <> [] -> a <> [] ->
  CoolifyLogs.login server fuel (default [] email) (default [] password) w = Returned true w1 ->
  let u := baseURL (session w) ++ lit "/project/" ++ p ++ lit "/environment/" ++ e
           ++ lit "/application/" ++ a in
  let w1' := mkWorld (CoolifyLogs.set_applicationId a
                        (CoolifyLogs.set_environmentId e
                           (CoolifyLogs.set_projectId p (session w1)))) (sent w1) in
  let outcome :=
    Viewer.viewLatestDeploymentLogs server env fuel (Some p) (Some e) (Some a) w in
  forall res2 w2 text,
    CoolifyLogs.request server fuel (u ++ lit "/deployment") no_options w1'
      = Returned res2 w2 ->
    ToString (body res2) = Ok text ->
    (CoolifyLogs.deployment_ids text = [] -> outcome = Returned Process.Completed w2) /\
    (forall latest others res3 w3 page,
       CoolifyLogs.deployment_ids text = latest :: others ->
       CoolifyLogs.request server fuel (u ++ lit "/deployment/" ++ latest) no_options w2
         = Returned res3 w3 ->
       body res3 = JStr page ->
       outcome =
       match CoolifyLogs.request server fuel (u ++ lit "/deployment/" ++ latest)
               no_options w3 with
       | Returned res4 w4 =>
         match CoolifyLogs.extract (body res4) with
         | Ok _ => Returned Process.Completed w4
         | Raise _ => Returned (Process.Exited 1) w4
         end
       | Thrown _ w4 => Returned (Process.Exited 1) w4
       | Pending w4 => Pending w4
       end).
Proof.
  intros email password Hemail Hpassword Hp He Ha Hlogin u w1' outcome res2 w2 text Hr2 Ht2.
  assert (CoolifyLogs.application_url (session w1') = u) as Hu1.
  { unfold CoolifyLogs.application_url, u.
    cbn [session w1' CoolifyLogs.set_applicationId CoolifyLogs.set_environmentId
         CoolifyLogs.set_projectId baseURL projectId environmentId applicationId
         CoolifyLogs.id_text default].
    pose proof (login_keeps server fuel (default [] email) (default [] password) w) as [B _].
    rewrite Hlogin in B. cbn [Observe.world_of] in B. rewrite B.
    by rewrite <- ?app_assoc. }
  assert (CoolifyLogs.application_url (session w2) = u) as Hu2.
  { by rewrite (request_application_url server _ _ _ _ _ _ Hr2). }
  assert (CoolifyLogs.getDeploymentsList server fuel w1'
          = Returned (CoolifyLogs.deployment_ids text) w2) as Hlist.
  { rewrite getDeploymentsList_known; [|by destruct p|by destruct e|by destruct a].
    unfold mbind, M_bind, bind, lift, mret, M_ret, ret. rewrite Hu1, Hr2, Ht2. done. }
  assert (outcome =
          try_catch (Viewer.view_latest server fuel)
            (fun _ => mret (Process.Exited 1)) w1') as Hout.
  { unfold outcome. rewrite viewLatest_body. cbn zeta. fold email password.
    rewrite Hemail, Hpassword, Hlogin. cbn [negb orb].
    replace (CoolifyLogs.id_truthy (Some p)) with true by (by destruct p).
    replace (CoolifyLogs.id_truthy (Some e)) with true by (by destruct e).
    replace (CoolifyLogs.id_truthy (Some a)) with true by (by destruct a).
    reflexivity. }
  rewrite Hout. unfold try_catch, Viewer.view_latest, mbind, M_bind, bind.
  rewrite Hlist. split.
  - by intros ->.
  - intros latest others res3 w3 page -> Hr3 Hb3.
    rewrite <- Hu2 in Hr3.
    rewrite (getDeploymentDetails_text server fuel latest w2 res3 w3 page Hr3 Hb3).
    rewrite getDeploymentLogs_eq.
    rewrite (request_application_url server _ _ _ _ _ _ Hr3), Hu2.
    destruct (CoolifyLogs.request server fuel _ no_options w3) as [res4 w4|e4 w4|w4];
      [|done..].
    by destruct (CoolifyLogs.extract (body res4)).
Qed.

(** ** A lazy run of a character class *)

Section LazyRun.
Context {A : Type} (ic : bool) (p : N -> bool).
Implicit Types (k : @Kont A) (s : JSString) (c : Caps).

(** A lazy run of a class stops at the first place, from the shortest
    run allowed on, where what follows matches. *)
Lemma lazy_run_first s : forall fuel lo hi c k a,
  length s < fuel ->
  rep_loop (rmatch ic (Class p)) false fuel lo hi s c k = Some a ->
  exists w s', s = w ++ s' /\ Forall (fun y => p y = true) w /\ lo <= length w /\
               (forall h, hi = Some h -> length w <= h) /\
               k s' c = Some a /\
               forall i, lo <= i < length w -> k (drop i s) c = None.
Proof.
  induction s as [|y t IH]; intros fuel lo hi c k a Hfuel Hr;
    (destruct fuel as [|fuel]; [simpl in Hfuel; lia|]);
    rewrite rep_loop_S in Hr; cbn zeta in Hr.
  - rewrite (class_step_nil ic p) in Hr.
    destruct lo as [|lo]; [|by destruct hi as [[|h]|]].
    destruct (k [] c) as [a'|] eqn:Hk; [|by destruct hi as [[|h]|]].
    injection Hr as ->. exists [], []. split; [done|]. split; [done|].
    split; [simpl; lia|]. split; [intros; simpl; lia|]. split; [done|].
    intros i Hi. simpl in Hi. lia.
  - rewrite (class_step_cons ic p) in Hr.
    assert (Stopped : forall a', lo = 0 -> k (y :: t) c = Some a' -> a' = a ->
              exists w s', y :: t = w ++ s' /\ Forall (fun y => p y = true) w /\
                lo <= length w /\ (forall h, hi = Some h -> length w <= h) /\
                k s' c = Some a /\
                forall i, lo <= i < length w -> k (drop i (y :: t)) c = None).
    { intros a' -> Hk ->. exists [], (y :: t). split; [done|]. split; [done|].
      split; [simpl; lia|]. split; [intros; simpl; lia|]. split; [done|].
      intros i Hi. simpl in Hi. lia. }
    destruct (match lo with 0 => k (y :: t) c | S _ => None end) as [a'|] eqn:Hstop.
    { injection Hr as ->. destruct lo as [|lo]; [|done]. by eapply Stopped. }
    replace (length t <? length (y :: t)) with true in Hr
      by (symmetry; apply Nat.ltb_lt; simpl; lia).
    assert (p y = true /\ hi <> Some 0 /\
            rep_loop (rmatch ic (Class p)) false fuel (pred lo) (pred <$> hi) t c k = Some a)
      as (Hy & Hhi & Hin).
    { destruct hi as [[|h]|]; [done|..]; by destruct (p y). }
    apply IH in Hin as (w & s' & -> & Hw & Hlo & Hh & Hk & Hmin); [|simpl in *; lia].
    exists (y :: w), s'. split; [done|]. split; [by constructor|].
    split; [simpl; lia|]. split.
    { intros h ->. destruct h as [|h]; [done|]. specialize (Hh h eq_refl). simpl. lia. }
    split; [done|]. intros [|i] Hi.
    + destruct lo as [|lo]; [exact Hstop|lia].
    + simpl. apply Hmin. simpl in Hi. lia.
Qed.
End LazyRun.

(** ** The [pre] and [code] blocks *)

Section BlockFacts.
Import CoolifyLogs.

Lemma rmatch_Cat {A} ic r1 r2 s c (k : @Kont A) :
  rmatch ic (Cat r1 r2) s c k = rmatch ic r1 s c (fun s1 c1 => rmatch ic r2 s1 c1 k).
Proof. reflexivity. Qed.

Lemma rmatch_Grp {A} ic i r s c (k : @Kont A) :
  rmatch ic (Grp i r) s c k =
  rmatch ic r s c (fun s1 c1 => k s1 (<[i := take (length s - length s1) s]> c1)).
Proof. reflexivity. Qed.

Lemma rmatch_Rep {A} ic g lo hi r s c (k : @Kont A) :
  rmatch ic (Rep g lo hi r) s c k = rep_loop (rmatch ic r) g (S (length s)) lo hi s c k.
Proof. reflexivity. Qed.

Lemma closing_Matches tag rest c :
  Matches false (Seq [Str (lit "</"); Str (lit tag); Sym (chr ">")])
    (Observe.closing tag ++ rest) c rest c.
Proof.
  unfold Seq, Observe.closing. cbn [foldr]. rewrite <- !app_assoc.
  apply Matches_Cat_iff. exists (lit tag ++ lit ">" ++ rest), c.
  split; [by apply Matches_Str_iff|].
  apply Matches_Cat_iff. exists (lit ">" ++ rest), c.
  split; [by apply Matches_Str_iff|].
  apply Matches_Cat_iff. exists rest, c. split; [|constructor].
  apply Matches_Sym_iff. by exists (chr ">").
Qed.

Lemma groups_of_Str (s : JSString) : groups_of (Str s) = [].
Proof. induction s as [|x s IH]; [done|]. simpl. exact IH. Qed.

Lemma Matches_closing tag s c s' c' :
  Matches false (Seq [Str (lit "</"); Str (lit tag); Sym (chr ">")]) s c s' c' ->
  s = Observe.closing tag ++ s'.
Proof.
  intros HM. inv_matches. unfold Observe.closing. by rewrite <- !app_assoc.
Qed.
End BlockFacts.

Section BlockShape.
Import CoolifyLogs.

(** A block: the opening tag up to its closing bracket, then the
    shortest text, of one character at least and 5000 at most, that
    stands before a closing tag. *)
Lemma block_found tag t m :
  found_at (re_block tag) t m ->
  exists attrs v rest,
    t = lit "<" ++ lit tag ++ attrs ++ lit ">" ++ v ++ Observe.closing tag ++ rest /\
    (chr ">" ∉ attrs) /\
    1 <= length v <= 5000 /\
    capture 1 m = v /\
    forall i, 1 <= i < length v ->
      startsWith (drop i v ++ Observe.closing tag ++ rest) (Observe.closing tag) = false.
Proof.
  intros (t' & Hm & _). unfold match_here in Hm.
  cbn [source ignoreCase re_block] in Hm. unfold Seq in Hm. cbn [foldr] in Hm.
  rewrite rmatch_Cat in Hm.
  apply rmatch_sound in Hm as (s1 & c1 & (y & -> & <-%N.eqb_eq & ->)%Matches_Sym_iff & Hm).
  rewrite rmatch_Cat in Hm.
  apply rmatch_sound in Hm as (s2 & c2 & [-> ->]%Matches_Str_iff & Hm).
  rewrite rmatch_Cat in Hm.
  apply rmatch_sound in Hm
    as (s3 & c3 & (attrs & -> & _ & _ & Hattrs & ->)%Matches_Rep_Class & Hm).
  rewrite rmatch_Cat in Hm.
  apply rmatch_sound in Hm as (s4 & c4 & (z & -> & <-%N.eqb_eq & ->)%Matches_Sym_iff & Hm).
  rewrite rmatch_Cat, rmatch_Grp, rmatch_Rep in Hm.
  apply lazy_run_first in Hm as (v & s5 & -> & _ & Hlo & Hhi & Hk & Hmin); [|lia].
  specialize (Hhi 5000 eq_refl).
  change (rmatch false (Cat (Str (lit "</")) (Cat (Str (lit tag)) (Cat (Sym (chr ">")) Eps))))
    with (rmatch (A := JSString * Caps) false
            (Seq [Str (lit "</"); Str (lit tag); Sym (chr ">")])) in Hk, Hmin.
  apply rmatch_sound in Hk as (s6 & c6 & HM & Hk).
  pose proof (Matches_other_groups _ _ _ _ _ _ 1 HM) as Hg.
  apply Matches_closing in HM as ->.
  injection Hk as -> Hcaps.
  exists attrs, v, t'. split; [done|]. split.
  { intros Hin. rewrite Forall_forall in Hattrs. specialize (Hattrs _ Hin).
    unfold not_char in Hattrs. by rewrite N.eqb_refl in Hattrs. }
  split; [lia|]. split.
  { unfold capture, group. rewrite <- Hcaps, Hg.
    - rewrite lookup_insert_eq. simpl. apply take_consumed.
    - unfold Seq. cbn [foldr groups_of]. rewrite !groups_of_Str. set_solver. }
  intros i Hi. apply not_true_is_false. intros (r & Hr)%startsWith_spec.
  specialize (Hmin i Hi).
  rewrite drop_app_le in Hmin by lia.
  eapply rmatch_complete in Hmin; [|rewrite Hr; apply closing_Matches]. done.
Qed.
End BlockShape.

Section BlockLeftmost.
Import CoolifyLogs.

(** Where a block stands, the pattern matches. *)
Lemma block_shape_matches tag t attrs v rest :
  t = lit "<" ++ lit tag ++ attrs ++ lit ">" ++ v ++ Observe.closing tag ++ rest ->
  (chr ">" ∉ attrs) -> 1 <= length v <= 5000 ->
  is_Some (match_here (re_block tag) t).
Proof.
  intros -> Hattrs Hlen.
  apply (match_here_is_Some _ _ rest
           (<[1 := take (length (v ++ Observe.closing tag ++ rest)
                         - length (Observe.closing tag ++ rest))
                        (v ++ Observe.closing tag ++ rest)]> ∅)).
  cbn [source ignoreCase re_block]. unfold Seq. cbn [foldr].
  apply Matches_Cat_iff. eexists _, ∅. split.
  { apply Matches_Sym_iff. exists (chr "<"). split; [reflexivity|]. by split. }
  apply Matches_Cat_iff. eexists _, ∅. split; [by apply Matches_Str_iff|].
  apply Matches_Cat_iff. eexists _, ∅. split.
  { apply Matches_Rep_Class. exists attrs. split; [reflexivity|]. split; [lia|].
    split; [done|]. split; [|done].
    apply Forall_forall. intros x Hx. unfold not_char. apply negb_true_iff, N.eqb_neq.
    by intros ->. }
  apply Matches_Cat_iff. eexists _, ∅. split.
  { apply Matches_Sym_iff. exists (chr ">"). split; [reflexivity|]. by split. }
  apply Matches_Cat_iff. eexists _, _. split.
  { apply M_Grp. apply Matches_Rep_Class. exists v. split; [reflexivity|].
    split; [lia|]. split; [intros h [= <-]; lia|]. split; [|done].
    by apply Forall_forall. }
  apply (closing_Matches tag rest).
Qed.
End BlockLeftmost.


(** The [pre] strategy, and likewise the [code] strategy, when no
    earlier strategy has found the logs: it leaves the state as it is when
    the page has no such block at any place, and otherwise finds the text
    of the first one, before which no block stands.  A block starts with
    [<pre], whatever follows up to the next closing bracket; its text is
    what stands between that bracket and the first [</pre>] that comes
    after one character at least.  It holds 5000 characters at most: a
    block whose closing tag is further away is no block. *)
Theorem block_strategy_takes_shortest_text `{Runtime} (page : JSString) (st : CoolifyLogs.Cascade) :
  CoolifyLogs.logFound st = false ->
  let block_at (tag : string) (j : nat) :=
    exists attrs text rest,
      drop j page
        = lit "<" ++ lit tag ++ attrs ++ lit ">" ++ text ++ Observe.closing tag ++ rest /\
      (CoolifyLogs.chr ">" ∉ attrs) /\ 1 <= length text <= 5000 in
  let block (tag : string) (result : Result CoolifyLogs.Cascade) :=
    result = Ok st /\ str_match (CoolifyLogs.re_block tag) page = None /\
    (forall j, ~ block_at tag j) \/
    exists text position attrs rest,
      result = Ok (CoolifyLogs.found (JStr text)) /\
      drop position page
        = lit "<" ++ lit tag ++ attrs ++ lit ">" ++ text ++ Observe.closing tag ++ rest /\
      (CoolifyLogs.chr ">" ∉ attrs) /\
      1 <= length text <= 5000 /\
      (forall i, 1 <= i < length text ->
        startsWith (drop i text ++ Observe.closing tag ++ rest) (Observe.closing tag) = false) /\
      (forall j, j < position -> ~ block_at tag j) in
  block "pre"%string (CoolifyLogs.strategy3 (JStr page) st) /\
  block "code"%string (CoolifyLogs.strategy4 (JStr page) st).
Proof.
  intros Hst block_at block.
  assert (forall tag j, block_at tag j ->
            is_Some (match_here (CoolifyLogs.re_block tag) (drop j page))) as Hshape.
  { intros tag j (attrs & text & rest & Hd & Hattrs & Hlen).
    by eapply block_shape_matches. }
  assert (forall tag, block tag (CoolifyLogs.strategy_block (CoolifyLogs.re_block tag)
                                   (JStr page) st)) as Hb.
  { intros tag. unfold block. rewrite strategy_block_yield, Hst.
    destruct (str_match (CoolifyLogs.re_block tag) page) as [m|] eqn:Em.
    - right. apply str_match_leftmost in Em as [Hf Hleft].
      apply block_found in Hf as (attrs & v & rest & Hd & Hattrs & Hlen & Hc & Hmin).
      exists v, (m_index m), attrs, rest. cbn [fmap option_fmap option_map].
      rewrite Hc. repeat (split; [done|]).
      intros j Hj Hblock. apply Hshape in Hblock as [x Hx].
      by rewrite (Hleft j Hj) in Hx.
    - left. split; [done|]. split; [done|].
      intros j Hblock. pose proof Hblock as (attrs & text & rest & Hd & _).
      apply Hshape in Hblock as [x Hx].
      unfold str_match in Em. rewrite search_None in Em.
      destruct (decide (j <= length page)) as [Hj|Hj].
      + by rewrite (Em j Hj) in Hx.
      + rewrite drop_ge in Hd by lia. change (lit "<") with [CoolifyLogs.chr "<"] in Hd.
        discriminate Hd. }
  split; apply Hb.
Qed.

Lemma block_strategy_takes_shortest_text_witness :
  let rt := Scenario.runtime [] in
  exists text,
    CoolifyLogs.strategy3 (JStr LogPages.pre_page) (CoolifyLogs.mkCascade None false)
      = Ok (CoolifyLogs.found (JStr text)) /\
    1 <= length text <= 5000.
Proof.
  intros rt.
  destruct (proj1 (@block_strategy_takes_shortest_text rt LogPages.pre_page
                     (CoolifyLogs.mkCascade None false) eq_refl))
    as [(_ & Hnone & _)|(text & position & attrs & rest & Hfound & _ & _ & Hlen & _)].
  - by vm_compute in Hnone.
  - exists text. by split.
Defined.

(** ** The keyword lines *)

Section KeywordFacts.
Import CoolifyLogs.

Lemma Matches_Alts_Str_ci ic (words : list JSString) s c s' c' :
  Matches ic (Alts (Str <$> words)) s c s' c' ->
  exists w, w ∈ words /\ Matches ic (Str w) s c s' c'.
Proof.
  induction words as [|w [|w' words] IH]; simpl.
  - by intros (y & _ & Hy & _)%Matches_Class_iff.
  - intros HM. exists w. by split; [left|].
  - intros [HM|HM]%Matches_Alt_iff.
    + exists w. by split; [left|].
    + destruct (IH HM) as (x & Hx & HMx). exists x. by split; [right|].
Qed.

Lemma keyword_found t m :
  found_at re_keyword_line t m ->
  exists word found tail rest,
    word ∈ Observe.keywords /\
    Forall2 (fun x y => sym_eqb true x y = true) word found /\
    m_text m = found ++ tail /\
    (LF ∉ tail) /\ length tail <= 200 /\
    t = (found ++ tail) ++ rest /\
    (rest = [] \/ head rest = Some LF \/ length tail = 200).
Proof.
  intros (t' & Hm & Ht). unfold match_here in Hm.
  cbn [source ignoreCase re_keyword_line] in Hm. unfold Seq in Hm. cbn [foldr] in Hm.
  rewrite rmatch_Cat in Hm.
  apply rmatch_sound in Hm as (s1 & c1 & (c0 & HM & ->)%Matches_Grp_iff & Hm).
  change (Alts _) with (Alts (Str <$> Observe.keywords)) in HM.
  apply Matches_Alts_Str_ci in HM as (word & Hword & HM).
  apply Matches_Str_ci in HM as (found & -> & Hci & ->).
  rewrite rmatch_Cat, rmatch_Rep in Hm.
  apply greedy_run_maximal in Hm as (tail & rest & -> & Htail & _ & Hhi & Hmax & Hk);
    [|by eexists|lia].
  injection Hk as -> _. specialize (Hhi 200 eq_refl).
  exists word, found, tail, t'. split; [done|]. split; [done|]. split.
  { rewrite Ht. rewrite (app_assoc found tail t'). apply take_consumed. }
  split.
  { intros Hin. rewrite Forall_forall in Htail. specialize (Htail _ Hin).
    unfold not_char in Htail. by rewrite N.eqb_refl in Htail. }
  split; [done|]. split; [by rewrite <- app_assoc|].
  destruct Hmax as [Hmax|Hmax].
  - destruct t' as [|y r]; [by left|]. right. left.
    specialize (Hmax y r eq_refl). unfold not_char in Hmax.
    apply negb_false_iff, N.eqb_eq in Hmax. by subst y.
  - right. right. congruence.
Qed.

Lemma ci_line_break x : sym_eqb true x LF = true -> x = LF.
Proof.
  unfold sym_eqb, canonicalize, LF. simpl.
  destruct ((97 <=? x)%N && (x <=? 122)%N) eqn:Ex; intros Hxy%N.eqb_eq; [|done].
  apply andb_true_iff in Ex as [E1%N.leb_le E2%N.leb_le]. lia.
Qed.

Lemma keywords_one_line : Forall (fun w => LF ∉ w) Observe.keywords.
Proof. apply (bool_decide_unpack _). by vm_compute. Qed.

(** The lines of a text joined with line breaks are its parts between
    the line breaks. *)
Lemma split_join_lines (lines : list JSString) :
  lines <> [] -> Forall (fun l => LF ∉ l) lines ->
  Viewer.split LF (join [LF] lines) = lines.
Proof.
  induction lines as [|l [|l' lines] IH]; intros Hne Hall; [done|..].
  - simpl. apply split_whole. by inversion Hall.
  - inversion Hall as [|? ? Hl Hall']; subst.
    change (join [LF] (l :: l' :: lines)) with (l ++ LF :: join [LF] (l' :: lines)).
    rewrite split_app by done. f_equal. by apply IH.
Qed.
End KeywordFacts.

(** The keyword strategy, when no earlier strategy has found the logs:
    it leaves the state as it is when no keyword stands in the page, in
    any case of its letters.  Otherwise it finds a text whose lines, the
    parts between its line breaks, each start with a keyword and go on to
    the end of their line in the page, or stop after 200 characters. *)
Theorem keyword_strategy_lines `{Runtime} (page : JSString) (st : CoolifyLogs.Cascade) :
  CoolifyLogs.logFound st = false ->
  (CoolifyLogs.strategy5 (JStr page) st = Ok st /\
   str_match CoolifyLogs.re_keyword_line page = None) \/
  exists text,
    CoolifyLogs.strategy5 (JStr page) st = Ok (CoolifyLogs.found (JStr text)) /\
    text <> [] /\
    Viewer.split LF text <> [] /\
    Forall (Observe.keyword_line page) (Viewer.split LF text).
Proof.
  intros Hst. unfold CoolifyLogs.strategy5. rewrite Hst. cbn [negb].
  destruct (match_all CoolifyLogs.re_keyword_line page) as [|m ms] eqn:Em.
  - left. split; [done|]. by apply match_all_nil.
  - right. rewrite <- Em.
    assert (Forall (Observe.keyword_line page)
              (m_text <$> match_all CoolifyLogs.re_keyword_line page)) as Hlines.
    { apply Forall_forall. intros l (m0 & -> & Hin)%list_elem_of_fmap.
      apply scan_elem in Hin as (j & Hj & _ & Hf).
      apply keyword_found in Hf
        as (word & found & tail & rest & Hw & Hci & -> & Htail & Hlen & Hd & Hrest).
      by exists word, found, tail, j, rest. }
    assert (Forall (fun l => LF ∉ l) (m_text <$> match_all CoolifyLogs.re_keyword_line page))
      as Hlf.
    { eapply Forall_impl; [exact Hlines|].
      intros l (word & found & tail & _ & _ & Hw & Hci & -> & Htail & _).
      intros [Hin|Hin]%elem_of_app; [|done].
      apply list_elem_of_lookup in Hin as [i Hi].
      destruct (Forall2_lookup_r _ _ _ _ _ Hci Hi) as (x & Hx & Hxy).
      apply ci_line_break in Hxy. subst x. apply list_elem_of_lookup_2 in Hx.
      pose proof keywords_one_line as Hk. rewrite Forall_forall in Hk.
      by apply (Hk word). }
    assert (m_text <$> match_all CoolifyLogs.re_keyword_line page <> []) as Hne
      by (by rewrite Em).
    eexists. split; [reflexivity|].
    rewrite split_join_lines by done. split; [|by split].
    rewrite Em. cbn [fmap list_fmap].
    assert (m_text m <> []) as Hm.
    { assert (m ∈ match_all CoolifyLogs.re_keyword_line page) as Hin by (rewrite Em; by left).
      apply scan_elem in Hin as (j & _ & _ & Hf).
      eapply found_nonempty; [exact Hf|]. vm_compute. lia. }
    destruct (m_text m) eqn:E; [done|]. by destruct ms.
Qed.

(** ** The properties at work *)

Lemma details_status_is_first_word_witness :
  let rt := Scenario.runtime [] in
  let server := Scenario.scripted [Scenario.page 200 Tour.details_page] in
  exists d w',
    Viewer.getDeploymentDetails server 1 LogPages.deployment LogPages.resolved
      = Returned d w' /\
    Viewer.status d = Some (lit "Running").
Proof.
  intros rt server.
  eassert (CoolifyLogs.request server 1
             (CoolifyLogs.application_url (session LogPages.resolved)
              ++ lit "/deployment/" ++ LogPages.deployment)
             no_options LogPages.resolved = Returned _ _) as Hr by reflexivity.
  destruct (@details_status_is_first_word rt server 1 LogPages.deployment LogPages.resolved
              _ _ Tour.details_page Hr eq_refl) as (d & Hd & _ & _ & Hs).
  exists d. eexists. split; [exact Hd|].
  rewrite (getDeploymentDetails_text server 1 _ _ _ _ Tour.details_page Hr eq_refl) in Hd.
  injection Hd as <-. by vm_compute.
Defined.

Lemma details_stamp_runs_to_next_tag_witness :
  let rt := Scenario.runtime [] in
  let server := Scenario.scripted [Scenario.page 200 Tour.details_page] in
  exists d w',
    Viewer.getDeploymentDetails server 1 LogPages.deployment LogPages.resolved
      = Returned d w' /\
    Viewer.startedAt d = Some (lit "2024-05-01 10:00") /\
    Viewer.endedAt d = Some (lit " ").
Proof.
  intros rt server.
  eassert (CoolifyLogs.request server 1
             (CoolifyLogs.application_url (session LogPages.resolved)
              ++ lit "/deployment/" ++ LogPages.deployment)
             no_options LogPages.resolved = Returned _ _) as Hr by reflexivity.
  destruct (@details_stamp_runs_to_next_tag rt server 1 LogPages.deployment
              LogPages.resolved _ _ Tour.details_page Hr eq_refl) as (d & Hd & _).
  exists d. eexists. split; [exact Hd|].
  rewrite (getDeploymentDetails_text server 1 _ _ _ _ Tour.details_page Hr eq_refl) in Hd.
  injection Hd as <-. by vm_compute.
Defined.

Lemma login_posts_token_of_page_witness :
  let rt := Scenario.runtime [] in
  let server := Scenario.scripted [Scenario.page 200 Pages.login_page;
                                   Scenario.page 500 Pages.server_error_page] in
  csrfToken (session (Observe.world_of
    (CoolifyLogs.login server 1 Pages.email Pages.password (Scenario.fresh Scenario.base))))
  = Some (lit "abc123").
Proof.
  intros rt server.
  eassert (CoolifyLogs.request server 1 (baseURL (session (Scenario.fresh Scenario.base))
             ++ lit "/login") no_options (Scenario.fresh Scenario.base) = Returned _ _)
    as Hr by reflexivity.
  rewrite (proj1 (@login_posts_token_of_page rt server 0 Pages.email Pages.password
                    (Scenario.fresh Scenario.base) _ _ Pages.login_page Hr eq_refl)).
  by vm_compute.
Defined.

Lemma discovery_sets_three_ids_witness :
  let rt := Scenario.runtime [] in
  exists w' p e a,
    CoolifyLogs.discoverResources Dashboard.server 1 (Scenario.fresh Scenario.base)
      = Returned true w' /\
    projectId (session w') = Some p /\ environmentId (session w') = Some e /\
    applicationId (session w') = Some a /\ baseURL (session w') = Scenario.base.
Proof.
  intros rt.
  eassert (CoolifyLogs.discoverResources Dashboard.server 1 (Scenario.fresh Scenario.base)
           = Returned true _) as Hd by reflexivity.
  destruct (@discovery_sets_three_ids rt Dashboard.server 1 _ _ Hd)
    as (p & e & a & Hp & _ & He & _ & Ha & _ & Hb & _).
  eexists. exists p, e, a. split; [exact Hd|]. by repeat split.
Defined.

Lemma keyword_strategy_lines_witness :
  let rt := Scenario.runtime [] in
  CoolifyLogs.strategy5 (JStr Tour.build_page) (CoolifyLogs.mkCascade None false)
  = Ok (CoolifyLogs.found
          (JStr (lit "Step 1/4 : FROM node" ++ [LF] ++ lit "Build finished"))).
Proof.
  intros rt.
  destruct (@keyword_strategy_lines rt Tour.build_page (CoolifyLogs.mkCascade None false)
              eq_refl) as [[_ Hnone]|(text & Hfound & _)].
  - by vm_compute in Hnone.
  - rewrite Hfound. vm_compute in Hfound. by injection Hfound as <-.
Defined.

Lemma viewer_with_given_ids_witness :
  let rt := Scenario.runtime [] in
  exists w4,
    Viewer.viewLatestDeploymentLogs Tour.server Tour.env 1
      (Some (lit "p1aaa")) (Some (lit "e1ccc")) (Some (lit "a1eee"))
      (Scenario.fresh Scenario.base) = Returned Process.Completed w4 /\
    req_url <$> sent w4 =
      [lit "https://coolify.example.com/project/p1aaa/environment/e1ccc/application/a1eee/deployment/bbbbbbbbbbbbbbbbbbbbbbbb";
       lit "https://coolify.example.com/project/p1aaa/environment/e1ccc/application/a1eee/deployment/bbbbbbbbbbbbbbbbbbbbbbbb";
       lit "https://coolify.example.com/project/p1aaa/environment/e1ccc/application/a1eee/deployment";
       lit "https://coolify.example.com/login";
       lit "https://coolify.example.com/login"].
Proof.
  intros rt.
  set (w := Scenario.fresh Scenario.base).
  set (u := baseURL (session w) ++ lit "/project/" ++ lit "p1aaa" ++ lit "/environment/"
            ++ lit "e1ccc" ++ lit "/application/" ++ lit "a1eee").
  eassert (CoolifyLogs.login Tour.server 1 Pages.email Pages.password w = Returned true _)
    as Hlogin by reflexivity.
  match type of Hlogin with _ = Returned true ?x => set (w1 := x) in * end.
  set (w1' := mkWorld (CoolifyLogs.set_applicationId (lit "a1eee")
                         (CoolifyLogs.set_environmentId (lit "e1ccc")
                            (CoolifyLogs.set_projectId (lit "p1aaa") (session w1))))
                (sent w1)).
  eassert (CoolifyLogs.request Tour.server 1 (u ++ lit "/deployment") no_options w1'
           = Returned _ _) as Hr2 by reflexivity.
  match type of Hr2 with _ = Returned _ ?x => set (w2 := x) in * end.
  eassert (CoolifyLogs.request Tour.server 1 (u ++ lit "/deployment/" ++ Deployments.id_b)
             no_options w2 = Returned _ _) as Hr3 by reflexivity.
  pose proof (proj2 (@viewer_with_given_ids rt Tour.server Tour.env 1
                       (lit "p1aaa") (lit "e1ccc") (lit "a1eee") w w1
                       eq_refl eq_refl ltac:(done) ltac:(done) ltac:(done) Hlogin
                       _ w2 Tour.deployments_page Hr2 eq_refl)
                Deployments.id_b [Deployments.id_a] _ _ Tour.details_page
                ltac:(by vm_compute) Hr3 eq_refl) as Hv.
  eexists. split; [rewrite Hv; reflexivity|]. reflexivity.
Defined.


(** ** The domains [listAllResources] prints *)

Section DomainFacts.
Import CoolifyLogs.
Context `{Runtime}.

Lemma domain_found t m :
  found_at Resources.re_domain t m ->
  exists host tld,
    capture 1 m = host ++ [chr "."] ++ tld /\
    host <> [] /\ Forall (fun x => Resources.domain_char x = true) host /\
    2 <= length tld /\ Forall (fun x => Resources.letter x = true) tld.
Proof.
  intros (t' & Hm%match_here_Some & _).
  unfold Resources.re_domain, Seq in Hm. cbn [source ignoreCase foldr] in Hm.
  remember (m_groups m) as caps eqn:Hcaps0.
  apply Matches_Cat_iff in Hm as (s1 & c1 & (w1 & -> & _ & ->)%Matches_Str_ci & Hm).
  apply Matches_Cat_iff in Hm as (s2 & c2 & Hopt & Hm).
  apply Matches_Cat_iff in Hm as (s3 & c3 & (w3 & -> & _ & ->)%Matches_Str_ci & Hm).
  clear Hopt. inv_matches.
  match goal with
  | Hdot : sym_eqb true (chr ".") ?y = true |- _ =>
    apply sym_eqb_ci_symbol in Hdot; [|done]; subst y
  end.
  match goal with
  | Hg : m_groups m = <[1 := take _ (?host ++ chr "." :: ?tld ++ ?r)]> _ |- _ =>
    exists host, tld; rename Hg into Hgroups;
    replace (host ++ chr "." :: tld ++ r) with ((host ++ chr "." :: tld) ++ r) in Hgroups
      by (by rewrite <- app_assoc);
    rewrite take_consumed in Hgroups
  end.
  split.
  { unfold capture, group. by rewrite Hgroups, lookup_insert_eq. }
  split; [|by repeat split].
  intros ->. simpl in *. lia.
Qed.

Lemma ascii_lower_domain_char x :
  Resources.domain_char x = true -> Domain.host_char (Resources.ascii_lower x) = true.
Proof.
  unfold Resources.domain_char, Domain.host_char, Resources.ascii_lower.
  intros [[Hl|Hd%N.eqb_eq]%orb_true_iff|Hh%N.eqb_eq]%orb_true_iff.
  - by rewrite Hl.
  - subst x. reflexivity.
  - subst x. reflexivity.
Qed.

Lemma ascii_lower_letter x :
  Resources.letter x = true -> Domain.lower_letter (Resources.ascii_lower x) = true.
Proof. done. Qed.

Lemma toLowerCase_domain m t :
  found_at Resources.re_domain t m ->
  Domain.well_formed (Resources.toLowerCase (capture 1 m)).
Proof.
  intros (host & tld & -> & Hne & Hhost & Hlen & Htld)%domain_found.
  exists (Resources.ascii_lower <$> host), (Resources.ascii_lower <$> tld).
  unfold Resources.toLowerCase. rewrite !fmap_app. split; [done|]. split.
  { by destruct host. }
  split.
  { apply Forall_fmap. eapply Forall_impl; [exact Hhost|]. apply ascii_lower_domain_char. }
  split; [by rewrite length_fmap|].
  apply Forall_fmap. eapply Forall_impl; [exact Htld|]. apply ascii_lower_letter.
Qed.

Lemma app_domains_well_formed apps :
  Forall Domain.well_formed (Resources.app_domains apps) /\
  length (Resources.app_domains apps) <= length apps.
Proof.
  induction apps as [|app rest [IH1 IH2]]; [by split|]. cbn [Resources.app_domains].
  destruct (Get app (lit "fqdn")) as [fqdn|e]; [|split; [done|simpl; lia]].
  destruct (ToBoolean fqdn); [|split; [done|simpl; lia]].
  destruct (method_match (default JNull fqdn) Resources.re_domain) as [[m|]|e] eqn:Em;
    [|split; [done|simpl; lia]..].
  split; [|simpl; lia]. constructor; [|done].
  unfold method_match in Em. destruct (default JNull fqdn) as [| | |s| |]; try done.
  injection Em as Em. apply str_match_found in Em. by eapply toLowerCase_domain.
Qed.

End DomainFacts.

(** The domains [listAllResources] prints for a page of an environment
    are lowercase: each is letters, digits, dots and hyphens, then a dot
    and two letters or more.  There are no more of them than the text of
    the applications holds applications, and none when that text is not
    JSON or not an array. *)
Theorem printed_domains_are_well_formed `{Runtime} (jsonStr : JSString) :
  Forall Domain.well_formed (Resources.page_domains jsonStr) /\
  match JSON_parse (Resources.decode_applications jsonStr) with
  | Some (JArr apps) => length (Resources.page_domains jsonStr) <= length apps
  | _ => Resources.page_domains jsonStr = []
  end.
Proof.
  unfold Resources.page_domains.
  destruct (JSON_parse (Resources.decode_applications jsonStr)) as [[| | | |apps|]|];
    try (by split).
  apply app_domains_well_formed.
Qed.

(** ** [listAllResources] *)

Section ListingFacts.
Import CoolifyLogs.
Context `{Runtime} (server : Server).

(** The scan of the dashboard throws exactly when a project is called
    [constructor]. *)
Lemma scan_projects_raised ms : forall e,
  foldl (fun acc m => acc ≫= fun projects => Resources.note_environment projects m)
        (Raise e) ms = Raise e.
Proof. induction ms as [|m ms IH]; intros e; [done|]. apply IH. Qed.






End ListingFacts.


(** ** The projects of a dashboard *)

Section ProjectsFacts.
Import CoolifyLogs.
Context `{Runtime}.

Lemma str_eqb_eq (a b : JSString) : str_eqb a b = true <-> a = b.
Proof.
  revert b. induction a as [|x a IH]; intros [|y b]; simpl; try done.
  rewrite andb_true_iff, N.eqb_eq, IH. split; [by intros [-> ->]|by intros [= -> ->]].
Qed.

Lemma environments_of_None p projects :
  Resources.environments_of p projects = None <-> p ∉ projects.*1.
Proof.
  induction projects as [|[k envs] projects IH]; simpl; [set_solver|].
  destruct (str_eqb k p) eqn:E.
  - apply str_eqb_eq in E as ->. set_solver.
  - assert (k <> p) by (intros ->; by rewrite (proj2 (str_eqb_eq p p) eq_refl) in E).
    rewrite IH. set_solver.
Qed.

Lemma environments_of_Some p envs projects :
  NoDup projects.*1 ->
  Resources.environments_of p projects = Some envs <-> (p, envs) ∈ projects.
Proof.
  induction projects as [|[k envs'] projects IH]; simpl; intros Hnd; [set_solver|].
  apply NoDup_cons in Hnd as [Hk Hnd].
  destruct (str_eqb k p) eqn:E.
  - apply str_eqb_eq in E as ->. split.
    + intros [= ->]. by left.
    + intros [[= ->]|Hin]%elem_of_cons; [done|].
      exfalso. apply Hk. apply list_elem_of_fmap. by exists (p, envs).
  - assert (k <> p) by (intros ->; by rewrite (proj2 (str_eqb_eq p p) eq_refl) in E).
    rewrite IH by done. set_solver.
Qed.

Lemma push_environment_keys p e projects :
  (Resources.push_environment p e projects).*1 = projects.*1.
Proof.
  induction projects as [|[k envs] projects IH]; [done|].
  cbn [Resources.push_environment].
  destruct (str_eqb k p); [done|]. rewrite !fmap_cons. by rewrite IH.
Qed.

Lemma push_environment_elem p e projects q envs :
  NoDup projects.*1 ->
  (q, envs) ∈ Resources.push_environment p e projects <->
  (q <> p /\ (q, envs) ∈ projects) \/
  (q = p /\ exists old, (p, old) ∈ projects /\ envs = old ++ [e]).
Proof.
  induction projects as [|[k envs'] projects IH]; simpl; intros Hnd; [set_solver|].
  apply NoDup_cons in Hnd as [Hk Hnd].
  destruct (str_eqb k p) eqn:E.
  - apply str_eqb_eq in E as ->.
    assert (forall old, (p, old) ∉ projects) as Hfresh.
    { intros old Hin. apply Hk. apply list_elem_of_fmap. by exists (p, old). }
    rewrite !elem_of_cons. split.
    + intros [E|Hin].
      * injection E as -> ->. right. split; [done|]. exists envs'. split; [by left|done].
      * left. split; [|by right]. intros ->. by apply (Hfresh envs).
    + intros [[Hq [E|Hin]]|[-> (old & [E|Hin]%elem_of_cons & ->)]].
      * by simplify_eq.
      * by right.
      * simplify_eq. by left.
      * by destruct (Hfresh old).
  - assert (k <> p) by (intros ->; by rewrite (proj2 (str_eqb_eq p p) eq_refl) in E).
    clear E. rewrite !elem_of_cons, IH by done. split.
    + intros [E|[[Hq Hin]|[-> (old & Hin & ->)]]].
      * injection E as -> ->. left. split; [done|by left].
      * left. split; [done|by right].
      * right. split; [done|]. exists old. split; [by right|done].
    + intros [[Hq [E|Hin]]|[-> (old & [E|Hin]%elem_of_cons & ->)]].
      * by left.
      * right. left. by split.
      * by simplify_eq.
      * right. right. split; [done|]. by exists old.
Qed.

Lemma pairs_elem projects p e :
  (p, e) ∈ Listing.pairs projects <-> exists envs, (p, envs) ∈ projects /\ e ∈ envs.
Proof.
  unfold Listing.pairs. rewrite list_elem_of_bind. split.
  - intros ([q envs] & (e' & [= -> ->] & Hin)%list_elem_of_fmap & Hq). simpl in *.
    by exists envs.
  - intros (envs & Hq & Hin). exists (p, envs). split; [|done].
    apply list_elem_of_fmap. by exists e.
Qed.

Lemma pairs_NoDup projects :
  NoDup projects.*1 -> Forall (fun project => NoDup project.2) projects ->
  NoDup (Listing.pairs projects).
Proof.
  induction projects as [|[k envs] projects IH]; [constructor|].
  rewrite fmap_cons. intros [Hk Hnd]%NoDup_cons [He Hall]%Forall_cons.
  unfold Listing.pairs. rewrite bind_cons. fold (Listing.pairs projects).
  apply NoDup_app. split; [|split; [|by apply IH]].
  - simpl. apply NoDup_fmap_2; [|done]. by intros ?? [=].
  - intros [p e] (e' & [= -> ->] & Hin)%list_elem_of_fmap
      (envs' & Hp & _)%pairs_elem. simpl in *.
    apply Hk. apply list_elem_of_fmap. by exists (k, envs').
Qed.

Lemma note_environment_scanned projects seen m projects' :
  Listing.scanned projects seen ->
  Resources.note_environment projects m = Ok projects' ->
  Listing.scanned projects' (seen ++ [m]).
Proof.
  intros (Hkeys & Hall & Hpairs). unfold Resources.note_environment. cbn zeta.
  destruct (str_eqb (capture 1 m) (lit "constructor")); [done|].
  assert (Hseen : forall p e,
    (exists m', m' ∈ seen ++ [m] /\ Listing.pair_of m' = (p, e)) <->
    (p, e) ∈ Listing.pairs projects \/ (p, e) = (capture 1 m, capture 2 m)).
  { intros p e. rewrite Hpairs. split.
    - intros (m' & [Hin| ->%list_elem_of_singleton]%elem_of_app & E).
      + left. by exists m'.
      + by right.
    - intros [(m' & Hin & E)|E].
      + exists m'. split; [|done]. apply elem_of_app. by left.
      + exists m. split; [|done]. apply elem_of_app. right. by apply list_elem_of_singleton. }
  destruct (Resources.environments_of (capture 1 m) projects) as [envs|] eqn:Eenv.
  - apply environments_of_Some in Eenv; [|done].
    destruct (bool_decide (capture 2 m ∈ envs)) eqn:Ehas.
    + intros [= <-]. apply bool_decide_eq_true in Ehas.
      split; [done|]. split; [done|]. intros p e. rewrite Hseen. split; [by left|].
      intros [Hin|[= -> ->]]; [done|]. apply pairs_elem. by exists envs.
    + intros [= <-]. apply bool_decide_eq_false in Ehas.
      split; [by rewrite push_environment_keys|]. split.
      * apply Forall_forall. intros [q envs'] Hin.
        apply push_environment_elem in Hin; [|done]. simpl.
        destruct Hin as [[_ Hin]|[-> (old & Hin & ->)]].
        -- by apply (proj1 (Forall_forall _ _) Hall (q, envs')).
        -- assert (old = envs) as ->.
           { apply environments_of_Some in Hin, Eenv; try done. congruence. }
           apply NoDup_app. split; [|split; [|apply NoDup_singleton]].
           ++ by apply (proj1 (Forall_forall _ _) Hall (capture 1 m, envs)).
           ++ by intros x Hx ->%list_elem_of_singleton.
      * intros p e. rewrite Hseen, !pairs_elem. split.
        -- intros (envs' & [[Hp Hin]|[-> (old & Hin & ->)]]%push_environment_elem & He);
             [| |done].
           ++ left. by exists envs'.
           ++ apply elem_of_app in He as [He| ->%list_elem_of_singleton]; [|by right].
              left. by exists old.
        -- intros [(envs' & Hin & He)|[= -> ->]].
           ++ destruct (decide (p = capture 1 m)) as [->|Hp].
              ** exists (envs' ++ [capture 2 m]). split; [|apply elem_of_app; by left].
                 apply push_environment_elem; [done|]. right. split; [done|]. by exists envs'.
              ** exists envs'. split; [|done].
                 apply push_environment_elem; [done|]. left. by split.
           ++ exists (envs ++ [capture 2 m]).
              split; [|apply elem_of_app; right; by apply list_elem_of_singleton].
              apply push_environment_elem; [done|]. right. split; [done|]. by exists envs.
  - apply environments_of_None in Eenv. intros [= <-]. split; [|split].
    + rewrite fmap_app. apply NoDup_app. split; [done|].
      split; [|apply NoDup_singleton].
      by intros x Hx ->%list_elem_of_singleton.
    + apply Forall_app. split; [done|]. constructor; [|done]. apply NoDup_singleton.
    + intros p e. rewrite Hseen. unfold Listing.pairs. rewrite bind_app.
      fold (Listing.pairs projects). rewrite elem_of_app. simpl.
      rewrite list_elem_of_singleton. done.
Qed.

Lemma scan_projects_scanned ms : forall projects seen projects',
  Listing.scanned projects seen ->
  foldl (fun acc m => acc ≫= fun projects => Resources.note_environment projects m)
        (Ok projects) ms = Ok projects' ->
  Listing.scanned projects' (seen ++ ms).
Proof.
  induction ms as [|m ms IH]; intros projects seen projects' Hs.
  - intros [= <-]. by rewrite app_nil_r.
  - cbn [foldl].
    change (Ok projects ≫= fun projects => Resources.note_environment projects m)
      with (Resources.note_environment projects m).
    destruct (Resources.note_environment projects m) as [projects1|e] eqn:E1.
    + intros Hf. rewrite (assoc_L _ seen [m] ms : seen ++ m :: ms = (seen ++ [m]) ++ ms).
      eapply IH; [|exact Hf]. by eapply note_environment_scanned.
    + by rewrite scan_projects_raised.
Qed.

(** [Object.entries] gives every project once. *)
Lemma insert_entry_Permutation e l : Resources.insert_entry e l ≡ₚ e :: l.
Proof.
  induction l as [|x l IH]; [done|]. cbn [Resources.insert_entry].
  destruct (_ <=? _)%N; [done|]. rewrite IH. apply Permutation_swap.
Qed.

Lemma entries_Permutation projects : Resources.entries projects ≡ₚ projects.
Proof.
  unfold Resources.entries.
  assert (forall l, foldr Resources.insert_entry [] l ≡ₚ l) as ->.
  { induction l as [|x l IH]; [done|]. simpl. by rewrite insert_entry_Permutation, IH. }
  induction projects as [|x l IH]; [done|]. simpl.
  destruct (Resources.is_array_index x.1); simpl.
  - by rewrite IH.
  - rewrite <- Permutation_middle. by rewrite IH.
Qed.
End ProjectsFacts.

Section PagesFacts.
Import CoolifyLogs.
Context `{Runtime} (server : Server).

Lemma each_page_app fuel ps qs : forall w,
  Listing.each_page server fuel (ps ++ qs) w =
  (here ← Listing.each_page server fuel ps;
   later ← Listing.each_page server fuel qs;
   mret (here ++ later)) w.
Proof.
  induction ps as [|[p e] ps IH]; intros w.
  - simpl. unfold mbind, M_bind, bind, mret, M_ret, ret.
    by destruct (Listing.each_page server fuel qs w).
  - cbn [app Listing.each_page]. unfold mbind, M_bind, bind, mret, M_ret, ret in *.
    destruct (Resources.environment_page server fuel p e w) as [ds w1|x w1|w1]; [|done..].
    rewrite IH.
    destruct (Listing.each_page server fuel ps w1) as [ds1 w2|x w2|w2]; [|done..].
    destruct (Listing.each_page server fuel qs w2) as [ds2 w3|x w3|w3]; [|done..].
    by rewrite app_assoc.
Qed.

Lemma each_environment_pages fuel p envs : forall w,
  Resources.each_environment server fuel p envs w =
  Listing.each_page server fuel ((fun e => (p, e)) <$> envs) w.
Proof.
  induction envs as [|e envs IH]; intros w; [done|].
  cbn [fmap list_fmap Resources.each_environment Listing.each_page].
  unfold mbind, M_bind, bind.
  destruct (Resources.environment_page server fuel p e w) as [ds w1|x w1|w1]; [|done..].
  by rewrite IH.
Qed.

Lemma each_project_pages fuel projects : forall w,
  Resources.each_project server fuel projects w =
  Listing.each_page server fuel (Listing.pairs projects) w.
Proof.
  induction projects as [|[p envs] projects IH]; intros w; [done|].
  unfold Listing.pairs. rewrite bind_cons. fold (Listing.pairs projects).
  rewrite each_page_app. cbn [Resources.each_project fst snd].
  unfold mbind at 1 3, M_bind, bind. rewrite each_environment_pages.
  destruct (Listing.each_page server fuel _ w) as [ds w1|x w1|w1]; [|done..].
  unfold mbind, M_bind, bind. by rewrite IH.
Qed.
End PagesFacts.

(** When the scan of the dashboard gives the projects, the loops of
    [listAllResources] ask for the page of one project and environment
    after the other, each pair once, and the pairs are exactly those of
    the links of the dashboard. *)
Theorem dashboard_pairs_visited_once `{Runtime} (server : Server) text projects :
  Resources.scan_projects text = Ok projects ->
  let visited := Listing.pairs (Resources.entries projects) in
  (forall fuel w, Resources.each_project server fuel (Resources.entries projects) w =
                  Listing.each_page server fuel visited w) /\
  NoDup visited /\
  forall p e, (p, e) ∈ visited <->
              exists m, m ∈ match_all Resources.projectRegex text /\
                        Listing.pair_of m = (p, e).
Proof.
  intros Hscan visited.
  assert (Listing.scanned projects (match_all Resources.projectRegex text))
    as (Hkeys & Hall & Hpairs).
  { apply (scan_projects_scanned _ [] [] projects); [|exact Hscan].
    split; [constructor|]. split; [constructor|].
    intros p e. split; [by intros ?%elem_of_nil|by intros (m & ?%elem_of_nil & _)]. }
  assert (visited ≡ₚ Listing.pairs projects) as Hperm.
  { unfold visited, Listing.pairs. by rewrite entries_Permutation. }
  split; [intros fuel w; apply each_project_pages|]. split.
  - rewrite Hperm. by apply pairs_NoDup.
  - intros p e. rewrite Hperm. apply Hpairs.
Qed.

Lemma dashboard_pairs_visited_once_witness :
  NoDup (Listing.pairs (Resources.entries [(lit "b", [lit "x"; lit "y"]); (lit "7", [lit "z"])])).
Proof.
  apply (dashboard_pairs_visited_once (H := Scenario.runtime []) (Scenario.scripted [])
    (lit "/project/b/environment/x /project/7/environment/z /project/b/environment/y /project/b/environment/x")).
  reflexivity.
Defined.

(** ** The program *)

Section MainFacts.
Import CoolifyLogs.
Context `{Runtime} (server : Server).

Lemma list_resources_body env fuel w :
  let email := Process.or_else (Process.COOLIFY_USERNAME env) (Process.U env) in
  let password := Process.or_else (Process.COOLIFY_PASSWORD env) (Process.P env) in
  Cli.list_resources server env fuel w =
  if negb (id_truthy email) || negb (id_truthy password)
  then Returned (Process.Exited 1) w
  else
    match login server fuel (default [] email) (default [] password) w with
    | Returned _ w1 =>
      match Resources.listAllResources server fuel w1 with
      | Returned _ w2 => Returned Process.Completed w2
      | Thrown _ w2 => Returned (Process.Exited 1) w2
      | Pending w2 => Pending w2
      end
    | Thrown _ w1 => Returned (Process.Exited 1) w1
    | Pending w1 => Pending w1
    end.
Proof.
  intros email password.
  unfold Cli.list_resources. fold email password.
  destruct (negb (id_truthy email) || negb (id_truthy password)); [reflexivity|].
  unfold try_catch, mbind, M_bind, bind, mret, M_ret, ret.
  destruct (login server fuel (default [] email) (default [] password) w)
    as [b w1|e w1|w1]; [|done..].
  by destruct (Resources.listAllResources server fuel w1).
Qed.

Lemma list_resources_cases env fuel w :
  match Cli.list_resources server env fuel w with
  | Returned Process.Completed _ => True
  | Returned (Process.Exited code) _ => code = 1%Z
  | Thrown _ _ => False
  | Pending _ => True
  end.
Proof.
  rewrite list_resources_body. cbn zeta.
  destruct (negb _ || negb _); [done|].
  destruct (login server fuel _ _ w) as [b w1|e w1|w1]; [|done..].
  by destruct (Resources.listAllResources server fuel w1).
Qed.
End MainFacts.

(** The program, whatever its arguments are, never ends with an
    exception: it runs to its end, or exits with the code 1.  When the
    user name or the password is missing it exits with the code 1 and has
    sent no request, for the command [list] as for the others. *)
Theorem program_exits_with_1_or_completes `{Runtime} (server : Server) env fuel args :
  let email := Process.or_else (Process.COOLIFY_USERNAME env) (Process.U env) in
  let password := Process.or_else (Process.COOLIFY_PASSWORD env) (Process.P env) in
  let outcome := Cli.main server env fuel args in
  (forall e w, outcome <> Thrown e w) /\
  (forall code w, outcome = Returned (Process.Exited code) w -> code = 1%Z) /\
  (CoolifyLogs.id_truthy email = false \/ CoolifyLogs.id_truthy password = false ->
   exists w, outcome = Returned (Process.Exited 1) w /\ sent w = []).
Proof.
  intros email password outcome.
  assert (Hcases :
    match outcome with
    | Returned Process.Completed _ => True
    | Returned (Process.Exited code) _ => code = 1%Z
    | Thrown _ _ => False
    | Pending _ => True
    end).
  { unfold outcome, Cli.main.
    destruct (Viewer.parse_arguments env args) as [baseURL command].
    destruct (str_eqb command (lit "list")); [apply list_resources_cases|].
    destruct (Viewer.command_ids command) as [[p e] a]. apply viewLatest_cases. }
  split; [|split].
  - intros e w E. by rewrite E in Hcases.
  - intros code w E. by rewrite E in Hcases.
  - intros Hmiss. unfold outcome, Cli.main.
    destruct (Viewer.parse_arguments env args) as [baseURL command].
    assert (negb (CoolifyLogs.id_truthy email) || negb (CoolifyLogs.id_truthy password) = true)
      as Hm by (by destruct Hmiss as [-> | ->]; rewrite ?orb_true_r).
    destruct (str_eqb command (lit "list")).
    + eexists. rewrite list_resources_body. cbn zeta. fold email password.
      rewrite Hm. by split.
    + destruct (Viewer.command_ids command) as [[p e] a].
      eexists. rewrite viewLatest_body. cbn zeta. fold email password.
      rewrite Hm. by split.
Qed.

(** ** The cookies of the session, response by response *)

Section ExchangeFacts.
Import CoolifyLogs.
Context `{Runtime} (server : Server).

Lemma last_pairs_snoc c0 responses res s :
  cookies s = Exchange.last_pairs c0 responses ->
  cookies (capture_cookies res s) = Exchange.last_pairs c0 (responses ++ [res]).
Proof.
  unfold Exchange.last_pairs, capture_cookies. intros Hs. rewrite omap_app. simpl.
  destruct (set_cookie res) as [cs|]; simpl.
  - by rewrite last_snoc.
  - by rewrite app_nil_r.
Qed.

Lemma replies_snoc_Reply l res :
  Exchange.replies (l ++ [Reply res]) = Exchange.replies l ++ [res].
Proof. unfold Exchange.replies. by rewrite omap_app. Qed.

Lemma replies_snoc_Refuse l code :
  Exchange.replies (l ++ [Refuse code]) = Exchange.replies l.
Proof. unfold Exchange.replies. rewrite omap_app. simpl. by rewrite app_nil_r. Qed.

(** What one call of [request] adds to the requests sent, and what it
    makes of the cookies. *)
Lemma request_cookies c0 base options fuel : forall url w before,
  sent w = before ++ base ->
  cookies (session w)
    = Exchange.last_pairs c0 (Exchange.replies (Exchange.answers server before base)) ->
  exists new,
    sent (Observe.world_of (request server fuel url options w)) = new ++ before ++ base /\
    cookies (session (Observe.world_of (request server fuel url options w)))
      = Exchange.last_pairs c0
          (Exchange.replies (Exchange.answers server (new ++ before) base)) /\
    (fuel <> 0 -> new <> []) /\
    forall later r earlier, new = later ++ r :: earlier ->
      let c := Exchange.last_pairs c0
                 (Exchange.replies (Exchange.answers server (earlier ++ before) base)) in
      req_method r = request_method options /\
      req_body r = request_body options /\
      req_headers r !! lit "Cookie" =
        if str_truthy c then Some (HStr c) else opt_headers options !! lit "Cookie".
Proof.
  induction fuel as [|fuel IH]; intros url w before Hsent Hjar.
  - exists []. split; [done|]. split; [done|]. split; [done|].
    intros later r earlier E. by destruct later.
  - rewrite request_S. cbn zeta. cbn [sent session].
    set (r0 := outgoing (session w) url options).
    assert (Hr0 : req_method r0 = request_method options /\
                  req_body r0 = request_body options /\
                  req_headers r0 !! lit "Cookie" =
                  if str_truthy (Exchange.last_pairs c0
                       (Exchange.replies (Exchange.answers server before base)))
                  then Some (HStr (Exchange.last_pairs c0
                       (Exchange.replies (Exchange.answers server before base))))
                  else opt_headers options !! lit "Cookie").
    { split; [done|]. split; [done|].
      unfold r0. cbn [req_headers outgoing]. by rewrite request_headers_cookie, Hjar. }
    assert (Hone : forall later r earlier, [r0] = later ++ r :: earlier ->
              later = [] /\ r = r0 /\ earlier = []).
    { intros [|x later] r earlier E; [by injection E as <- <-|].
      injection E as _ E. by destruct later. }
    rewrite Hsent.
    destruct (server (r0 :: before ++ base)) as [res|code] eqn:Hans.
    + assert (Hjar2 : cookies (capture_cookies res (session w))
                = Exchange.last_pairs c0
                    (Exchange.replies (Exchange.answers server (r0 :: before) base))).
      { cbn [Exchange.answers]. rewrite Hans, replies_snoc_Reply.
        by apply last_pairs_snoc. }
      destruct (is_redirect res).
      * match goal with
        | |- context [request server fuel ?u options ?w2] =>
          destruct (IH u w2 (r0 :: before)) as (new & Hs & Hc & _ & Hreq); [done|done|]
        end.
        exists (new ++ [r0]). rewrite <- !app_assoc. split; [exact Hs|].
        split; [exact Hc|]. split; [by destruct new|].
        intros later r earlier E.
        destruct earlier as [|x earlier _] using rev_ind.
        -- apply app_inj_tail in E as [_ <-].
           rewrite app_nil_l. exact Hr0.
        -- rewrite app_comm_cons, app_assoc in E. apply app_inj_tail in E as [E <-].
           rewrite <- app_assoc. apply (Hreq later r earlier E).
      * exists [r0]. split; [done|]. split; [exact Hjar2|]. split; [done|].
        intros later r earlier (-> & -> & ->)%Hone. exact Hr0.
    + exists [r0]. split; [done|]. split.
      * cbn [Exchange.answers app]. rewrite Hans, replies_snoc_Refuse. exact Hjar.
      * split; [done|]. intros later r earlier (-> & -> & ->)%Hone. exact Hr0.
Qed.
End ExchangeFacts.

(** C2, as the code has it.  Every response that bears Set-Cookie
    headers replaces the cookie string of the session by the join, with
    [; ], of the [name=value] portions of its own headers (what follows
    the first semicolon of each is dropped); a response without any
    leaves the string as it is.  So, when the cookies of the session are
    those of the last response that set some, among the answers to the
    requests sent so far, they are so again after a call of [request],
    however it ends: the call sends one request at least, every request
    it sends, the first and those that follow a redirect, carries as
    [Cookie] the pairs of the last response received before it that set
    some, and so does the first request of the next call.  The pairs of
    earlier responses are not kept, and receiving the same response again
    changes nothing. *)
Theorem cookie_header_last_set_cookie `{Runtime} (server : Server)
    fuel url options w c0 before base :
  sent w = before ++ base ->
  cookies (session w)
    = Exchange.last_pairs c0 (Exchange.replies (Exchange.answers server before base)) ->
  let w' := Observe.world_of (CoolifyLogs.request server fuel url options w) in
  let received (requests : list Request) :=
    Exchange.replies (Exchange.answers server requests base) in
  (exists new,
     sent w' = new ++ before ++ base /\
     (fuel <> 0 -> new <> []) /\
     cookies (session w') = Exchange.last_pairs c0 (received (new ++ before)) /\
     forall later r earlier, new = later ++ r :: earlier ->
       let c := Exchange.last_pairs c0 (received (earlier ++ before)) in
       req_method r = CoolifyLogs.request_method options /\
       req_body r = CoolifyLogs.request_body options /\
       req_headers r !! lit "Cookie" =
         if str_truthy c then Some (HStr c) else opt_headers options !! lit "Cookie") /\
  (forall url' options',
     req_headers (CoolifyLogs.outgoing (session w') url' options') !! lit "Cookie" =
       if str_truthy (cookies (session w')) then Some (HStr (cookies (session w')))
       else opt_headers options' !! lit "Cookie") /\
  (forall responses res cs,
     set_cookie res = Some cs ->
     Exchange.last_pairs c0 (responses ++ [res]) = Exchange.pairs cs /\
     Exchange.last_pairs c0 (responses ++ [res; res])
       = Exchange.last_pairs c0 (responses ++ [res])) /\
  (forall responses res,
     set_cookie res = None ->
     Exchange.last_pairs c0 (responses ++ [res]) = Exchange.last_pairs c0 responses).
Proof.
  intros Hsent Hjar w' received.
  split; [|split; [|split]].
  - destruct (request_cookies server c0 base options fuel url w before Hsent Hjar)
      as (new & Hs & Hc & Hne & Hreq).
    exists new. done.
  - intros url' options'. apply request_headers_cookie.
  - intros responses res cs Hcs. unfold Exchange.last_pairs.
    rewrite !omap_app. simpl. rewrite Hcs. simpl.
    split; [by rewrite last_snoc|].
    change [cs; cs] with ([cs] ++ [cs]). by rewrite app_assoc, !last_snoc.
  - intros responses res Hcs. unfold Exchange.last_pairs.
    rewrite omap_app. simpl. rewrite Hcs. simpl. by rewrite app_nil_r.
Qed.

(** C2, at a second call after a first response that set [a=1]: the
    second response sets [b=2], and the cookies of the session are then
    the pairs of the second response alone. *)
Lemma cookie_header_last_set_cookie_witness :
  let rt := Scenario.runtime [] in
  let r1 := mkIncoming 200 (Some [lit "a=1; Path=/"]) None (lit "one") in
  let r2 := mkIncoming 200 (Some [lit "b=2; Path=/"]) None (lit "two") in
  let server := Scenario.scripted [Reply r1; Reply r2] in
  let url := Scenario.base ++ lit "/x" in
  let w1 := Observe.world_of
              (CoolifyLogs.request server 1 url no_options (Scenario.fresh Scenario.base)) in
  let w2 := Observe.world_of (CoolifyLogs.request server 1 url no_options w1) in
  cookies (session w1) = lit "a=1" /\
  exists new,
    sent w2 = new ++ sent w1 ++ [] /\
    (1 <> 0 -> new <> []) /\
    cookies (session w2)
      = Exchange.last_pairs [] (Exchange.replies (Exchange.answers server (new ++ sent w1) [])) /\
    forall later r earlier, new = later ++ r :: earlier ->
      let c := Exchange.last_pairs []
                 (Exchange.replies (Exchange.answers server (earlier ++ sent w1) [])) in
      req_method r = CoolifyLogs.request_method no_options /\
      req_body r = CoolifyLogs.request_body no_options /\
      req_headers r !! lit "Cookie" =
        if str_truthy c then Some (HStr c) else opt_headers no_options !! lit "Cookie".
Proof.
  intros rt r1 r2 server url w1 w2. split; [reflexivity|].
  apply (proj1 (@cookie_header_last_set_cookie rt server 1 url no_options w1 []
                  (sent w1) [] (eq_sym (app_nil_r _)) eq_refl)).
Defined.

(** ** The list of the deployments, match by match *)

Section AnnotatedFacts.
Import CoolifyLogs Picks Deployments.

(** A run of tags, as the pattern reads it. *)
Lemma Matches_tags g r s c s' c' :
  Matches false r s c s' c' ->
  forall lo hi,
    r = Rep g lo hi (Seq [Sym (chr "<"); Star (Class (not_char (chr ">"))); Sym (chr ">")]) ->
    exists insides,
      s = Annotated.tags insides ++ s' /\ Forall (fun a => chr ">" ∉ a) insides /\ c' = c.
Proof.
  induction 1 as [| | | | | |g0 hi0 r0 s c
                 |g0 lo0 hi0 r0 s c s1 c1 s2 c2 Hhi M1 _ Hlen M2 IH2|];
    intros lo hi Hr; try discriminate.
  - exists []. by split.
  - injection Hr as -> -> -> ->.
    destruct (IH2 _ _ eq_refl) as (insides & -> & Hall & ->).
    inv_matches.
    match goal with
    | Hw : Forall _ ?w |- _ =>
      exists (w :: insides); split; [|split; [constructor; [|done]|done]]
    end.
    + unfold Annotated.tags. rewrite bind_cons. by rewrite <- !app_assoc.
    + intros Hin.
      match goal with
      | Hw : Forall _ _ |- _ => rewrite Forall_forall in Hw; specialize (Hw _ Hin)
      end.
      unfold not_char in *. by rewrite N.eqb_refl in *.
Qed.

Lemma not_char_Forall (x : N) (w : JSString) :
  Forall (fun y => not_char x y = true) w -> x ∉ w.
Proof.
  rewrite Forall_forall. intros Hw Hin. specialize (Hw _ Hin).
  unfold not_char in Hw. by rewrite N.eqb_refl in Hw.
Qed.

(** A match of the annotated pattern: the link, then text without an
    opening bracket, then tags, then the note, a text without an opening
    bracket that holds a status word. *)
Lemma deploymentPattern_shape t m :
  found_at deploymentPattern t m ->
  exists gap insides rest,
    t = lit "/deployment/" ++ capture 1 m ++ gap ++ Annotated.tags insides
        ++ capture 2 m ++ rest /\
    m_text m = lit "/deployment/" ++ capture 1 m ++ gap ++ Annotated.tags insides
               ++ capture 2 m /\
    (chr "<" ∉ gap) /\ Forall (fun a => chr ">" ∉ a) insides /\
    (chr "<" ∉ capture 2 m) /\
    exists word, word ∈ Viewer.status_words /\ includes (capture 2 m) word = true.
Proof.
  intros (t' & Hm%match_here_Some & Ht).
  unfold deploymentPattern, Seq in Hm. cbn [source ignoreCase foldr] in Hm.
  remember (m_groups m) as caps eqn:Hcaps0.
  apply Matches_Cat_iff in Hm as (s1 & c1 & [-> ->]%Matches_Str_iff & Hm).
  apply Matches_Cat_iff in Hm as (s2 & c2 & Hg & Hm).
  apply Matches_Grp_iff in Hg as (c & Hrep & ->).
  apply Matches_Rep_Class in Hrep as (id & -> & _ & _ & _ & ->).
  apply Matches_Cat_iff in Hm as (s3 & c3 & Hgap & Hm).
  apply Matches_Rep_Class in Hgap as (gap & -> & _ & _ & Hgap & ->).
  apply Matches_Cat_iff in Hm as (s4 & c4 & Htags & Hm).
  eapply Matches_tags in Htags as (insides & -> & Hinsides & ->); [|reflexivity].
  apply Matches_Cat_iff in Hm as (s5 & c5 & Hnote & Hend).
  apply Matches_Eps_iff in Hend as [Hs5 Hc5]. subst s5 c5.
  apply Matches_Grp_iff in Hnote as (c6 & Hnote & Hcaps). rewrite Hcaps0 in Hcaps.
  apply Matches_Cat_iff in Hnote as (s6 & c7 & Hbefore & Hnote).
  apply Matches_Rep_Class in Hbefore as (before & -> & _ & _ & Hbefore & ->).
  apply Matches_Cat_iff in Hnote as (s7 & c8 & Hword & Hnote).
  change (Alts _) with (Alts (Str <$> Viewer.status_words)) in Hword.
  apply Matches_Alts_Str in Hword as (word & Hword & -> & ->).
  apply Matches_Cat_iff in Hnote as (s8 & c9 & Hafter & Hend).
  apply Matches_Eps_iff in Hend as [Hs8 Hc9]. subst s8 c9.
  apply Matches_Rep_Class in Hafter as (after & -> & _ & _ & Hafter & ->).
  assert (capture 1 m = id) as E1.
  { unfold capture, group. rewrite Hcaps, lookup_insert_ne by done.
    rewrite lookup_insert_eq. simpl. apply take_consumed. }
  assert (capture 2 m = before ++ word ++ after) as E2.
  { unfold capture, group. rewrite Hcaps, lookup_insert_eq. simpl.
    rewrite (app_assoc before), (app_assoc (before ++ word)).
    rewrite take_consumed. by rewrite <- ?app_assoc. }
  exists gap, insides, t'. rewrite E1, E2.
  split; [by rewrite <- ?app_assoc|]. split.
  { rewrite Ht.
    replace (lit "/deployment/" ++ id ++ gap ++ Annotated.tags insides
             ++ before ++ word ++ after ++ t')
      with ((lit "/deployment/" ++ id ++ gap ++ Annotated.tags insides
             ++ before ++ word ++ after) ++ t') by (by rewrite <- !app_assoc).
    rewrite take_consumed. by rewrite <- ?app_assoc. }
  split; [by apply not_char_Forall|]. split; [done|]. split.
  { rewrite !elem_of_app. intros [Hin|[Hin|Hin]].
    - by apply not_char_Forall in Hbefore.
    - revert Hin. clear -Hword. unfold Viewer.status_words in Hword.
      repeat (apply elem_of_cons in Hword as [->|Hword];
              [apply (bool_decide_unpack _); by vm_compute|]).
      by apply elem_of_nil in Hword.
    - by apply not_char_Forall in Hafter. }
  exists word. split; [done|].
  apply includes_spec. exists (length before). split; [rewrite !length_app; lia|].
  rewrite drop_app_length. apply startsWith_spec. by exists after.
Qed.

(** The identifiers a scan keeps are those of the matches at which the
    scan first met them. *)
Lemma collect_picks re text :
  exists picks,
    collect re text = capture 1 <$> picks /\
    StronglySorted lt (m_index <$> picks) /\
    (forall pick, pick ∈ picks ->
       pick ∈ match_all re text /\
       forall m, m ∈ match_all re text -> capture 1 m = capture 1 pick ->
                 m_index pick <= m_index m) /\
    (forall m, m ∈ match_all re text -> capture 1 m ∈ collect re text).
Proof.
  exists (first_matches [] (match_all re text)).
  split; [apply collect_first_matches|].
  split; [apply first_matches_sorted, scan_sorted|]. split.
  - intros pick Hpick. split; [by apply first_matches_elem in Hpick as [? _]|].
    intros m Hm Hc. eapply first_matches_first; eauto. apply scan_sorted.
  - intros m Hm. apply collect_elem. by exists m.
Qed.

Lemma scanned_nil text :
  Annotated.scanned text = [] -> match_all deploymentRegex text = [].
Proof. unfold Annotated.scanned. by destruct (match_all deploymentPattern text). Qed.

Lemma deployment_ids_scanned text :
  deployment_ids text =
  if bool_decide (match_all deploymentPattern text = [])
  then collect deploymentRegex text else collect deploymentPattern text.
Proof.
  rewrite deployment_ids_collect.
  destruct (collect deploymentPattern text) as [|id ids] eqn:E.
  - apply collect_nil, match_all_nil in E. by rewrite bool_decide_eq_true_2.
  - rewrite bool_decide_eq_false_2; [done|].
    intros Hnil%match_all_nil%collect_nil. congruence.
Qed.
End AnnotatedFacts.

(** C10, as the code has it.  Every element of the list of
    [getDeploymentsList] is a token of 24 lowercase letters and digits and
    no element comes twice.  The list is read off one scan: the matches
    of the pattern that asks for a status word after the link and, only
    when that pattern matches nowhere, the matches of the plain pattern.
    Each element is the identifier of a match of that scan, the first
    match that holds it; the elements come in the order of these matches
    in the page, and every identifier of a match of the scan is in the
    list.  A match of the annotated pattern is a link, text without an
    opening bracket, tags, and a note without an opening bracket that
    holds [Success], [Failed], [Running] or [Pending]; the matches of the
    plain pattern are the links of the page, all of them.  It is the list
    of the plain pattern, and so that of [view-logs.js], that comes in
    the order of first occurrence in the page. *)
Theorem deployment_ids_in_scan_order (text : JSString) :
  let ids := CoolifyLogs.deployment_ids text in
  let annotated := match_all CoolifyLogs.deploymentPattern text in
  let scanned := Annotated.scanned text in
  Forall (fun id => Deployments.is_deployment_id id = true) ids /\
  NoDup ids /\
  (exists picks,
     ids = CoolifyLogs.capture 1 <$> picks /\
     StronglySorted lt (m_index <$> picks) /\
     (forall pick, pick ∈ picks ->
        pick ∈ scanned /\
        Deployments.occurs_at text (m_index pick) (CoolifyLogs.capture 1 pick) /\
        forall m, m ∈ scanned ->
          CoolifyLogs.capture 1 m = CoolifyLogs.capture 1 pick ->
          m_index pick <= m_index m) /\
     (forall m, m ∈ scanned -> CoolifyLogs.capture 1 m ∈ ids)) /\
  (scanned = if bool_decide (annotated = [])
             then match_all CoolifyLogs.deploymentRegex text else annotated) /\
  (annotated = [] <-> str_match CoolifyLogs.deploymentPattern text = None) /\
  (forall m, m ∈ annotated ->
     exists gap insides rest,
       drop (m_index m) text =
         lit "/deployment/" ++ CoolifyLogs.capture 1 m ++ gap ++ Annotated.tags insides
         ++ CoolifyLogs.capture 2 m ++ rest /\
       (CoolifyLogs.chr "<" ∉ gap) /\
       Forall (fun a => CoolifyLogs.chr ">" ∉ a) insides /\
       (CoolifyLogs.chr "<" ∉ CoolifyLogs.capture 2 m) /\
       exists word, word ∈ Viewer.status_words /\
                    includes (CoolifyLogs.capture 2 m) word = true) /\
  (forall m, m ∈ match_all CoolifyLogs.deploymentRegex text ->
     Deployments.is_deployment_id (CoolifyLogs.capture 1 m) = true /\
     Deployments.occurs_at text (m_index m) (CoolifyLogs.capture 1 m)) /\
  (forall p id, p <= length text -> Deployments.is_deployment_id id = true ->
     Deployments.occurs_at text p id ->
     exists m, m ∈ match_all CoolifyLogs.deploymentRegex text /\ m_index m = p /\
               CoolifyLogs.capture 1 m = id) /\
  (annotated = [] ->
     ids = Legacy.deployment_ids text /\ Deployments.first_occurrence_order text ids) /\
  Forall (fun id => Deployments.is_deployment_id id = true) (Legacy.deployment_ids text) /\
  NoDup (Legacy.deployment_ids text) /\
  Deployments.first_occurrence_order text (Legacy.deployment_ids text).
Proof.
  intros ids annotated scanned.
  assert (Hfound : forall m, m ∈ scanned ->
            Deployments.is_deployment_id (CoolifyLogs.capture 1 m) = true /\
            Deployments.occurs_at text (m_index m) (CoolifyLogs.capture 1 m)).
  { intros m Hm. unfold scanned, Annotated.scanned in Hm. fold annotated in Hm.
    destruct annotated as [|a rest] eqn:Ea.
    - apply scan_elem in Hm as (j & _ & Hj & Hf). simpl in Hj. subst j.
      by apply deploymentRegex_found.
    - rewrite <- Ea in Hm. apply scan_elem in Hm as (j & _ & Hj & Hf). simpl in Hj. subst j.
      by apply deploymentPattern_found. }
  assert (Hids : exists re, ids = CoolifyLogs.collect re text /\ scanned = match_all re text).
  { unfold ids, scanned, Annotated.scanned. rewrite deployment_ids_scanned.
    fold annotated. destruct annotated as [|a rest] eqn:Ea.
    - exists CoolifyLogs.deploymentRegex. by rewrite bool_decide_eq_true_2.
    - exists CoolifyLogs.deploymentPattern. by rewrite bool_decide_eq_false_2. }
  destruct Hids as (re & Hids & Hscanned).
  pose proof (collect_first_occurrence_order text) as Op.
  split; [|split; [|split; [|split; [|split; [|split; [|split; [|split; [|split]]]]]]]].
  - rewrite Hids. apply Forall_forall. intros x (m & Hm & <-)%collect_elem.
    rewrite <- Hscanned in Hm. by apply Hfound in Hm as [? _].
  - rewrite Hids. apply collect_NoDup.
  - destruct (collect_picks re text) as (picks & Hc & Hsorted & Hpick & Hall).
    exists picks. rewrite Hids, Hscanned. split; [done|]. split; [done|]. split; [|done].
    intros pick Hin. destruct (Hpick pick Hin) as [Hm Hfirst].
    split; [done|]. split; [|done]. rewrite <- Hscanned in Hm. by apply Hfound in Hm as [_ ?].
  - unfold scanned, Annotated.scanned. fold annotated.
    by destruct annotated.
  - apply match_all_nil.
  - intros m Hm. apply scan_elem in Hm as (j & _ & Hj & Hf). simpl in Hj. subst j.
    apply deploymentPattern_shape in Hf
      as (gap & insides & rest & Ht & _ & Hgap & Hinsides & Hnote & Hword).
    by exists gap, insides, rest.
  - intros m Hm. apply scan_elem in Hm as (j & _ & Hj & Hf). simpl in Hj. subst j.
    by apply deploymentRegex_found.
  - intros p id Hp Hid Hocc. apply startsWith_app in Hocc as [rest Hrest].
    assert (match_here CoolifyLogs.deploymentRegex (drop p text)
            = Some (rest, {[ 1 := id ]})) as Hm.
    { apply deploymentRegex_match. exists id. split; [by rewrite Hrest, <- app_assoc|done]. }
    destruct (scan_complete CoolifyLogs.deploymentRegex deploymentRegex_no_overlap
                text 0 0 p _ _ ltac:(intros; lia) Hp Hm) as (m & Hmin & Hmi & Hmc).
    exists m. split; [done|]. split; [done|].
    unfold CoolifyLogs.capture, group. by rewrite Hmc, lookup_singleton_eq.
  - intros Hnil. unfold ids. rewrite deployment_ids_scanned.
    fold annotated. rewrite bool_decide_eq_true_2 by done. by split.
  - split.
    + apply Forall_forall. intros x (m & Hm & <-)%collect_elem.
      apply scan_elem in Hm as (j & _ & _ & Hf). by apply deploymentRegex_found in Hf as [? _].
    + split; [apply collect_NoDup|done].
Qed.

(** C10, at a page without any status word: the list is that of the
    plain pattern, in the order of first occurrence. *)
Lemma deployment_ids_in_scan_order_witness :
  CoolifyLogs.deployment_ids Deployments.page_without_status
    = Legacy.deployment_ids Deployments.page_without_status /\
  Deployments.first_occurrence_order Deployments.page_without_status
    (CoolifyLogs.deployment_ids Deployments.page_without_status).
Proof.
  pose proof (deployment_ids_in_scan_order Deployments.page_without_status)
    as (_ & _ & _ & _ & _ & _ & _ & _ & Hplain & _).
  apply Hplain. by vm_compute.
Defined.

(** ** The snapshot, field by field *)

Section SnapshotFacts.
Import CoolifyLogs Strategies.
Context `{Runtime}.

Lemma data_and_truthy_field wireData name :
  wireData <> JNull ->
  exists v, data_and wireData name = Ok v /\
    (if ToBoolean v then v else None) =
    match Snapshot.truthy_field wireData "data" with
    | Some data => Snapshot.truthy_field data name
    | None => None
    end.
Proof.
  intros Hnull. unfold data_and, Snapshot.truthy_field, mbind, Result_bind, rbind, Get.
  destruct wireData as [| | | | |props]; try done; try (by exists None).
  destruct (own_property (lit "data") props) as [d|]; [|by exists None].
  destruct (ToBoolean (Some d)) eqn:Ed; [|exists (Some d); by rewrite Ed].
  destruct d as [| | | | |dprops]; try done; try (by exists None).
  destruct (own_property (lit name) dprops) as [x|]; [|by exists None].
  exists (Some x). split; [done|]. by destruct (ToBoolean (Some x)).
Qed.

Lemma ToBoolean_keep (v : option JSValue) :
  ToBoolean v = true -> (if ToBoolean v then v else None) = v.
Proof. by intros ->. Qed.

(** What the [try] block of the first strategy leaves in the two
    variables. *)
Lemma read_snapshot_logs_of m wireData :
  JSON_parse (decode_snapshot (capture 1 m)) = Some wireData ->
  rcatch (read_snapshot m init) (fun _ => Ok init) =
  Ok (match Snapshot.logs_of wireData with
      | Some v => found v
      | None => init
      end).
Proof.
  intros Hparse. unfold read_snapshot. cbn zeta. rewrite Hparse.
  unfold mbind, Result_bind. cbn [rbind].
  assert (wireData = JNull \/ wireData <> JNull) as [->|Hnull]
    by (destruct wireData; auto; right; discriminate); [done|].
  unfold Snapshot.logs_of.
  destruct (data_and_truthy_field wireData "output" Hnull) as (output & -> & Ho).
  destruct (data_and_truthy_field wireData "logs" Hnull) as (logs & -> & Hl).
  destruct (data_and_truthy_field wireData "deployment_logs" Hnull) as (dl & -> & Hd).
  cbn [rbind].
  destruct (Snapshot.truthy_field wireData "data") as [data|] eqn:Edata.
  - destruct (ToBoolean output) eqn:Eo.
    { rewrite <- Ho. by destruct output. }
    rewrite <- Ho.
    destruct (ToBoolean logs) eqn:El.
    { rewrite <- Hl. by destruct logs. }
    rewrite <- Hl.
    destruct (ToBoolean dl) eqn:Edl.
    { rewrite <- Hd. by destruct dl. }
    rewrite <- Hd.
    unfold Snapshot.truthy_field in Edata.
    destruct wireData as [| | | | |props]; try done. cbn [Get].
    destruct (own_property (lit "data") props) as [d|]; [|done].
    destruct (ToBoolean (Some d)) eqn:Etd; [|done].
    injection Edata as ->. cbn [rbind default]. rewrite Etd. unfold id.
    by destruct (find long_string (entry_values data)).
  - destruct (ToBoolean output) eqn:Eo; [by subst output|].
    destruct (ToBoolean logs) eqn:El; [by subst logs|].
    destruct (ToBoolean dl) eqn:Edl; [by subst dl|].
    unfold Snapshot.truthy_field in Edata.
    destruct wireData as [| | | | |props]; try done. cbn [Get rbind].
    destruct (own_property (lit "data") props) as [d|]; [|done].
    by destruct (ToBoolean (Some d)).
Qed.

Lemma yield_embedded_logs_of page :
  yield EmbeddedState page =
  (m ← str_match re_wire_snapshot page;
   wireData ← JSON_parse (decode_snapshot (capture 1 m));
   Snapshot.logs_of wireData).
Proof.
  unfold yield. destruct (str_match re_wire_snapshot page) as [m|]; [|done].
  cbn [mbind option_bind].
  destruct (JSON_parse (decode_snapshot (capture 1 m))) as [wireData|] eqn:Hparse.
  - pose proof (read_snapshot_logs_of m wireData Hparse) as Hr.
    change (mkCascade None false) with init.
    destruct (read_snapshot m init) as [st|e]; simpl in Hr.
    + injection Hr as ->. cbn [mbind option_bind].
      by destruct (Snapshot.logs_of wireData).
    + cbn [mbind option_bind]. by destruct (Snapshot.logs_of wireData).
  - unfold read_snapshot. cbn zeta. by rewrite Hparse.
Qed.
End SnapshotFacts.

(** ** The extraction of [view-logs.js] *)

Section ViewLogsFacts.
Import CoolifyLogs.
Context `{Runtime} `{ViewLogs.Serializer}.

Lemma each_pattern_first_match page ps logsContent :
  ViewLogs.each_pattern (JStr page) ps logsContent =
  Ok (match ViewLogs.first_match ps page with
      | Some m => Some (m_text m)
      | None => logsContent
      end).
Proof.
  induction ps as [|pattern ps IH]; [done|].
  cbn [ViewLogs.each_pattern ViewLogs.first_match method_match mbind Result_bind rbind].
  by destruct (str_match pattern page).
Qed.

Lemma read_snapshot_yield page m logsContent :
  str_match re_wire_snapshot page = Some m ->
  ViewLogs.read_snapshot m logsContent =
  match ViewLogs.yield ViewLogs.EmbeddedState page with
  | Some t => Some t
  | None => logsContent
  end.
Proof.
  intros Hm. unfold ViewLogs.read_snapshot, ViewLogs.yield. rewrite Hm.
  cbn [mbind option_bind]. cbn zeta.
  destruct (JSON_parse (decode_snapshot (capture 1 m))) as [wireData|]; [|done].
  cbn [mbind option_bind]. unfold substring0.
  by destruct (includes _ _ && _).
Qed.

Lemma viewlogs_cascade_select page :
  exists logsContent,
    ViewLogs.cascade (JStr page) = Ok logsContent /\
    ViewLogs.kept logsContent = snd <$> ViewLogs.select page.
Proof.
  unfold ViewLogs.cascade, ViewLogs.select, ViewLogs.priority.
  cbn [ViewLogs.first_text method_match mbind Result_bind rbind].
  assert (Hsnap : match str_match re_wire_snapshot page with
                  | Some m => ViewLogs.read_snapshot m None
                  | None => None
                  end = ViewLogs.yield ViewLogs.EmbeddedState page /\
                  match str_match re_wire_snapshot page with
                  | Some m => ViewLogs.read_snapshot m (Some [])
                  | None => Some []
                  end = match ViewLogs.yield ViewLogs.EmbeddedState page with
                        | Some t => Some t
                        | None => Some []
                        end).
  { destruct (str_match re_wire_snapshot page) as [m|] eqn:Em.
    - rewrite !(read_snapshot_yield page m) by done.
      by destruct (ViewLogs.yield ViewLogs.EmbeddedState page).
    - unfold ViewLogs.yield. by rewrite Em. }
  destruct Hsnap as [Hsnap1 Hsnap2].
  assert (Hkey : forall logsContent,
            ViewLogs.each_pattern (JStr page) ViewLogs.patterns logsContent =
            Ok (match ViewLogs.yield ViewLogs.KeywordText page with
                | Some t => Some t
                | None => logsContent
                end)).
  { intros logsContent. rewrite each_pattern_first_match. unfold ViewLogs.yield.
    by destruct (ViewLogs.first_match ViewLogs.patterns page). }
  assert (Eblock : forall re, capture 1 <$> str_match re page =
            match str_match re page with
            | Some m => Some (capture 1 m)
            | None => None
            end) by (intros re; by destruct (str_match re page)).
  change (ViewLogs.yield ViewLogs.PreBlock page)
    with (capture 1 <$> str_match ViewLogs.re_pre page).
  change (ViewLogs.yield ViewLogs.CodeBlock page)
    with (capture 1 <$> str_match ViewLogs.re_code page).
  rewrite !Eblock. clear Eblock. unfold mbind, Result_bind.
  destruct (str_match ViewLogs.re_pre page) as [m1|];
    cbn [fmap option_fmap option_map rbind];
    [destruct (capture 1 m1) as [|x1 t1]|];
    cbn [ViewLogs.unset id_truthy str_truthy negb rbind];
    try (eexists; split; [reflexivity|done]);
    (destruct (str_match ViewLogs.re_code page) as [m2|];
     cbn [fmap option_fmap option_map rbind];
     [destruct (capture 1 m2) as [|x2 t2]|];
     cbn [ViewLogs.unset id_truthy str_truthy negb rbind];
     try (eexists; split; [reflexivity|done]));
    rewrite ?Hsnap1, ?Hsnap2;
    (destruct (ViewLogs.yield ViewLogs.EmbeddedState page) as [[|x3 t3]|];
     cbn [ViewLogs.unset id_truthy str_truthy negb];
     try (eexists; split; [reflexivity|done]));
    (eexists; split; [apply Hkey|]);
    by destruct (ViewLogs.yield ViewLogs.KeywordText page) as [[|x4 t4]|].
Qed.

Lemma viewlogs_extract_select page :
  ViewLogs.extract (JStr page) =
  Ok ((fun choice => Legacy.normalize choice.2) <$> ViewLogs.select page).
Proof.
  unfold ViewLogs.extract.
  destruct (viewlogs_cascade_select page) as (logsContent & -> & Hk).
  cbn [mbind Result_bind rbind].
  destruct (ViewLogs.select page) as [[k t]|]; simpl in *.
  - destruct logsContent as [[|x u]|]; try done. by injection Hk as <-.
  - by destruct logsContent as [[|x u]|].
Qed.

Lemma viewlogs_select_first page k t :
  ViewLogs.select page = Some (k, t) ->
  ViewLogs.yield k page = Some t /\ t <> [] /\
  forall j, ViewLogs.rank j < ViewLogs.rank k ->
    ViewLogs.yield j page = None \/ ViewLogs.yield j page = Some [].
Proof.
  unfold ViewLogs.select, ViewLogs.priority. cbn [ViewLogs.first_text].
  destruct (ViewLogs.yield ViewLogs.PreBlock page) as [[|x1 t1]|] eqn:E1;
    try (intros [= <- <-]; split; [done|]; split; [done|];
         intros [] Hj; simpl in Hj; try lia; auto);
  destruct (ViewLogs.yield ViewLogs.CodeBlock page) as [[|x2 t2]|] eqn:E2;
    try (intros [= <- <-]; split; [done|]; split; [done|];
         intros [] Hj; simpl in Hj; try lia; auto);
  destruct (ViewLogs.yield ViewLogs.EmbeddedState page) as [[|x3 t3]|] eqn:E3;
    try (intros [= <- <-]; split; [done|]; split; [done|];
         intros [] Hj; simpl in Hj; try lia; auto);
  destruct (ViewLogs.yield ViewLogs.KeywordText page) as [[|x4 t4]|] eqn:E4;
    try (intros [= <- <-]; split; [done|]; split; [done|];
         intros [] Hj; simpl in Hj; try lia; auto);
  done.
Qed.

Lemma viewlogs_select_none page :
  ViewLogs.select page = None <->
  forall k, ViewLogs.yield k page = None \/ ViewLogs.yield k page = Some [].
Proof.
  unfold ViewLogs.select, ViewLogs.priority. cbn [ViewLogs.first_text]. split.
  - destruct (ViewLogs.yield ViewLogs.PreBlock page) as [[|x1 t1]|] eqn:E1; try done;
    destruct (ViewLogs.yield ViewLogs.CodeBlock page) as [[|x2 t2]|] eqn:E2; try done;
    destruct (ViewLogs.yield ViewLogs.EmbeddedState page) as [[|x3 t3]|] eqn:E3; try done;
    destruct (ViewLogs.yield ViewLogs.KeywordText page) as [[|x4 t4]|] eqn:E4; try done;
    intros _ []; auto.
  - intros Hall.
    destruct (Hall ViewLogs.PreBlock) as [-> | ->];
    destruct (Hall ViewLogs.CodeBlock) as [-> | ->];
    destruct (Hall ViewLogs.EmbeddedState) as [-> | ->];
    destruct (Hall ViewLogs.KeywordText) as [-> | ->]; done.
Qed.
End ViewLogsFacts.

(** C1, as the code has it.  On a page of text [getDeploymentLogs] runs
    its five strategies in the fixed order embedded state, status markup,
    [pre] block, [code] block, keyword lines, and stops at the first that
    finds something: the two variables of the code end where that
    strategy alone leaves them and the strategies before it find nothing.
    The first strategy finds, under a truthy [data] of the parsed
    snapshot, the first truthy one of [output], [logs] and
    [deployment_logs], and without any the first value of [data] that is
    a string of more than 500 characters; what it finds is truthy, and
    its text may be empty.  The four other strategies find a text that is
    not empty.  The result is the normalized text of what was found, is
    read off the page alone, and leaves the session as the request left
    it.  In [view-logs.js] the strategies are four, in the order [pre]
    block, [code] block, embedded state, keyword text, and the first that
    yields a text that is not empty gives the result. *)
Theorem extractor_priority_order `{Runtime} `{ViewLogs.Serializer} (page : JSString) :
  CoolifyLogs.cascade (JStr page) = Ok (Strategies.state_of (Strategies.select page)) /\
  CoolifyLogs.extract (JStr page) =
    match Strategies.select page with
    | Some (_, v) => ToString v ≫= fun text => Ok (Some (CoolifyLogs.normalize text))
    | None => Ok None
    end /\
  (forall k v,
     Strategies.select page = Some (k, v) ->
     Strategies.yield k page = Some v /\
     (forall j, Strategies.rank j < Strategies.rank k -> Strategies.yield j page = None) /\
     ToBoolean (Some v) = true /\
     (k <> Strategies.EmbeddedState -> exists t, v = JStr t /\ t <> [])) /\
  (Strategies.select page = None <-> forall k, Strategies.yield k page = None) /\
  Strategies.yield Strategies.EmbeddedState page =
    (m ← str_match CoolifyLogs.re_wire_snapshot page;
     wireData ← JSON_parse (CoolifyLogs.decode_snapshot (CoolifyLogs.capture 1 m));
     Snapshot.logs_of wireData) /\
  (forall (server : Server) fuel deploymentId w res w',
     CoolifyLogs.request server fuel
       (CoolifyLogs.application_url (session w) ++ lit "/deployment/" ++ deploymentId)
       no_options w = Returned res w' ->
     body res = JStr page ->
     CoolifyLogs.getDeploymentLogs server fuel deploymentId w =
       lift (CoolifyLogs.extract (JStr page)) w') /\
  ViewLogs.extract (JStr page) =
    Ok ((fun choice => Legacy.normalize choice.2) <$> ViewLogs.select page) /\
  (forall k t,
     ViewLogs.select page = Some (k, t) ->
     ViewLogs.yield k page = Some t /\ t <> [] /\
     forall j, ViewLogs.rank j < ViewLogs.rank k ->
       ViewLogs.yield j page = None \/ ViewLogs.yield j page = Some []) /\
  (ViewLogs.select page = None <->
   forall k, ViewLogs.yield k page = None \/ ViewLogs.yield k page = Some []).
Proof.
  split; [apply cascade_select|]. split; [apply extract_select|].
  split; [|split; [|split; [|split; [|split; [|split]]]]].
  - intros k v Hs. pose proof (select_Some _ _ _ Hs) as [Hy Hbefore].
    split; [done|]. split; [done|]. split; [by eapply yield_truthy|].
    intros Hk. by eapply yield_text_nonempty.
  - apply select_None_iff.
  - apply yield_embedded_logs_of.
  - intros server fuel deploymentId w res w' Hr Hb.
    rewrite getDeploymentLogs_eq, Hr, Hb. unfold lift.
    by destruct (CoolifyLogs.extract (JStr page)).
  - apply viewlogs_extract_select.
  - apply viewlogs_select_first.
  - apply viewlogs_select_none.
Qed.

(** C1, at a page with a [pre] block and a keyword line: the block wins
    in both files. *)
Lemma extractor_priority_order_witness :
  let rt := SnapshotPages.runtime in
  let sr := SnapshotPages.serializer in
  CoolifyLogs.extract (JStr LogPages.pre_page) = Ok (Some LogPages.pre_log) /\
  ViewLogs.extract (JStr LogPages.pre_page) = Ok (Some LogPages.pre_log).
Proof.
  intros rt sr.
  pose proof (@extractor_priority_order rt sr LogPages.pre_page)
    as (_ & He & _ & _ & _ & _ & Hv & _).
  rewrite He, Hv. vm_compute. split; reflexivity.
Defined.

(** C1 as it is stated fails.  A snapshot whose [output] is the empty
    list is truthy: the first strategy takes it, its text is empty, and
    the [pre] block that follows, which holds a text, is not looked at.
    And the two files do not run the same strategies: on a page with a
    snapshot that holds a log and a [pre] block, [view-logs.js] returns
    the block and the later file the log. *)
Lemma extractor_takes_empty_snapshot_output :
  let rt := SnapshotPages.runtime in
  let sr := SnapshotPages.serializer in
  Strategies.select SnapshotPages.empty_output_page
    = Some (Strategies.EmbeddedState, JArr []) /\
  ToString (JArr []) = Ok [] /\
  CoolifyLogs.extract (JStr SnapshotPages.empty_output_page) = Ok (Some []) /\
  Strategies.yield Strategies.PreBlock SnapshotPages.empty_output_page
    = Some (JStr (lit "Build OK")) /\
  ~ (forall page k v t,
       Strategies.select page = Some (k, v) -> ToString v = Ok t -> t <> []) /\
  CoolifyLogs.extract (JStr SnapshotPages.logs_page) = Ok (Some (lit "Cloning done")) /\
  ViewLogs.extract (JStr SnapshotPages.logs_page) = Ok (Some (lit "Build OK")).
Proof.
  intros rt sr.
  assert (Strategies.select SnapshotPages.empty_output_page
          = Some (Strategies.EmbeddedState, JArr [])) as Hs by (by vm_compute).
  split; [done|]. split; [done|]. split; [by vm_compute|]. split; [by vm_compute|].
  split; [|split; by vm_compute].
  intros Hall. by apply (Hall _ _ _ [] Hs).
Qed.
